(** * Customer segmentation and RFM scoring: a shallow embedding

    This development embeds the table transformations of
    [03_repeat_vs_onetime_buyers.py] (customer aggregation, order-count
    segments, purchase frequency, RFM quantile scores and the monthly
    new-versus-repeat classification) and proves the properties the
    specification states about them.

    Conventions of the embedding.
    - A timestamp (pandas [datetime64[ns]]) is the integer number of
      nanoseconds since the epoch, a [Z].
    - A monetary amount (a pandas [float64]) is an exact rational, a [Q]:
      sums, means and quantile edges are taken without binary rounding.
    - The cells the scripts divide and round to two places (the purchase
      frequency, the shares in percent) are binary64 numbers: every
      division, product and conversion of an integer is rounded to the
      nearest binary64 number, ties to the even mantissa.
    - A column is a list, in row order; a frame is a list of rows.
    - A raised exception is the [Err] case of [result]. *)

From Stdlib Require Import List ZArith QArith Qround Qabs Qpower Bool String.
From Stdlib Require Import DecimalString Lia.
From Stdlib Require Import Permutation Sorted SetoidList SetoidPermutation.
Import ListNotations.

Local Open Scope string_scope.
Local Open Scope list_scope.
Local Open Scope Z_scope.

(* ===================================================================== *)
(** * Part I: the embedding                                              *)
(* ===================================================================== *)

(** ** Exceptions *)

(** The two exceptions pandas raises on the paths modelled here: a
    [KeyError] names the labels that were not found, a [ValueError] carries
    its message. *)
Inductive error : Type :=
| KeyError (labels : list string)
| ValueError (message : string).

Inductive result (A : Type) : Type :=
| Ok (a : A)
| Err (e : error).

Arguments Ok {A} a.
Arguments Err {A} e.

Definition bind {A B : Type} (r : result A) (k : A -> result B) : result B :=
  match r with
  | Ok a => k a
  | Err e => Err e
  end.

(** ** The cleaned transaction table *)

(** One line item of [cleaned_ecommerce_data.parquet]; only the four
    columns the script reads are kept. *)
Record Transaction : Type := mkTransaction {
  CustomerID : Z;          (* 'Customer ID' *)
  Invoice : string;        (* 'Invoice' *)
  InvoiceDate : Z;         (* 'InvoiceDate', nanoseconds *)
  TotalAmount : Q          (* 'TotalAmount' *)
}.

(** The frame as read from the file: the column labels it carries and its
    rows.  The value a row holds for a column that is absent is never
    read: every access goes through a label lookup first. *)
Record DataFrame : Type := mkDataFrame {
  columns : list string;
  rows : list Transaction
}.

Definition has_column (df : DataFrame) (label : string) : bool :=
  existsb (String.eqb label) (columns df).

(** ** groupby *)

Section GroupBy.
Context {A : Type}.
Variable key : A -> Z.

(** Groups are kept sorted by key (pandas' [sort=True] default); inside a
    group the rows keep the order of the frame. *)
Fixpoint group_insert (x : A) (gs : list (Z * list A)) : list (Z * list A) :=
  match gs with
  | [] => [(key x, [x])]
  | (k, xs) :: gs' =>
      if key x <? k then (key x, [x]) :: gs
      else if key x =? k then (k, xs ++ [x]) :: gs'
      else (k, xs) :: group_insert x gs'
  end.

Definition groupby (l : list A) : list (Z * list A) :=
  fold_left (fun gs x => group_insert x gs) l [].

(** The rows of the group of key [k]; none when the key has no group. *)
Fixpoint group_of (k : Z) (gs : list (Z * list A)) : list A :=
  match gs with
  | [] => []
  | (k', xs) :: gs' => if k =? k' then xs else group_of k gs'
  end.

Definition keys (gs : list (Z * list A)) : list Z := map fst gs.

(** What [groupby] maintains: strictly increasing keys, and groups that
    are never empty. *)
Definition well_grouped (gs : list (Z * list A)) : Prop :=
  StronglySorted Z.lt (keys gs) /\ Forall (fun g => snd g <> []) gs.
End GroupBy.

(** ** Aggregations over one group *)

(** ['nunique']: the number of distinct values. *)
Definition nunique (l : list string) : Z :=
  Z.of_nat (List.length (nodup string_dec l)).

(** ['min'] and ['max'] of a timestamp column; [None] is [NaT], the value on
    an empty column. *)
Definition min_ts (l : list Z) : option Z :=
  match l with
  | [] => None
  | x :: l' => Some (fold_left Z.min l' x)
  end.

Definition max_ts (l : list Z) : option Z :=
  match l with
  | [] => None
  | x :: l' => Some (fold_left Z.max l' x)
  end.

(** ['sum'], ['count'] and ['mean'] of an amount column. *)
Definition sum (l : list Q) : Q := fold_left Qplus l 0%Q.

Definition count {A : Type} (l : list A) : Z := Z.of_nat (List.length l).

Definition mean (l : list Q) : Q := (sum l / inject_Z (count l))%Q.

(** ** Step 1: the customer aggregator (lines 36-45) *)

Record CustomerRow : Type := mkCustomerRow {
  Customer_ID : Z;
  OrderCount : Z;
  FirstPurchase : Z;
  LastPurchase : Z;
  TotalRevenue : Q;
  AvgTransactionValue : Q;
  TotalTransactions : Z
}.

(** The dates of a group; a group made by [groupby] is never empty, the
    default is not reached. *)
Definition ts_or_zero (o : option Z) : Z :=
  match o with
  | Some z => z
  | None => 0
  end.

Definition aggregate (g : Z * list Transaction) : CustomerRow :=
  let ts := snd g in
  {| Customer_ID := fst g;
     OrderCount := nunique (map Invoice ts);
     FirstPurchase := ts_or_zero (min_ts (map InvoiceDate ts));
     LastPurchase := ts_or_zero (max_ts (map InvoiceDate ts));
     TotalRevenue := sum (map TotalAmount ts);
     AvgTransactionValue := mean (map TotalAmount ts);
     TotalTransactions := count ts |}.

(** [df.groupby('Customer ID').agg({...}).reset_index()] on the rows. *)
Definition customer_orders (df : list Transaction) : list CustomerRow :=
  map aggregate (groupby CustomerID df).

(** The labels the aggregation looks up, in the order pandas meets them. *)
Definition group_label : string := "Customer ID".
Definition agg_labels : list string := ["Invoice"; "InvoiceDate"; "TotalAmount"].

(** The aggregator on the frame as read: [groupby] raises [KeyError] on an
    absent grouping label and [agg] raises [KeyError] on the
    absent aggregated labels; no other check is made. *)
Definition aggregate_frame (df : DataFrame) : result (list CustomerRow) :=
  if negb (has_column df group_label) then Err (KeyError [group_label])
  else
    match filter (fun c => negb (has_column df c)) agg_labels with
    | [] => Ok (customer_orders (rows df))
    | missing => Err (KeyError missing)
    end.

(** ** Step 2: segments (lines 55-72) *)

Definition classify_customer (order_count : Z) : string :=
  if order_count =? 1 then "One-Time Buyer"
  else if order_count =? 2 then "Two-Time Buyer"
  else if order_count <=? 5 then "Occasional Buyer (3-5 orders)"
  else if order_count <=? 10 then "Regular Buyer (6-10 orders)"
  else "Loyal Customer (10+ orders)".

Definition CustomerSegment (co : list CustomerRow) : list string :=
  map (fun r => classify_customer (OrderCount r)) co.

Definition customer_type (x : Z) : string :=
  if x =? 1 then "One-Time Buyer" else "Repeat Buyer".

Definition CustomerType (co : list CustomerRow) : list string :=
  map (fun r => customer_type (OrderCount r)) co.

(** ** Step 5: customer lifetime and purchase frequency (lines 131-139) *)

Definition ns_per_day : Z := 86400 * 1000000000.

(** [.dt.days] of a time difference: whole days, rounded down. *)
Definition days (delta : Z) : Z := delta / ns_per_day.

Definition CustomerLifetime_Days (r : CustomerRow) : Z :=
  days (LastPurchase r - FirstPurchase r).

Definition repeat_customers (co : list CustomerRow) : list CustomerRow :=
  filter (fun r => 1 <? OrderCount r) co.

(** A [float64] cell: a number, an infinity or NaN.  Dividing by zero does
    not raise in pandas, it yields an infinity or NaN. *)
Inductive float_value : Type :=
| Finite (q : Q)
| Inf (positive : bool)
| NaN.

(** Rounding to the nearest integer, halves to the even neighbour
    ([numpy.rint]). *)
Definition rint (q : Q) : Z :=
  let f := Qfloor q in
  match (q - inject_Z f ?= 1 # 2)%Q with
  | Lt => f
  | Gt => f + 1
  | Eq => if Z.even f then f else f + 1
  end.

Definition pow2 (e : Z) : Q := Qpower 2 e.

(** The exponent of the binade of a positive number: the integer part of
    its binary logarithm. *)
Definition ilog2 (q : Q) : Z :=
  let l := Z.log2 (Qnum q) - Z.log2 (Zpos (Qden q)) in
  if Qle_bool (pow2 l) q then l else l - 1.

(** The binary64 number nearest to a rational, ties to the even mantissa:
    a multiple of the unit in the last place of its binade (53 bits of
    mantissa, the least unit 2^-1074), an infinity from 2^1024 on. *)
Definition binary64 (x : Q) : float_value :=
  let q := Qred x in
  if Qeq_bool q 0 then Finite 0
  else
    let e := Z.max (ilog2 (Qabs q) - 52) (-1074) in
    let r := Qred (inject_Z (rint (q / pow2 e)) * pow2 e) in
    if Qle_bool (pow2 1024) (Qabs r) then Inf (Qle_bool 0 q) else Finite r.

(** An integer cell converted to [float64]. *)
Definition of_int (a : Z) : float_value := binary64 (inject_Z a).

Definition negative (q : Q) : bool := negb (Qle_bool 0 q).

(** [float64] division; a zero divisor is the positive zero. *)
Definition fdiv (x y : float_value) : float_value :=
  match x, y with
  | NaN, _ | _, NaN => NaN
  | Inf _, Inf _ => NaN
  | Inf s, Finite b => Inf (if negative b then negb s else s)
  | Finite _, Inf _ => Finite 0
  | Finite a, Finite b =>
      if Qeq_bool b 0 then
        if negative (- a) then Inf true else if negative a then Inf false else NaN
      else binary64 (a / b)
  end.

(** [float64] product. *)
Definition fmul (x y : float_value) : float_value :=
  match x, y with
  | NaN, _ | _, NaN => NaN
  | Inf s, Inf s' => Inf (Bool.eqb s s')
  | Inf s, Finite b | Finite b, Inf s =>
      if Qeq_bool b 0 then NaN else Inf (if negative b then negb s else s)
  | Finite a, Finite b => binary64 (a * b)
  end.

Definition frint (v : float_value) : float_value :=
  match v with
  | Finite q => Finite (inject_Z (rint q))
  | _ => v
  end.

(** Series [/] on two integer columns: both are converted, then divided. *)
Definition truediv (a b : Z) : float_value := fdiv (of_int a) (of_int b).

(** [.round(2)], as numpy does it: times 100, [rint], divided by 100. *)
Definition round2 (v : float_value) : float_value :=
  fdiv (frint (fmul v (Finite 100))) (Finite 100).

Definition PurchaseFrequency_DaysPerOrder (r : CustomerRow) : float_value :=
  round2 (truediv (CustomerLifetime_Days r) (OrderCount r - 1)).

(** ** Step 6: RFM scores (lines 153-183) *)

Definition analysis_date (df : list Transaction) : option Z :=
  max_ts (map InvoiceDate df).

(** [(analysis_date - customer_orders['LastPurchase']).dt.days].  The date
    is [NaT] only on a frame without rows, whose aggregate has no rows
    either: the column is then empty. *)
Definition Recency_Days (df : list Transaction) : list Z :=
  match analysis_date df with
  | Some d => map (fun r => days (d - LastPurchase r)) (customer_orders df)
  | None => []
  end.

Section Rank.
Context {A : Type}.
Variable leb : A -> A -> bool.

Definition below (x y : A) : bool := negb (leb y x).
Definition tied (x y : A) : bool := leb x y && leb y x.

Definition count_if (p : A -> bool) (l : list A) : nat :=
  List.length (filter p l).

(** [rank(method='first')] of a value: one more than the number of
    strictly smaller values of the column plus the number of equal
    values on the rows before it. *)
Definition rank_of (all before : list A) (x : A) : Z :=
  1 + Z.of_nat (count_if (fun y => below y x) all)
    + Z.of_nat (count_if (fun y => tied y x) before).

Fixpoint rank_from (all before rest : list A) : list Z :=
  match rest with
  | [] => []
  | x :: rest' => rank_of all before x :: rank_from all (before ++ [x]) rest'
  end.

Definition rank_first (xs : list A) : list Z := rank_from xs [] xs.
End Rank.

(** *** pd.qcut *)

Fixpoint insert_sorted (x : Z) (l : list Z) : list Z :=
  match l with
  | [] => [x]
  | y :: l' => if x <=? y then x :: l else y :: insert_sorted x l'
  end.

Definition sort (l : list Z) : list Z := fold_right insert_sorted [] l.

(** [np.linspace(0, 1, q + 1)]. *)
Definition linspace01 (q : nat) : list Q :=
  map (fun k => (inject_Z (Z.of_nat k) / inject_Z (Z.of_nat q))%Q) (seq 0 (S q)).

(** The quantile of level [p] by linear interpolation between the two
    nearest order statistics; NaN ([None]) when there is no data. *)
Definition quantile (a : list Z) (p : Q) : option Q :=
  match a with
  | [] => None
  | _ =>
      let s := sort a in
      let h := (p * inject_Z (count a - 1))%Q in
      let lo := Qfloor h in
      let hi := Z.min (lo + 1) (count a - 1) in
      let g := (h - inject_Z lo)%Q in
      let v0 := nth (Z.to_nat lo) s 0 in
      let v1 := nth (Z.to_nat hi) s 0 in
      Some (inject_Z v0 + (inject_Z v1 - inject_Z v0) * g)%Q
  end.

Definition same_edge (a b : option Q) : bool :=
  match a, b with
  | Some x, Some y => Qeq_bool x y
  | None, None => true
  | _, _ => false
  end.

(** [algos.unique]: first occurrences, in order. *)
Fixpoint unique (l : list (option Q)) : list (option Q) :=
  match l with
  | [] => []
  | e :: l' => e :: filter (fun e' => negb (same_edge e e')) (unique l')
  end.

Definition edge_below (e : option Q) (v : Z) : bool :=
  match e with
  | Some b => negb (Qle_bool (inject_Z v) b)
  | None => false
  end.

(** [bins.searchsorted(x, side='left')] on nondecreasing edges: the number
    of edges strictly below the value. *)
Definition searchsorted_left (bins : list (option Q)) (v : Z) : nat :=
  List.length (filter (fun e => edge_below e v) bins).

(** The bin number of a value, with [include_lowest]: a value equal to the
    first edge goes to bin 1. *)
Definition bin_id (bins : list (option Q)) (v : Z) : nat :=
  if same_edge (Some (inject_Z v)) (hd None bins) then 1%nat
  else searchsorted_left bins v.

Definition bin_edges (x : list Z) (q : nat) : list (option Q) :=
  map (quantile x) (linspace01 q).

(** [pd.qcut(x, q, labels)] with the defaults [duplicates='raise'] and
    right-closed bins.  A cell is NaN ([None]) when its value falls outside
    the edges. *)
Definition qcut (x : list Z) (q : nat) (labels : list Z) : result (list (option Z)) :=
  let bins := bin_edges x q in
  if (List.length (unique bins) <? List.length bins)%nat
     && negb (List.length bins =? 2)%nat
  then Err (ValueError "Bin edges must be unique")
  else if negb (List.length labels =? List.length bins - 1)%nat
  then Err (ValueError "Bin labels must be one fewer than the number of bin edges")
  else
    Ok (map (fun v =>
               let id := bin_id bins v in
               if (id =? List.length bins)%nat || (id =? 0)%nat then None
               else nth_error labels (id - 1))
            x).

Definition R_Score_col (df : list Transaction) : result (list (option Z)) :=
  qcut (rank_first Z.leb (Recency_Days df)) 5 [5; 4; 3; 2; 1].

Definition F_Score_col (df : list Transaction) : result (list (option Z)) :=
  qcut (rank_first Z.leb (map OrderCount (customer_orders df))) 5 [1; 2; 3; 4; 5].

Definition M_Score_col (df : list Transaction) : result (list (option Z)) :=
  qcut (rank_first Qle_bool (map TotalRevenue (customer_orders df))) 5 [1; 2; 3; 4; 5].

(** *** categorize_rfm *)

(** The three cells [categorize_rfm] reads from a row; [None] is NaN. *)
Record Row : Type := mkRow {
  R_Score : option Z;
  F_Score : option Z;
  M_Score : option Z
}.

(** [cell >= k]; a comparison with NaN is false. *)
Definition ge (cell : option Z) (k : Z) : bool :=
  match cell with
  | Some v => k <=? v
  | None => false
  end.

Definition categorize_rfm (row : Row) : string :=
  if ge (F_Score row) 4 && ge (M_Score row) 4 then "Champions"
  else if ge (F_Score row) 3 && ge (M_Score row) 3 then "Loyal Customers"
  else if ge (R_Score row) 4 then "Potential Loyalists"
  else if ge (R_Score row) 3 then "At Risk"
  else "Lost".

Fixpoint zip_rows (rs fs ms : list (option Z)) : list Row :=
  match rs, fs, ms with
  | r :: rs', f :: fs', m :: ms' => mkRow r f m :: zip_rows rs' fs' ms'
  | _, _, _ => []
  end.

(** [customer_orders.apply(categorize_rfm, axis=1)], reached only when the
    three [qcut] calls returned. *)
Definition RFM_Segment (df : list Transaction) : result (list string) :=
  bind (R_Score_col df) (fun rs =>
  bind (F_Score_col df) (fun fs =>
  bind (M_Score_col df) (fun ms =>
  Ok (map categorize_rfm (zip_rows rs fs ms))))).

(** ** Step 8: new and repeat buyers by transaction (lines 242-254) *)

Definition first_purchase (df : list Transaction) : list (Z * Z) :=
  map (fun g => (fst g, ts_or_zero (min_ts (map InvoiceDate (snd g)))))
      (groupby CustomerID df).

(** [df.merge(first_purchase, on='Customer ID')]: an inner join, every left
    row paired with the right rows of its key. *)
Definition merge (df : list Transaction) (right : list (Z * Z)) : list (Transaction * Z) :=
  flat_map (fun t => map (fun p => (t, snd p))
                         (filter (fun p => fst p =? CustomerID t) right))
           df.

Definition df_with_first (df : list Transaction) : list (Transaction * Z) :=
  merge df (first_purchase df).

Definition IsFirstPurchase (df : list Transaction) : list bool :=
  map (fun row => InvoiceDate (fst row) =? snd row) (df_with_first df).

Definition buyer_type (x : bool) : string :=
  if x then "New Customer" else "Repeat Customer".

Definition BuyerType (df : list Transaction) : list string :=
  map buyer_type (IsFirstPurchase df).

(** *** RFM_Score: the three scores as one string (lines 166-168) *)

(** [astype(str)] of a score cell. *)
Definition score_str (cell : option Z) : string :=
  match cell with
  | Some v => NilZero.string_of_int (Z.to_int v)
  | None => "nan"
  end.

Definition RFM_Score (df : list Transaction) : result (list string) :=
  bind (R_Score_col df) (fun rs =>
  bind (F_Score_col df) (fun fs =>
  bind (M_Score_col df) (fun ms =>
  Ok (map (fun row => score_str (R_Score row) ++ score_str (F_Score row)
                      ++ score_str (M_Score row))%string
          (zip_rows rs fs ms))))).

(** ** The frame [customer_orders] as the script grows it *)

(** A column of the frame, by the kind of its cells. *)
Inductive Column : Type :=
| IntCol (cells : list Z)
| FloatCol (cells : list Q)
| StrCol (cells : list string)
| CatCol (cells : list (option Z)).

Definition Frame : Type := list (string * Column).

Fixpoint get_column (label : string) (fr : Frame) : option Column :=
  match fr with
  | [] => None
  | (l, c) :: fr' => if String.eqb l label then Some c else get_column label fr'
  end.

(** [frame[label] = column]: replaces the column of that label, or appends
    a new one. *)
Fixpoint set_column (label : string) (c : Column) (fr : Frame) : Frame :=
  match fr with
  | [] => [(label, c)]
  | (l, c') :: fr' =>
      if String.eqb l label then (l, c) :: fr'
      else (l, c') :: set_column label c fr'
  end.

(** The seven columns named at lines 43-45. *)
Definition aggregate_columns (co : list CustomerRow) : Frame :=
  [ ("Customer_ID", IntCol (map Customer_ID co));
    ("OrderCount", IntCol (map OrderCount co));
    ("FirstPurchase", IntCol (map FirstPurchase co));
    ("LastPurchase", IntCol (map LastPurchase co));
    ("TotalRevenue", FloatCol (map TotalRevenue co));
    ("AvgTransactionValue", FloatCol (map AvgTransactionValue co));
    ("TotalTransactions", IntCol (map TotalTransactions co)) ].

Definition column_of {A : Type} (mk : A -> Column) (r : result A) : result Column :=
  bind r (fun a => Ok (mk a)).

(** Every assignment [customer_orders[label] = ...] of the script, in
    order (lines 67, 70, 131, 154, 158, 160, 162, 166 and 183), with the
    column it computes or the exception the computation raises. *)
Definition assignments (df : list Transaction) : list (string * result Column) :=
  let co := customer_orders df in
  [ ("CustomerSegment", Ok (StrCol (CustomerSegment co)));
    ("CustomerType", Ok (StrCol (CustomerType co)));
    ("CustomerLifetime_Days", Ok (IntCol (map CustomerLifetime_Days co)));
    ("Recency_Days", Ok (IntCol (Recency_Days df)));
    ("R_Score", column_of CatCol (R_Score_col df));
    ("F_Score", column_of CatCol (F_Score_col df));
    ("M_Score", column_of CatCol (M_Score_col df));
    ("RFM_Score", column_of StrCol (RFM_Score df));
    ("RFM_Segment", column_of StrCol (RFM_Segment df)) ].

(** Runs the assignments in order; an exception stops the script and leaves
    the frame as the assignments before it made it. *)
Fixpoint run (steps : list (string * result Column)) (fr : Frame)
  : Frame * option error :=
  match steps with
  | [] => (fr, None)
  | (label, Ok c) :: steps' => run steps' (set_column label c fr)
  | (_, Err e) :: _ => (fr, Some e)
  end.

Definition script (df : list Transaction) : Frame * option error :=
  run (assignments df) (aggregate_columns (customer_orders df)).

(** ** Notions the statements use *)

(** The transactions of one customer, in frame order: the set the
    specification calls T. *)
Definition transactions_of (c : Z) (df : list Transaction) : list Transaction :=
  filter (fun t => CustomerID t =? c) df.

(** The least timestamp among a customer's transactions. *)
Definition least_timestamp (df : list Transaction) (c m : Z) : Prop :=
  In m (map InvoiceDate (transactions_of c df))
  /\ forall t, In t (transactions_of c df) -> m <= InvoiceDate t.

(** The labels the aggregator needs, and a frame that lacks one of them. *)
Definition required_labels : list string := group_label :: agg_labels.

Definition lacks_required (df : DataFrame) : Prop :=
  exists c, In c required_labels /\ has_column df c = false.

(** The labels of the aggregate's own columns. *)
Definition aggregate_labels : list string :=
  ["Customer_ID"; "OrderCount"; "FirstPurchase"; "LastPurchase";
   "TotalRevenue"; "AvgTransactionValue"; "TotalTransactions"].

(** The ranks 1, ..., [n]. *)
Definition ranks_upto (n : nat) : list Z := map Z.of_nat (seq 1 n).

(** 'First' ranking of a column: the ranks are 1, ..., n, each taken once,
    and of two rows with tied values the earlier has the smaller rank. *)
Definition first_ranking {A : Type} (leb : A -> A -> bool) (col : list A) : Prop :=
  Permutation (rank_first leb col) (ranks_upto (List.length col))
  /\ forall i j x y,
      (i < j)%nat -> nth_error col i = Some x -> nth_error col j = Some y ->
      tied leb x y = true ->
      exists ri rj, nth_error (rank_first leb col) i = Some ri
                    /\ nth_error (rank_first leb col) j = Some rj /\ ri < rj.

(** Edge [k] of the six quantile edges of [n] ranks: [1 + k (n - 1) / 5]. *)
Definition edge (n k : Z) : Q := (5 + k * (n - 1)) # 5.

(** The number of the bin that holds rank [v] among [n]: bin 1 for the
    first rank, else the number of the six edges [1 + k (n - 1) / 5],
    [k = 0..5], strictly below [v]. *)
Definition bucket (n v : Z) : nat :=
  if v =? 1 then 1%nat
  else List.length (filter (fun k => 5 + k * (n - 1) <? 5 * v) [0; 1; 2; 3; 4; 5]).

(** The score of rank [v] among [n]: the label of its bin. *)
Definition score_of (n : Z) (labels : list Z) (v : Z) : option Z :=
  nth_error labels (bucket n v - 1).

(** The number of ranks among [n] that fall in bin [j]. *)
Definition bucket_count (n j : Z) : Z :=
  if j =? 1 then (n - 1) / 5 + 1
  else j * (n - 1) / 5 - (j - 1) * (n - 1) / 5.

(** The number of cells of a score column that carry a label. *)
Definition bucket_size (scores : list (option Z)) (label : Z) : nat :=
  count_if (fun cell => match cell with
                        | Some v => v =? label
                        | None => false
                        end)
           scores.

(** Every cell holds a score from 1 to 5. *)
Definition in_range (scores : list (option Z)) : Prop :=
  Forall (fun cell => exists v, cell = Some v /\ 1 <= v <= 5) scores.

(** No two of the five bins differ in size by more than one. *)
Definition balanced (scores : list (option Z)) : Prop :=
  forall a b, 1 <= a <= 5 -> 1 <= b <= 5 ->
              (bucket_size scores a <= bucket_size scores b + 1)%nat.

(** ** The specification's wording, for comparison with the code *)

(** The five order-count buckets the specification names; the code's
    labels are the strings of [segment_label]. *)
Inductive Segment : Type := OneTime | TwoTime | Occasional | Regular | Loyal.

Definition segment_label (s : Segment) : string :=
  match s with
  | OneTime => "One-Time Buyer"
  | TwoTime => "Two-Time Buyer"
  | Occasional => "Occasional Buyer (3-5 orders)"
  | Regular => "Regular Buyer (6-10 orders)"
  | Loyal => "Loyal Customer (10+ orders)"
  end.




(** The specification's scenario for the latest customer: whoever has
    all transactions at the analysis date gets Recency score 5. *)
Definition spec_latest_customer_scores_5 (df : list Transaction) : Prop :=
  forall d i r,
    analysis_date df = Some d ->
    nth_error (customer_orders df) i = Some r ->
    (forall t, In t (transactions_of (Customer_ID r) df) -> InvoiceDate t = d) ->
    exists rs, R_Score_col df = Ok rs /\ nth_error rs i = Some (Some 5).

(** The specification's demand on a population below five: the scoring
    stops with an error, or runs with fewer than five bins, or puts every
    customer in one bin. *)
Definition spec_small_population_handled (df : list Transaction) : Prop :=
  (List.length (customer_orders df) < 5)%nat ->
  (exists e, R_Score_col df = Err e)
  \/ (List.length (bin_edges (rank_first Z.leb (Recency_Days df)) 5) < 6)%nat
  \/ (exists rs s, R_Score_col df = Ok rs /\ Forall (eq s) rs).

(** ** A small data set for the examples *)

Definition day (n : Z) : Z := n * ns_per_day.

(** Five customers; customers 2, 4 and 5 each bought once, on the last day
    of the data, customer 3 twice at one instant under two invoices. *)
Definition sample : list Transaction :=
  [ mkTransaction 1 "489434" (day 1) 10;
    mkTransaction 1 "489434" (day 1) (5 # 2);
    mkTransaction 1 "490001" (day 9) 4;
    mkTransaction 2 "490002" (day 10) 7;
    mkTransaction 3 "490003" (day 3) 1;
    mkTransaction 3 "490004" (day 3) 2;
    mkTransaction 4 "490005" (day 10) 3;
    mkTransaction 5 "490006" (day 10) 8 ].

(** A cleaned table whose rows were all filtered away: the full header of
    the parquet file and no row. *)
Definition empty_input : DataFrame :=
  {| columns := ["Invoice"; "StockCode"; "Description"; "Quantity";
                 "InvoiceDate"; "Price"; "Customer ID"; "Country";
                 "TotalAmount"; "Year"; "Month"; "YearMonth"; "Date"];
     rows := [] |}.

(** The first two customers of the sample. *)
Definition two_customers : list Transaction := firstn 4 sample.

(* ===================================================================== *)
(** * Part I, continued: the rest of the pipeline                        *)
(* ===================================================================== *)

(** ** Step 9: the two halves of the customer table (lines 283-284) *)

(** [customer_orders[customer_orders['CustomerType'] == label]]: the rows
    whose cell of the CustomerType column is the label. *)
Definition of_type (label : string) (co : list CustomerRow) : list CustomerRow :=
  filter (fun r => (customer_type (OrderCount r) =? label)%string) co.

Definition one_time (co : list CustomerRow) : list CustomerRow :=
  of_type "One-Time Buyer" co.

Definition repeat (co : list CustomerRow) : list CustomerRow :=
  of_type "Repeat Buyer" co.

(** ** The shape of the frame *)

Definition column_length (c : Column) : nat :=
  match c with
  | IntCol cells => List.length cells
  | FloatCol cells => List.length cells
  | StrCol cells => List.length cells
  | CatCol cells => List.length cells
  end.

(** The labels the script assigns, in the order of [assignments]. *)
Definition assigned_labels : list string :=
  ["CustomerSegment"; "CustomerType"; "CustomerLifetime_Days"; "Recency_Days";
   "R_Score"; "F_Score"; "M_Score"; "RFM_Score"; "RFM_Segment"].

(** ** 01_data_cleaning.py *)

Module Cleaning.

(** One row of the raw file as [read_csv] gives it.  A missing cell is
    [None]; the raw table has them in the description and the customer
    identifier, which is then a float.  The timestamp stands for the text
    that [to_datetime] converts at step 3.5. *)
Record RawRow : Type := mkRawRow {
  raw_Invoice : string;
  raw_StockCode : string;
  raw_Description : option string;
  raw_Quantity : Z;
  raw_InvoiceDate : Z;
  raw_Price : Q;
  raw_CustomerID : option Z;
  raw_Country : string
}.

(** One row of the cleaned frame.  Its four calendar columns (Year, Month,
    YearMonth, Date) are functions of InvoiceDate and are left out: no
    step below reads them, and two rows that agree on InvoiceDate agree on
    them. *)
Record CleanRow : Type := mkCleanRow {
  Invoice : string;
  StockCode : string;
  Description : string;
  Quantity : Z;
  InvoiceDate : Z;
  Price : Q;
  CustomerID : Z;
  Country : string;
  TotalAmount : Q
}.

Definition notna {A : Type} (cell : option A) : bool :=
  match cell with
  | Some _ => true
  | None => false
  end.

(** Step 3.1 (line 53): rows with a customer identifier. *)
Definition with_customer (df : list RawRow) : list RawRow :=
  filter (fun r => notna (raw_CustomerID r)) df.

(** Step 3.3 (line 67): rows whose invoice does not start with 'C'. *)
Definition not_cancelled (df : list RawRow) : list RawRow :=
  filter (fun r => negb (String.prefix "C" (raw_Invoice r))) df.

Definition positive (q : Q) : bool := negb (Qle_bool q 0).

(** Step 3.4 (line 74): rows with a positive quantity and a positive
    price. *)
Definition with_positive (df : list RawRow) : list RawRow :=
  filter (fun r => (0 <? raw_Quantity r) && positive (raw_Price r)) df.

(** [astype(int)] of the identifier; the rows without one are gone since
    step 3.1, the default is not reached. *)
Definition int_of (cell : option Z) : Z :=
  match cell with
  | Some c => c
  | None => 0
  end.

Definition fillna (value : string) (cell : option string) : string :=
  match cell with
  | Some s => s
  | None => value
  end.

(** The column-wise steps on one row: the description filled (3.2, line
    62), the types converted (3.5, lines 80-82) and the line total added
    (3.6, line 87). *)
Definition convert (r : RawRow) : CleanRow :=
  {| Invoice := raw_Invoice r;
     StockCode := raw_StockCode r;
     Description := fillna "NO DESCRIPTION" (raw_Description r);
     Quantity := raw_Quantity r;
     InvoiceDate := raw_InvoiceDate r;
     Price := raw_Price r;
     CustomerID := int_of (raw_CustomerID r);
     Country := raw_Country r;
     TotalAmount := (inject_Z (raw_Quantity r) * raw_Price r)%Q |}.

(** Two rows that [drop_duplicates] takes for one: equal in every column.
    The line total is the product of two of them. *)
Definition same_row (a b : CleanRow) : bool :=
  (Invoice a =? Invoice b)%string && (StockCode a =? StockCode b)%string
  && (Description a =? Description b)%string && (Quantity a =? Quantity b)
  && (InvoiceDate a =? InvoiceDate b) && Qeq_bool (Price a) (Price b)
  && (CustomerID a =? CustomerID b) && (Country a =? Country b)%string.

(** Step 3.7 (line 97): of rows taken for one the first stays. *)
Fixpoint drop_duplicates (df : list CleanRow) : list CleanRow :=
  match df with
  | [] => []
  | r :: df' => r :: filter (fun r' => negb (same_row r r')) (drop_duplicates df')
  end.

(** The order of [sort_values(['Customer ID', 'InvoiceDate'])]. *)
Definition key_le (a b : CleanRow) : bool :=
  (CustomerID a <? CustomerID b)
  || ((CustomerID a =? CustomerID b) && (InvoiceDate a <=? InvoiceDate b)).

Fixpoint insert_row (r : CleanRow) (df : list CleanRow) : list CleanRow :=
  match df with
  | [] => [r]
  | r' :: df' => if key_le r r' then r :: df else r' :: insert_row r df'
  end.

(** Step 3.8 (line 102): a sort on two columns is pandas' lexicographic
    sort, which keeps rows of one key in their order. *)
Definition sort_values (df : list CleanRow) : list CleanRow :=
  fold_right insert_row [] df.

(** The cleaned frame (lines 48-103). *)
Definition df_clean (df : list RawRow) : list CleanRow :=
  sort_values
    (drop_duplicates (map convert (with_positive (not_cancelled (with_customer df))))).

(** How the script ends (lines 110-132): the summary divides by the number
    of raw rows before the cleaned frame is saved. *)
Inductive outcome : Type :=
| Saved (cleaned : list CleanRow)
| ZeroDivisionError.

Definition cleaning_script (df : list RawRow) : outcome :=
  match df with
  | [] => ZeroDivisionError
  | _ => Saved (df_clean df)
  end.

(** The four columns the analysis reads back from the saved frame. *)
Definition to_transaction (r : CleanRow) : Transaction :=
  mkTransaction (CustomerID r) (Invoice r) (InvoiceDate r) (TotalAmount r).

(** A raw row that passes the three filters. *)
Definition valid (r : RawRow) : Prop :=
  raw_CustomerID r <> None
  /\ String.prefix "C" (raw_Invoice r) = false
  /\ 0 < raw_Quantity r /\ (0 < raw_Price r)%Q.

(** The rows of one customer at one timestamp. *)
Definition at_key (c d : Z) (r : CleanRow) : bool :=
  (CustomerID r =? c) && (InvoiceDate r =? d).

End Cleaning.

Definition row_eq (a b : Cleaning.CleanRow) : Prop := Cleaning.same_row a b = true.

(** A small raw table: a line recorded twice, a cancelled invoice, a line
    without customer, a return, and two customers out of order. *)
Definition raw_sample : list Cleaning.RawRow :=
  [ Cleaning.mkRawRow "489435" "22350" (Some "CAT BOWL") 12 (day 2) (5 # 2) (Some 13085) "UK";
    Cleaning.mkRawRow "489434" "85048" None 2 (day 1) (7 # 1) (Some 13085) "UK";
    Cleaning.mkRawRow "489435" "22350" (Some "CAT BOWL") 12 (day 2) (5 # 2) (Some 13085) "UK";
    Cleaning.mkRawRow "C489449" "22087" (Some "PAPER BUNTING") 1 (day 3) (3 # 1) (Some 16321) "Australia";
    Cleaning.mkRawRow "489450" "21232" (Some "CERAMIC JAR") 4 (day 3) (1 # 1) None "UK";
    Cleaning.mkRawRow "489451" "21523" (Some "DOORMAT") (-2) (day 4) (6 # 1) (Some 12346) "UK";
    Cleaning.mkRawRow "489452" "21523" (Some "DOORMAT") 1 (day 4) (6 # 1) (Some 12346) "UK" ].

(** ** Steps 2 and 7: the segments counted and summed (lines 75, 206-220) *)

Section GroupByLabel.
Context {A : Type}.
Variable key : A -> string.

(** [groupby] on a column of strings: the groups are kept in the order of
    their labels, which Python compares character by character; inside a
    group the rows keep the order of the frame. *)
Fixpoint label_insert (x : A) (gs : list (string * list A)) : list (string * list A) :=
  match gs with
  | [] => [(key x, [x])]
  | (k, xs) :: gs' =>
      if (key x <? k)%string then (key x, [x]) :: gs
      else if (key x =? k)%string then (k, xs ++ [x]) :: gs'
      else (k, xs) :: label_insert x gs'
  end.

Definition groupby_label (l : list A) : list (string * list A) :=
  fold_left (fun gs x => label_insert x gs) l [].

(** The rows of the group of label [k]; none when the label has no group. *)
Fixpoint group_of_label (k : string) (gs : list (string * list A)) : list A :=
  match gs with
  | [] => []
  | (k', xs) :: gs' => if (k =? k')%string then xs else group_of_label k gs'
  end.
End GroupByLabel.

Definition label_lt (a b : string) : Prop := (a <? b)%string = true.

(** A float column times 100. *)
Definition times100 (v : float_value) : float_value := fmul v (Finite 100).

(** Series [/] on two float columns; a sum of floats that is zero is the
    positive zero. *)
Definition truediv_float (a b : Q) : float_value := fdiv (Finite a) (Finite b).

(** The segment of a customer: the cell of the column 'CustomerSegment'. *)
Definition segment_of (r : CustomerRow) : string := classify_customer (OrderCount r).

Module Summary.

(** [value_counts().sort_index()]: the values that occur, in their order,
    each with the number of its cells. *)
Definition value_counts_sorted (col : list string) : list (string * Z) :=
  map (fun g => (fst g, count (snd g))) (groupby_label (fun s => s) col).

(** Line 75. *)
Definition segment_counts (co : list CustomerRow) : list (string * Z) :=
  value_counts_sorted (CustomerSegment co).

(** [customer_orders.groupby('CustomerSegment')['TotalRevenue'].sum()]
    (line 213). *)
Definition segment_revenue (co : list CustomerRow) : list (string * Q) :=
  map (fun g => (fst g, sum (map TotalRevenue (snd g))))
      (groupby_label (fun r => classify_customer (OrderCount r)) co).

(** One row of [segment_summary]; the two columns named with a percent sign
    are spelled out. *)
Record SegmentRow : Type := mkSegmentRow {
  Segment : string;
  CustomerCount : Z;
  Customer_pct : float_value;
  TotalRevenue : Q;
  Revenue_pct : float_value
}.

(** Lines 206-218: the counts with their shares, merged on the segment with
    the revenues (an inner join), then the revenue shares. *)
Definition segment_summary (co : list CustomerRow) : list SegmentRow :=
  let counts := segment_counts co in
  let total := fold_right Z.add 0 (map snd counts) in
  let left :=
    map (fun c => (fst c, snd c, round2 (times100 (truediv (snd c) total)))) counts in
  let merged :=
    flat_map (fun l => map (fun r => (l, snd r))
                           (filter (fun r => (fst r =? fst (fst l))%string)
                                   (segment_revenue co)))
             left in
  let revenue := sum (map snd merged) in
  map (fun m =>
         {| Segment := fst (fst (fst m));
            CustomerCount := snd (fst (fst m));
            Customer_pct := snd (fst m);
            TotalRevenue := snd m;
            Revenue_pct := round2 (times100 (truediv_float (snd m) revenue)) |})
      merged.

(** Line 235 of the dashboard, on the summary it reads back: the first
    cell of the selection.  [.values[0]] raises [IndexError] when no row
    is selected; [None] stands for that. *)
Definition one_time_pct (summary : list SegmentRow) : option float_value :=
  hd_error
    (map Customer_pct
         (filter (fun row => (Segment row =? "One-Time Buyer")%string) summary)).

End Summary.

(** ** run_all_analysis.py *)

Module Runner.

(** The scripts of [main] (lines 58-62), each with its description. *)
Definition scripts : list (string * string) :=
  [("01_data_cleaning.py", "Data Cleaning & Preparation");
   ("02_cohort_analysis.py", "Customer Acquisition Cohort Analysis");
   ("03_repeat_vs_onetime_buyers.py", "Repeat vs One-Time Buyers Analysis")].

(** [str.lower] on the letters A to Z; the other characters are left as they
    are (none of them is lowered to a 'y'). *)
Definition lower_char (c : Ascii.ascii) : Ascii.ascii :=
  let n := Ascii.nat_of_ascii c in
  if ((65 <=? n) && (n <=? 90))%nat then Ascii.ascii_of_nat (n + 32) else c.

Fixpoint lower (s : string) : string :=
  match s with
  | EmptyString => EmptyString
  | String c s' => String (lower_char c) (lower s')
  end.

(** How the loop ends: after the last script, at the [break], or in
    [input] when there is no line left to read. *)
Inductive ending : Type :=
| Finished
| Stopped
| EOFError.

(** The loop of [main] (lines 67-77).  [run script] is what [run_script]
    returns: whether the subprocess ended with status 0.  [answers] are the
    lines that [input] will read. *)
Fixpoint loop (run : string -> bool) (todo : list (string * string))
         (answers : list string) (results : list (string * bool))
  : list (string * bool) * ending :=
  match todo with
  | [] => (results, Finished)
  | (script, _) :: todo' =>
      let success := run script in
      let results := results ++ [(script, success)] in
      if success then loop run todo' answers results
      else
        match answers with
        | [] => (results, EOFError)
        | user_input :: answers' =>
            if negb (lower user_input =? "y")%string then (results, Stopped)
            else loop run todo' answers' results
        end
  end.

Definition successful (results : list (string * bool)) : nat :=
  List.length (filter snd results).

(** What [main] reports at its end (lines 89-101), or the exit of line 114
    when [input] raised. *)
Inductive report : Type :=
| AllCompleted
| SomeFailed
| UnexpectedError.

Definition main (run : string -> bool) (answers : list string)
  : list (string * bool) * report :=
  match loop run scripts answers [] with
  | (results, EOFError) => (results, UnexpectedError)
  | (results, _) =>
      (results,
       if (successful results =? List.length scripts)%nat then AllCompleted
       else SomeFailed)
  end.

End Runner.

(** ** 04_streamlit_dashboard.py: the header of the monthly trend *)

Module Dashboard.

Fixpoint mem (a : Ascii.ascii) (chars : string) : bool :=
  match chars with
  | EmptyString => false
  | String c chars' => Ascii.eqb a c || mem a chars'
  end.

(** [str.strip(chars)]: the characters of [chars] are removed at both
    ends. *)
Fixpoint lstrip (chars s : string) : string :=
  match s with
  | EmptyString => EmptyString
  | String a s' => if mem a chars then lstrip chars s' else s
  end.

Fixpoint rstrip (chars s : string) : string :=
  match s with
  | EmptyString => EmptyString
  | String a s' =>
      match rstrip chars s' with
      | EmptyString => if mem a chars then EmptyString else String a EmptyString
      | t => String a t
      end
  end.

Definition strip (chars s : string) : string := rstrip chars (lstrip chars s).

(** Line 90: the two levels of a header joined, the underscores at the ends
    removed. *)
Definition flatten (columns : list (list string)) : list string :=
  map (fun col => strip "_" (String.concat "_" col)) columns.

(** [rename(columns=mapping)]: a label that is a key of the mapping is
    replaced, the others stay. *)
Definition rename (mapping : list (string * string)) (columns : list string)
  : list string :=
  map (fun c =>
         match find (fun m => (fst m =? c)%string) mapping with
         | Some m => snd m
         | None => c
         end)
      columns.

(** Lines 90-91. *)
Definition monthly_trend_columns (header : list (list string)) : list string :=
  rename [("YearMonth_", "YearMonth")] (flatten header).

(** The text begins, or ends, with one of the characters. *)
Definition begins_with (chars s : string) : bool :=
  match s with
  | EmptyString => false
  | String a _ => mem a chars
  end.

Fixpoint ends_with (chars s : string) : bool :=
  match s with
  | EmptyString => false
  | String a EmptyString => mem a chars
  | String _ s' => ends_with chars s'
  end.

End Dashboard.

(* ===================================================================== *)
(** * Part II: the properties                                            *)
(* ===================================================================== *)

(** ** RFM segment rules *)


(** The rules one by one: which rows carry which label. *)
Lemma categorize_rfm_cases (row : Row) :
  let f k := ge (F_Score row) k in
  let m k := ge (M_Score row) k in
  let r k := ge (R_Score row) k in
  (categorize_rfm row = "Champions" <-> f 4 && m 4 = true)
  /\ (categorize_rfm row = "Loyal Customers"
      <-> f 4 && m 4 = false /\ f 3 && m 3 = true)
  /\ (categorize_rfm row = "Potential Loyalists"
      <-> f 4 && m 4 = false /\ f 3 && m 3 = false /\ r 4 = true)
  /\ (categorize_rfm row = "At Risk"
      <-> f 4 && m 4 = false /\ f 3 && m 3 = false /\ r 4 = false /\ r 3 = true)
  /\ (categorize_rfm row = "Lost"
      <-> f 4 && m 4 = false /\ f 3 && m 3 = false /\ r 4 = false /\ r 3 = false).
Proof.
  cbv zeta. unfold categorize_rfm.
  destruct (ge (F_Score row) 4 && ge (M_Score row) 4);
    destruct (ge (F_Score row) 3 && ge (M_Score row) 3);
    destruct (ge (R_Score row) 4);
    destruct (ge (R_Score row) 3);
    repeat split; intros; try discriminate; try reflexivity;
    repeat match goal with H : _ /\ _ |- _ => destruct H end; discriminate.
Qed.

(** ** Order-count segments *)

Lemma segment_label_inj (s s' : Segment) :
  segment_label s = segment_label s' -> s = s'.
Proof. destruct s, s'; cbn; intros H; try reflexivity; discriminate H. Qed.

Lemma classify_customer_cases (n : Z) :
  classify_customer n =
    segment_label
      (if n =? 1 then OneTime
       else if n =? 2 then TwoTime
       else if n <=? 5 then Occasional
       else if n <=? 10 then Regular
       else Loyal).
Proof.
  unfold classify_customer.
  destruct (n =? 1); [reflexivity|].
  destruct (n =? 2); [reflexivity|].
  destruct (n <=? 5); [reflexivity|].
  destruct (n <=? 10); reflexivity.
Qed.

(** C2. [classify_customer] sends every non-negative order count to exactly
    one of the five buckets: 1 to One-Time, 2 to Two-Time, 3..5 to
    Occasional, 6..10 to Regular, more than 10 to Loyal; the binary type is
    'One-Time Buyer' exactly for order count 1 and 'Repeat Buyer' otherwise,
    so the order counts 1,1,2,3,4,6,7,11,12,15 give 2 one-time and 8 repeat
    customers. *)
Theorem classify_customer_buckets :
  (forall n, 0 <= n -> exists! s, classify_customer n = segment_label s)
  /\ classify_customer 1 = segment_label OneTime
  /\ classify_customer 2 = segment_label TwoTime
  /\ (forall n, 3 <= n <= 5 -> classify_customer n = segment_label Occasional)
  /\ (forall n, 6 <= n <= 10 -> classify_customer n = segment_label Regular)
  /\ (forall n, 10 < n -> classify_customer n = segment_label Loyal)
  /\ (forall n, customer_type n = "One-Time Buyer" <-> n = 1)
  /\ (forall n, n <> 1 -> customer_type n = "Repeat Buyer")
  /\ (let population := map customer_type [1; 1; 2; 3; 4; 6; 7; 11; 12; 15] in
      count_occ string_dec population "One-Time Buyer" = 2%nat
      /\ count_occ string_dec population "Repeat Buyer" = 8%nat).
Proof.
  repeat apply conj.
  - intros n _. rewrite classify_customer_cases.
    eexists. split; [reflexivity|]. intros s' H. exact (segment_label_inj _ _ H).
  - reflexivity.
  - reflexivity.
  - intros n Hn. rewrite classify_customer_cases.
    destruct (Z.eqb_spec n 1); [lia|]. destruct (Z.eqb_spec n 2); [lia|].
    destruct (Z.leb_spec n 5); [reflexivity | lia].
  - intros n Hn. rewrite classify_customer_cases.
    destruct (Z.eqb_spec n 1); [lia|]. destruct (Z.eqb_spec n 2); [lia|].
    destruct (Z.leb_spec n 5); [lia|].
    destruct (Z.leb_spec n 10); [reflexivity | lia].
  - intros n Hn. rewrite classify_customer_cases.
    destruct (Z.eqb_spec n 1); [lia|]. destruct (Z.eqb_spec n 2); [lia|].
    destruct (Z.leb_spec n 5); [lia|].
    destruct (Z.leb_spec n 10); [lia | reflexivity].
  - intros n. unfold customer_type. destruct (Z.eqb_spec n 1); split; intros H;
      try reflexivity; try assumption; try discriminate H. contradiction.
  - intros n Hn. unfold customer_type. destruct (Z.eqb_spec n 1); [contradiction | reflexivity].
  - reflexivity.
  - reflexivity.
Qed.

(** What the code does below the buckets' range: an order count of 0 (no
    aggregate row has one) lands in the 3-5 bucket. *)
Example classify_customer_zero :
  classify_customer 0 = segment_label Occasional.
Proof. reflexivity. Qed.

(** ** groupby *)

Section GroupByFacts.
Context {A : Type}.
Variable key : A -> Z.

Lemma keys_group_insert (P : Z -> Prop) x gs :
  P (key x) -> Forall P (keys gs) -> Forall P (keys (group_insert key x gs)).
Proof.
  intros Hx. induction gs as [|[k xs] gs IH]; cbn; intros Hgs.
  - constructor; [assumption | constructor].
  - destruct (key x <? k).
    + cbn. constructor; assumption.
    + inversion Hgs; subst. destruct (key x =? k); cbn; constructor; auto.
Qed.

Lemma group_insert_sorted x gs :
  StronglySorted Z.lt (keys gs) ->
  StronglySorted Z.lt (keys (group_insert key x gs)).
Proof.
  induction gs as [|[k xs] gs IH]; cbn; intros Hs.
  - constructor; constructor.
  - inversion Hs as [|? ? Hs' Hk]; subst.
    destruct (Z.ltb_spec (key x) k) as [Hlt|Hge].
    + cbn. constructor; [exact Hs|].
      constructor; [exact Hlt|].
      eapply Forall_impl; [|exact Hk]. cbn. intros; lia.
    + destruct (Z.eqb_spec (key x) k) as [Heq|Hne]; cbn.
      * constructor; assumption.
      * constructor; [apply IH; assumption|].
        apply keys_group_insert; [lia | assumption].
Qed.

Lemma group_insert_nonempty x gs :
  Forall (fun g => snd g <> []) gs ->
  Forall (fun g => snd g <> []) (group_insert key x gs).
Proof.
  induction gs as [|[k xs] gs IH]; cbn; intros Hn.
  - constructor; [discriminate | constructor].
  - inversion Hn; subst.
    destruct (key x <? k); [constructor; [discriminate | assumption]|].
    destruct (key x =? k); constructor; auto.
    cbn. destruct xs; discriminate.
Qed.

Lemma group_of_above k (gs : list (Z * list A)) :
  Forall (Z.lt k) (keys gs) -> group_of k gs = [].
Proof.
  induction gs as [|[k' xs] gs IH]; cbn; intros H; [reflexivity|].
  inversion H; subst. destruct (Z.eqb_spec k k'); [lia | auto].
Qed.

Lemma group_of_insert k x gs :
  StronglySorted Z.lt (keys gs) ->
  group_of k (group_insert key x gs) =
    if key x =? k then group_of k gs ++ [x] else group_of k gs.
Proof.
  induction gs as [|[k' xs] gs IH]; cbn; intros Hs.
  - rewrite (Z.eqb_sym k). destruct (key x =? k); reflexivity.
  - inversion Hs as [|? ? Hs' Hk]; subst.
    destruct (Z.ltb_spec (key x) k') as [Hlt|Hge].
    + cbn. rewrite (Z.eqb_sym k (key x)).
      destruct (Z.eqb_spec (key x) k) as [<-|Hne]; [|reflexivity].
      destruct (Z.eqb_spec (key x) k'); [lia|].
      rewrite group_of_above; [reflexivity|].
      eapply Forall_impl; [|exact Hk]. cbn; intros; lia.
    + destruct (Z.eqb_spec (key x) k') as [Heq|Hne]; cbn.
      * destruct (Z.eqb_spec k k') as [->|Hkk].
        -- rewrite Heq, Z.eqb_refl. reflexivity.
        -- destruct (Z.eqb_spec (key x) k); [congruence | reflexivity].
      * destruct (Z.eqb_spec k k') as [->|Hkk].
        -- destruct (Z.eqb_spec (key x) k'); [contradiction | reflexivity].
        -- apply IH; assumption.
Qed.

Lemma fold_group_insert l : forall gs,
  well_grouped gs ->
  well_grouped (fold_left (fun gs x => group_insert key x gs) l gs)
  /\ forall k,
      group_of k (fold_left (fun gs x => group_insert key x gs) l gs) =
        group_of k gs ++ filter (fun x => key x =? k) l.
Proof.
  induction l as [|x l IH]; cbn; intros gs Hgs.
  - split; [assumption|]. intros k. now rewrite app_nil_r.
  - destruct Hgs as [Hs Hn].
    destruct (IH (group_insert key x gs)) as [Hw Hg].
    { split; [apply group_insert_sorted | apply group_insert_nonempty]; assumption. }
    split; [assumption|]. intros k. rewrite Hg, group_of_insert by assumption.
    destruct (key x =? k); [now rewrite <- app_assoc | reflexivity].
Qed.

Lemma groupby_well_grouped l : well_grouped (groupby key l).
Proof.
  apply fold_group_insert. split; constructor.
Qed.

Lemma group_of_groupby k l :
  group_of k (groupby key l) = filter (fun x => key x =? k) l.
Proof.
  unfold groupby.
  destruct (fold_group_insert l []) as [_ H]; [split; constructor|].
  now rewrite H.
Qed.

Lemma group_of_In k xs (gs : list (Z * list A)) :
  StronglySorted Z.lt (keys gs) -> In (k, xs) gs -> group_of k gs = xs.
Proof.
  induction gs as [|[k' xs'] gs IH]; cbn; intros Hs Hin; [contradiction|].
  inversion Hs as [|? ? Hs' Hk]; subst.
  destruct Hin as [Heq|Hin].
  - inversion Heq; subst. now rewrite Z.eqb_refl.
  - destruct (Z.eqb_spec k k') as [->|Hne]; [|auto].
    rewrite Forall_forall in Hk.
    specialize (Hk k' (in_map fst _ _ Hin)). cbn in Hk. lia.
Qed.

Lemma group_of_nonempty_In k (gs : list (Z * list A)) :
  group_of k gs <> [] -> In (k, group_of k gs) gs.
Proof.
  induction gs as [|[k' xs] gs IH]; cbn; intros H; [contradiction|].
  destruct (Z.eqb_spec k k') as [->|Hne]; [now left | right; auto].
Qed.

(** The groups of [groupby]: one per key that occurs, holding the rows of
    that key in frame order. *)
Lemma In_groupby k xs l :
  In (k, xs) (groupby key l) <->
  xs = filter (fun x => key x =? k) l /\ xs <> [].
Proof.
  destruct (groupby_well_grouped l) as [Hs Hn]. split.
  - intros Hin. split.
    + rewrite <- (group_of_groupby k l). symmetry. now apply group_of_In.
    + rewrite Forall_forall in Hn. exact (Hn _ Hin).
  - intros [-> Hne]. rewrite <- (group_of_groupby k l) in *.
    now apply group_of_nonempty_In.
Qed.

Lemma keys_groupby_sorted l : StronglySorted Z.lt (keys (groupby key l)).
Proof. apply groupby_well_grouped. Qed.

Lemma StronglySorted_lt_NoDup (ks : list Z) :
  StronglySorted Z.lt ks -> NoDup ks.
Proof.
  induction 1 as [|k ks Hs IH Hk]; constructor; [|assumption].
  intros Hin. rewrite Forall_forall in Hk. specialize (Hk _ Hin). lia.
Qed.

Lemma In_keys_groupby k l :
  In k (keys (groupby key l)) <-> In k (map key l).
Proof.
  unfold keys. rewrite !in_map_iff. split.
  - intros [[k' xs] [<- Hin]]. apply In_groupby in Hin as [-> Hne]. cbn.
    destruct (filter (fun x => key x =? k') l) as [|x xs'] eqn:E; [contradiction|].
    assert (Hx : In x (filter (fun x => key x =? k') l)) by (rewrite E; now left).
    apply filter_In in Hx as [Hx Hk]. exists x. split; [lia | assumption].
  - intros [x [<- Hx]].
    exists (key x, filter (fun y => key y =? key x) l). split; [reflexivity|].
    apply In_groupby. split; [reflexivity|].
    intros E. assert (Hin : In x (filter (fun y => key y =? key x) l)).
    { apply filter_In. split; [assumption | apply Z.eqb_refl]. }
    rewrite E in Hin. exact Hin.
Qed.
End GroupByFacts.

(** ** Aggregations *)

Lemma fold_min_spec l : forall x,
  (fold_left Z.min l x <= x /\ forall y, In y l -> fold_left Z.min l x <= y)
  /\ In (fold_left Z.min l x) (x :: l).
Proof.
  induction l as [|a l IH]; cbn; intros x.
  - split; [split; [lia | contradiction] | now left].
  - destruct (IH (Z.min x a)) as [[H1 H2] H3]. split; [split|].
    + lia.
    + intros y [<-|Hy]; [lia | auto].
    + destruct H3 as [H3|H3]; [|now right; right].
      rewrite <- H3. destruct (Z.min_spec x a) as [[_ ->]|[_ ->]]; auto.
  Qed.

Lemma fold_max_spec l : forall x,
  (x <= fold_left Z.max l x /\ forall y, In y l -> y <= fold_left Z.max l x)
  /\ In (fold_left Z.max l x) (x :: l).
Proof.
  induction l as [|a l IH]; cbn; intros x.
  - split; [split; [lia | contradiction] | now left].
  - destruct (IH (Z.max x a)) as [[H1 H2] H3]. split; [split|].
    + lia.
    + intros y [<-|Hy]; [lia | auto].
    + destruct H3 as [H3|H3]; [|now right; right].
      rewrite <- H3. destruct (Z.max_spec x a) as [[_ ->]|[_ ->]]; auto.
Qed.

Lemma min_ts_spec l m :
  min_ts l = Some m <-> In m l /\ forall y, In y l -> m <= y.
Proof.
  destruct l as [|x l]; cbn.
  - split; [discriminate | intros [[] _]].
  - destruct (fold_min_spec l x) as [[H1 H2] H3]. split.
    + intros E. injection E as <-. split; [exact H3|].
      intros y [<-|Hy]; auto.
    + intros [Hin Hle]. f_equal.
      assert (m <= fold_left Z.min l x) by (apply Hle; exact H3).
      assert (fold_left Z.min l x <= m) by (destruct Hin as [<-|Hin]; auto).
      lia.
Qed.

Lemma max_ts_spec l m :
  max_ts l = Some m <-> In m l /\ forall y, In y l -> y <= m.
Proof.
  destruct l as [|x l]; cbn.
  - split; [discriminate | intros [[] _]].
  - destruct (fold_max_spec l x) as [[H1 H2] H3]. split.
    + intros E. injection E as <-. split; [exact H3|].
      intros y [<-|Hy]; auto.
    + intros [Hin Hle]. f_equal.
      assert (fold_left Z.max l x <= m) by (apply Hle; exact H3).
      assert (m <= fold_left Z.max l x) by (destruct Hin as [<-|Hin]; auto).
      lia.
Qed.

Lemma min_ts_nonempty l : l <> [] -> exists m, min_ts l = Some m.
Proof. destruct l; [contradiction | intros _; eexists; reflexivity]. Qed.

Lemma max_ts_nonempty l : l <> [] -> exists m, max_ts l = Some m.
Proof. destruct l; [contradiction | intros _; eexists; reflexivity]. Qed.

Lemma fold_left_Qplus l : forall a,
  (fold_left Qplus l a == a + fold_right Qplus 0 l)%Q.
Proof.
  induction l as [|x l IH]; cbn; intros a.
  - ring.
  - rewrite IH. ring.
Qed.

Lemma sum_fold_right l : (sum l == fold_right Qplus 0 l)%Q.
Proof. unfold sum. rewrite fold_left_Qplus. ring. Qed.

Lemma nunique_spec l :
  exists values,
    NoDup values /\ (forall v, In v values <-> In v l)
    /\ nunique l = Z.of_nat (List.length values).
Proof.
  exists (nodup string_dec l). split; [apply NoDup_nodup|].
  split; [intros v; apply nodup_In | reflexivity].
Qed.

Lemma nunique_pos l : l <> [] -> 1 <= nunique l.
Proof.
  destruct l as [|x l]; [contradiction|]. intros _. unfold nunique.
  assert (H : In x (nodup string_dec (x :: l))) by (apply nodup_In; now left).
  destruct (nodup string_dec (x :: l)); [destruct H | cbn; lia].
Qed.

(** ** The customer aggregator *)

Lemma In_customer_orders r df :
  In r (customer_orders df) <->
  r = aggregate (Customer_ID r, transactions_of (Customer_ID r) df)
  /\ transactions_of (Customer_ID r) df <> [].
Proof.
  unfold customer_orders. rewrite in_map_iff. split.
  - intros [[k xs] [<- Hin]]. apply In_groupby in Hin as [-> Hne]. cbn.
    split; [reflexivity | exact Hne].
  - intros [Hr Hne]. eexists. split; [symmetry; exact Hr|].
    apply In_groupby. split; [reflexivity | exact Hne].
Qed.

Lemma Customer_ID_column df :
  map Customer_ID (customer_orders df) = keys (groupby CustomerID df).
Proof.
  unfold customer_orders, keys. rewrite map_map. reflexivity.
Qed.

Lemma Customer_ID_NoDup df : NoDup (map Customer_ID (customer_orders df)).
Proof.
  rewrite Customer_ID_column.
  apply StronglySorted_lt_NoDup, keys_groupby_sorted.
Qed.

Lemma transactions_of_nonempty c df :
  In c (map CustomerID df) <-> transactions_of c df <> [].
Proof.
  unfold transactions_of. rewrite in_map_iff. split.
  - intros [t [<- Ht]] E.
    assert (H : In t (filter (fun t' => CustomerID t' =? CustomerID t) df)).
    { apply filter_In. split; [assumption | apply Z.eqb_refl]. }
    rewrite E in H. exact H.
  - intros Hne. destruct (filter (fun t => CustomerID t =? c) df) as [|t l] eqn:E;
      [contradiction|].
    assert (H : In t (filter (fun t => CustomerID t =? c) df)) by (rewrite E; now left).
    apply filter_In in H as [Ht Hc]. exists t. split; [lia | assumption].
Qed.

(** C5. For every customer present in the transaction table the aggregate
    has exactly one row; its order count is the number of distinct invoices
    of the customer's transactions T, its total revenue the sum of their
    line totals, its mean transaction value the total revenue divided by
    the number of line items |T|, its transaction count |T|, and its first
    and last purchase the least and greatest timestamp of T. *)
Theorem customer_orders_contract (df : list Transaction) (c : Z) :
  In c (map CustomerID df) ->
  let T := transactions_of c df in
  exists r,
    (In r (customer_orders df) /\ Customer_ID r = c)
    /\ count_occ Z.eq_dec (map Customer_ID (customer_orders df)) c = 1%nat
    /\ (exists invoices,
          NoDup invoices
          /\ (forall i, In i invoices <-> exists t, In t T /\ Invoice t = i)
          /\ OrderCount r = Z.of_nat (List.length invoices))
    /\ (TotalRevenue r == fold_right Qplus 0 (map TotalAmount T))%Q
    /\ AvgTransactionValue r
       = (TotalRevenue r / inject_Z (Z.of_nat (List.length T)))%Q
    /\ TotalTransactions r = Z.of_nat (List.length T)
    /\ (In (FirstPurchase r) (map InvoiceDate T)
        /\ forall t, In t T -> FirstPurchase r <= InvoiceDate t)
    /\ (In (LastPurchase r) (map InvoiceDate T)
        /\ forall t, In t T -> InvoiceDate t <= LastPurchase r).
Proof.
  intros Hc T. assert (HT : T <> []) by (apply transactions_of_nonempty; exact Hc).
  exists (aggregate (c, T)). cbn [aggregate fst snd Customer_ID OrderCount
    FirstPurchase LastPurchase TotalRevenue AvgTransactionValue TotalTransactions].
  assert (Hin : In (aggregate (c, T)) (customer_orders df)).
  { apply In_customer_orders. cbn. split; [reflexivity | exact HT]. }
  split; [split; [exact Hin | reflexivity]|].
  split.
  { apply NoDup_count_occ'; [apply Customer_ID_NoDup|].
    apply in_map_iff. exists (aggregate (c, T)). split; [reflexivity | exact Hin]. }
  split.
  { destruct (nunique_spec (map Invoice T)) as [vs [Hnd [Hvs Hlen]]].
    exists vs. split; [exact Hnd|]. split; [|exact Hlen].
    intros i. rewrite Hvs, in_map_iff. split; intros [t [H1 H2]]; exists t; tauto. }
  split; [apply sum_fold_right|].
  split.
  { unfold mean, count. rewrite length_map. reflexivity. }
  split; [reflexivity|].
  assert (HD : map InvoiceDate T <> []).
  { intros E. apply HT. destruct T; [reflexivity | discriminate E]. }
  split.
  - destruct (min_ts_nonempty _ HD) as [m Hm]. rewrite Hm. cbn.
    apply min_ts_spec in Hm as [H1 H2]. split; [exact H1|].
    intros t Ht. apply H2, in_map, Ht.
  - destruct (max_ts_nonempty _ HD) as [m Hm]. rewrite Hm. cbn.
    apply max_ts_spec in Hm as [H1 H2]. split; [exact H1|].
    intros t Ht. apply H2, in_map, Ht.
Qed.

Lemma customer_orders_contract_witness :
  In 1 (map CustomerID sample)
  /\ exists r,
      In r (customer_orders sample) /\ Customer_ID r = 1
      /\ TotalTransactions r = 3
      /\ AvgTransactionValue r = (TotalRevenue r / 3)%Q.
Proof.
  split; [cbn; tauto|].
  destruct (customer_orders_contract sample 1)
    as [r [[Hin Hid] [_ [_ [_ [Havg [Hn _]]]]]]]; [cbn; tauto|].
  exists r. repeat split; [exact Hin | exact Hid | exact Hn | exact Havg].
Defined.

(** On the sample, customer 1 has two orders and three line items: the
    mean divides by three. *)
Example customer_orders_sample_row :
  hd_error (customer_orders sample)
  = Some {| Customer_ID := 1; OrderCount := 2;
            FirstPurchase := day 1; LastPurchase := day 9;
            TotalRevenue := 33 # 2; AvgTransactionValue := 33 # 6;
            TotalTransactions := 3 |}.
Proof. reflexivity. Qed.

(** ** The frame after the later assignments *)

Lemma get_set_other label l c fr :
  l <> label -> get_column label (set_column l c fr) = get_column label fr.
Proof.
  intros Hne. induction fr as [|[l' c'] fr IH]; cbn.
  - destruct (String.eqb_spec l label); [contradiction | reflexivity].
  - destruct (String.eqb_spec l' l) as [->|Hl]; cbn.
    + destruct (String.eqb_spec l label); [contradiction | reflexivity].
    + destruct (String.eqb_spec l' label); [reflexivity | exact IH].
Qed.

Lemma run_keeps_column label steps : forall fr,
  ~ In label (map fst steps) ->
  get_column label (fst (run steps fr)) = get_column label fr.
Proof.
  induction steps as [|[l [c|e]] steps IH]; cbn; intros fr Hn.
  - reflexivity.
  - rewrite IH by tauto. apply get_set_other. tauto.
  - reflexivity.
Qed.

(** C6. Every row of the aggregate has an order count of at least 1 and a
    first purchase not after its last purchase; and no later assignment of
    the script writes one of the aggregate's columns: whether the script
    ends or stops at an exception, they are as the aggregator made them. *)
Theorem customer_orders_invariant (df : list Transaction) :
  (forall r, In r (customer_orders df) ->
             1 <= OrderCount r /\ FirstPurchase r <= LastPurchase r)
  /\ (forall label, In label aggregate_labels ->
         get_column label (fst (script df))
         = get_column label (aggregate_columns (customer_orders df))).
Proof.
  split.
  - intros r Hr. apply In_customer_orders in Hr as [-> Hne]. cbn.
    set (T := transactions_of _ df) in *.
    assert (HI : map Invoice T <> []) by (destruct T; [contradiction | discriminate]).
    assert (HD : map InvoiceDate T <> []) by (destruct T; [contradiction | discriminate]).
    split; [apply nunique_pos, HI|].
    destruct (min_ts_nonempty _ HD) as [lo Hlo], (max_ts_nonempty _ HD) as [hi Hhi].
    rewrite Hlo, Hhi. cbn.
    apply min_ts_spec in Hlo as [Hin Hle]. apply max_ts_spec in Hhi as [_ Hge].
    specialize (Hge _ Hin). exact Hge.
  - intros label Hl. unfold script. apply run_keeps_column.
    unfold assignments. cbn [map fst]. cbn in Hl.
    intros H.
    repeat (destruct Hl as [<-|Hl];
            [repeat (destruct H as [H|H]; [discriminate H|]); exact H|]).
    exact Hl.
Qed.

Lemma customer_orders_invariant_witness :
  exists r, In r (customer_orders sample)
            /\ 1 <= OrderCount r /\ FirstPurchase r <= LastPurchase r.
Proof.
  eexists. split; [left; reflexivity|].
  apply (customer_orders_invariant sample). left; reflexivity.
Defined.

(** ** The aggregator on the frame as read *)

Lemma lacks_required_dec df :
  lacks_required df <->
  has_column df group_label = false
  \/ filter (fun c => negb (has_column df c)) agg_labels <> [].
Proof.
  unfold lacks_required, required_labels. split.
  - intros [c [[<-|Hc] Hmiss]]; [now left | right].
    intros E. assert (H : In c (filter (fun c => negb (has_column df c)) agg_labels)).
    { apply filter_In. split; [exact Hc | now rewrite Hmiss]. }
    rewrite E in H. exact H.
  - intros [H|H].
    + exists group_label. split; [now left | exact H].
    + destruct (filter _ agg_labels) as [|c l] eqn:E; [contradiction|].
      assert (Hc : In c (filter (fun c => negb (has_column df c)) agg_labels))
        by (rewrite E; now left).
      apply filter_In in Hc as [Hc Hmiss]. exists c. split; [now right|].
      now destruct (has_column df c).
Qed.

(** C7, as the code has it. The aggregator fails exactly when the frame
    lacks a label it needs; the failure is the [KeyError] of the label
    lookup, naming absent required labels, raised before any row is
    aggregated.  A frame with the labels is aggregated whatever its rows:
    without rows the result is the aggregate with no row, not a failure. *)
Theorem aggregate_frame_fails_iff (df : DataFrame) :
  ((exists e, aggregate_frame df = Err e) <-> lacks_required df)
  /\ (forall e, aggregate_frame df = Err e ->
         exists missing,
           e = KeyError missing /\ missing <> []
           /\ forall c, In c missing ->
                        In c required_labels /\ has_column df c = false)
  /\ (~ lacks_required df -> aggregate_frame df = Ok (customer_orders (rows df)))
  /\ (~ lacks_required df -> rows df = [] -> aggregate_frame df = Ok []).
Proof.
  rewrite lacks_required_dec. unfold aggregate_frame.
  destruct (has_column df group_label) eqn:Hg; cbn [negb].
  - destruct (filter (fun c => negb (has_column df c)) agg_labels) as [|c l] eqn:E.
    + repeat split.
      * intros [e He]; discriminate He.
      * intros [H|H]; [discriminate H | contradiction].
      * intros e He; discriminate He.
      * intros _ ->. reflexivity.
    + repeat split.
      * intros _. right. discriminate.
      * intros _. eexists; reflexivity.
      * intros e He. injection He as <-. exists (c :: l).
        split; [reflexivity|]. split; [discriminate|].
        intros c' Hc'. rewrite <- E in Hc'. apply filter_In in Hc' as [H1 H2].
        split; [now right | now destruct (has_column df c')].
      * intros H. exfalso. apply H. right. discriminate.
      * intros H. exfalso. apply H. right. discriminate.
  - repeat split.
    + intros _. now left.
    + intros _. eexists; reflexivity.
    + intros e He. injection He as <-. exists [group_label].
      split; [reflexivity|]. split; [discriminate|].
      intros c [<-|[]]. split; [now left | exact Hg].
    + intros H. exfalso. apply H. now left.
    + intros H. exfalso. apply H. now left.
Qed.

(** The claim as the specification words it fails on the empty table: it
    has every required label and no row, and the aggregator returns the
    aggregate with no row. *)
Lemma aggregate_frame_empty_input :
  rows empty_input = []
  /\ aggregate_frame empty_input = Ok []
  /\ ~ ((exists e, aggregate_frame empty_input = Err e)
        <-> (rows empty_input = [] \/ lacks_required empty_input)).
Proof.
  split; [reflexivity|]. split; [reflexivity|].
  intros [_ H]. destruct H as [e He]; [now left | discriminate He].
Qed.

(** ** New and repeat buyers by transaction *)

Lemma filter_key_above {A B : Type} (F : Z * list A -> Z * B) k gs :
  (forall g, fst (F g) = fst g) ->
  Forall (Z.lt k) (keys gs) -> filter (fun p => fst p =? k) (map F gs) = [].
Proof.
  intros HF. induction gs as [|g gs IH]; cbn; intros H; [reflexivity|].
  inversion H; subst. rewrite HF.
  destruct (Z.eqb_spec (fst g) k); [lia | auto].
Qed.

Lemma filter_key_sorted {A B : Type} (F : Z * list A -> Z * B) k xs gs :
  (forall g, fst (F g) = fst g) ->
  StronglySorted Z.lt (keys gs) -> In (k, xs) gs ->
  filter (fun p => fst p =? k) (map F gs) = [F (k, xs)].
Proof.
  intros HF. induction gs as [|g gs IH]; cbn; intros Hs Hin; [contradiction|].
  inversion Hs as [|? ? Hs' Hk]; subst. rewrite HF.
  destruct Hin as [->|Hin].
  - cbn. rewrite Z.eqb_refl. f_equal. now apply filter_key_above.
  - destruct (Z.eqb_spec (fst g) k) as [E|_]; [|auto].
    rewrite Forall_forall in Hk. specialize (Hk k (in_map fst _ _ Hin)). lia.
Qed.

Lemma flat_map_singletons {A B : Type} (f : A -> list B) (g : A -> B) l :
  (forall x, In x l -> f x = [g x]) -> flat_map f l = map g l.
Proof.
  induction l as [|x l IH]; cbn; intros H; [reflexivity|].
  rewrite (H x) by now left. cbn. f_equal. apply IH. intros; apply H; now right.
Qed.

(** The merge pairs every transaction, in frame order, with the least
    timestamp of its customer. *)
Lemma df_with_first_rows df :
  df_with_first df
  = map (fun t => (t, ts_or_zero (min_ts (map InvoiceDate
                                            (transactions_of (CustomerID t) df)))))
        df.
Proof.
  unfold df_with_first, merge, first_purchase. apply flat_map_singletons.
  intros t Ht.
  rewrite (filter_key_sorted _ (CustomerID t) (transactions_of (CustomerID t) df)).
  - reflexivity.
  - reflexivity.
  - apply keys_groupby_sorted.
  - apply In_groupby. split; [reflexivity|].
    apply transactions_of_nonempty, in_map, Ht.
Qed.

Lemma BuyerType_rows df :
  BuyerType df
  = map (fun t => buyer_type
                    (InvoiceDate t =? ts_or_zero (min_ts (map InvoiceDate
                                        (transactions_of (CustomerID t) df)))))
        df.
Proof.
  unfold BuyerType, IsFirstPurchase. rewrite df_with_first_rows, !map_map.
  reflexivity.
Qed.

Lemma least_timestamp_min_ts df c :
  In c (map CustomerID df) ->
  least_timestamp df c
    (ts_or_zero (min_ts (map InvoiceDate (transactions_of c df)))).
Proof.
  intros Hc. apply transactions_of_nonempty in Hc.
  assert (HD : map InvoiceDate (transactions_of c df) <> []).
  { intros E. apply Hc. destruct (transactions_of c df); [reflexivity | discriminate E]. }
  destruct (min_ts_nonempty _ HD) as [m Hm]. rewrite Hm. cbn.
  apply min_ts_spec in Hm as [H1 H2]. split; [exact H1|].
  intros t Ht. apply H2, in_map, Ht.
Qed.

(** C9. The buyer-type column has one cell per transaction, in frame
    order; the cell is 'New Customer' exactly when the transaction's
    timestamp equals the least timestamp of its customer, and 'Repeat
    Customer' otherwise.  So two transactions of one customer that carry the
    same, least, timestamp are both 'New Customer'. *)
Theorem BuyerType_new_iff_first (df : list Transaction) :
  List.length (BuyerType df) = List.length df
  /\ (forall i t, nth_error df i = Some t ->
        exists m b,
          least_timestamp df (CustomerID t) m
          /\ nth_error (BuyerType df) i = Some b
          /\ (b = "New Customer" <-> InvoiceDate t = m)
          /\ (b = "Repeat Customer" <-> InvoiceDate t <> m))
  /\ (forall i j t t' m,
        nth_error df i = Some t -> nth_error df j = Some t' ->
        CustomerID t = CustomerID t' ->
        least_timestamp df (CustomerID t) m ->
        InvoiceDate t = m -> InvoiceDate t' = m ->
        nth_error (BuyerType df) i = Some "New Customer"
        /\ nth_error (BuyerType df) j = Some "New Customer").
Proof.
  assert (Hcell : forall i t, nth_error df i = Some t ->
            nth_error (BuyerType df) i
            = Some (buyer_type (InvoiceDate t =? ts_or_zero (min_ts (map InvoiceDate
                                  (transactions_of (CustomerID t) df)))))).
  { intros i t Hi. rewrite BuyerType_rows, nth_error_map, Hi. reflexivity. }
  assert (Huniq : forall c m m', least_timestamp df c m -> least_timestamp df c m' -> m = m').
  { intros c m m' [H1 H2] [H1' H2'].
    apply in_map_iff in H1 as [t [<- Ht]]. apply in_map_iff in H1' as [t' [<- Ht']].
    specialize (H2 _ Ht'). specialize (H2' _ Ht). lia. }
  split; [|split].
  - rewrite BuyerType_rows. apply length_map.
  - intros i t Hi. eexists. eexists.
    split; [apply least_timestamp_min_ts, in_map, (nth_error_In _ _ Hi)|].
    split; [apply Hcell, Hi|]. unfold buyer_type.
    destruct (Z.eqb_spec (InvoiceDate t)
                (ts_or_zero (min_ts (map InvoiceDate (transactions_of (CustomerID t) df)))));
      split; split; intros H; try reflexivity; try assumption;
      try discriminate H; contradiction.
  - intros i j t t' m Hi Hj Hc Hm Ht Ht'.
    assert (E : ts_or_zero (min_ts (map InvoiceDate (transactions_of (CustomerID t) df))) = m).
    { apply (Huniq (CustomerID t)); [|exact Hm].
      apply least_timestamp_min_ts, in_map, (nth_error_In _ _ Hi). }
    rewrite (Hcell _ _ Hi), (Hcell _ _ Hj), <- Hc, E, Ht, Ht', Z.eqb_refl.
    split; reflexivity.
Qed.

(** On the sample, the first two line items of customer 1 share the
    customer's first timestamp and both count as new; so do the two
    simultaneous invoices of customer 3. *)
Example BuyerType_sample :
  BuyerType sample
  = ["New Customer"; "New Customer"; "Repeat Customer"; "New Customer";
     "New Customer"; "New Customer"; "New Customer"; "New Customer"].
Proof. reflexivity. Qed.

(** ** Purchase frequency *)

(** ** Binary64 rounding *)

Lemma pow2_pos e : (0 < pow2 e)%Q.
Proof. apply Qpower_0_lt. reflexivity. Qed.

Lemma pow2_add a b : (pow2 (a + b) == pow2 a * pow2 b)%Q.
Proof. apply Qpower_plus. discriminate. Qed.

Lemma pow2_le a b : a <= b -> (pow2 a <= pow2 b)%Q.
Proof. intros H. apply Qpower_le_compat_l; [exact H | discriminate]. Qed.

Lemma pow2_lt_inv a b : (pow2 a < pow2 b)%Q -> a < b.
Proof. intros H. apply (Qpower_lt_compat_l_inv 2); [exact H | reflexivity]. Qed.

Lemma pow2_Z k : 0 <= k -> (pow2 k == inject_Z (2 ^ k))%Q.
Proof. intros H. symmetry. apply (Zpower_Qpower 2 k H). Qed.

Lemma inject_Z_le a b : a <= b -> (inject_Z a <= inject_Z b)%Q.
Proof. intros H. now rewrite <- Zle_Qle. Qed.

Lemma inject_Z_lt a b : a < b -> (inject_Z a < inject_Z b)%Q.
Proof. intros H. now rewrite <- Zlt_Qlt. Qed.

(** [ilog2 q] is the exponent of the binade of [q]. *)
Lemma ilog2_spec q :
  (0 < q)%Q -> (pow2 (ilog2 q) <= q)%Q /\ (q < pow2 (ilog2 q + 1))%Q.
Proof.
  intros Hq. destruct q as [n d].
  assert (Hn : 0 < n) by (unfold Qlt in Hq; cbn in Hq; lia).
  set (ln := Z.log2 n). set (ld := Z.log2 (Zpos d)).
  destruct (Z.log2_spec n Hn) as [Hn1 Hn2]. fold ln in Hn1, Hn2.
  destruct (Z.log2_spec (Zpos d) eq_refl) as [Hd1 Hd2]. fold ld in Hd1, Hd2.
  assert (Hln : 0 <= ln) by apply Z.log2_nonneg.
  assert (Hld : 0 <= ld) by apply Z.log2_nonneg.
  assert (Hd : (0 < inject_Z (Zpos d))%Q) by reflexivity.
  assert (Elow : (pow2 (ln - ld - 1) <= n # d)%Q).
  { rewrite Qmake_Qdiv. apply Qle_shift_div_l; [exact Hd|].
    apply Qle_trans with (pow2 (ln - ld - 1) * pow2 (ld + 1))%Q.
    - apply Qmult_le_l; [apply pow2_pos|].
      rewrite pow2_Z by lia. apply inject_Z_le.
      replace (ld + 1) with (Z.succ ld) by lia. lia.
    - rewrite <- pow2_add. replace (ln - ld - 1 + (ld + 1)) with ln by lia.
      rewrite pow2_Z by lia. now apply inject_Z_le. }
  assert (Ehigh : (n # d < pow2 (ln - ld + 1))%Q).
  { rewrite Qmake_Qdiv. apply Qlt_shift_div_r; [exact Hd|].
    apply Qlt_le_trans with (pow2 (ln - ld + 1) * pow2 ld)%Q.
    - rewrite <- pow2_add. replace (ln - ld + 1 + ld) with (ln + 1) by lia.
      rewrite pow2_Z by lia. apply inject_Z_lt.
      replace (ln + 1) with (Z.succ ln) by lia. lia.
    - apply Qmult_le_l; [apply pow2_pos|].
      rewrite pow2_Z by lia. now apply inject_Z_le. }
  unfold ilog2. cbn [Qnum Qden]. fold ln ld.
  destruct (Qle_bool (pow2 (ln - ld)) (n # d)) eqn:E.
  - apply Qle_bool_iff in E. split; assumption.
  - split.
    + exact Elow.
    + replace (ln - ld - 1 + 1) with (ln - ld) by lia.
      apply Qnot_le_lt. intros H. apply Qle_bool_iff in H. congruence.
Qed.

Lemma rint_comp x y : (x == y)%Q -> rint x = rint y.
Proof.
  intros E. unfold rint. cbv zeta.
  assert (Hf : Qfloor x = Qfloor y) by (rewrite E; reflexivity).
  assert (Hc : (x - inject_Z (Qfloor x) ?= 1 # 2)%Q
               = (y - inject_Z (Qfloor y) ?= 1 # 2)%Q)
    by (rewrite Hf, E; reflexivity).
  rewrite Hc, Hf. reflexivity.
Qed.

Lemma rint_Z z : rint (inject_Z z) = z.
Proof.
  unfold rint. rewrite Qfloor_Z.
  assert (H : (inject_Z z - inject_Z z ?= 1 # 2)%Q = Lt).
  { apply Qlt_alt. setoid_replace (inject_Z z - inject_Z z)%Q with 0%Q by ring.
    reflexivity. }
  rewrite H. reflexivity.
Qed.

Lemma rint_floor x : Qfloor x <= rint x <= Qfloor x + 1.
Proof.
  unfold rint. cbv zeta.
  destruct (x - inject_Z (Qfloor x) ?= 1 # 2)%Q; try lia.
  destruct (Z.even (Qfloor x)); lia.
Qed.

(** Rounding does not cross an integer. *)
Lemma rint_le_Z x N : (x <= inject_Z N)%Q -> rint x <= N.
Proof.
  intros H. pose proof (rint_floor x) as [_ Hr].
  destruct (Z.eq_dec (Qfloor x) N) as [E|E].
  - assert (Ex : (x == inject_Z N)%Q).
    { apply Qle_antisym; [exact H|]. rewrite <- E. apply Qfloor_le. }
    rewrite (rint_comp _ _ Ex), rint_Z. lia.
  - pose proof (Qfloor_resp_le _ _ H) as Hf. rewrite Qfloor_Z in Hf. lia.
Qed.

Lemma rint_ge_Z x N : (inject_Z N <= x)%Q -> N <= rint x.
Proof.
  intros H. pose proof (rint_floor x) as [Hr _].
  pose proof (Qfloor_resp_le _ _ H) as Hf. rewrite Qfloor_Z in Hf. lia.
Qed.

Lemma pow2_inv e : (/ pow2 e == pow2 (- e))%Q.
Proof. unfold pow2. now rewrite Qpower_opp. Qed.

Lemma pow2_le_inv a b : (pow2 a <= pow2 b)%Q -> a <= b.
Proof. intros H. apply (Qpower_le_compat_l_inv 2); [exact H | reflexivity]. Qed.

Lemma pow2_div a b : (pow2 a / pow2 b == pow2 (a - b))%Q.
Proof.
  unfold Qdiv. rewrite pow2_inv, <- pow2_add. now replace (a + - b) with (a - b) by lia.
Qed.

Lemma binary64_comp x y : (x == y)%Q -> binary64 x = binary64 y.
Proof. intros E. unfold binary64. now rewrite (Qred_complete _ _ E). Qed.

Lemma binary64_zero x : (x == 0)%Q -> binary64 x = Finite 0.
Proof. intros E. rewrite (binary64_comp _ _ E). reflexivity. Qed.

(** The rounding of a positive number: its binade [i], the exponent [e] of
    the unit in the last place, and the rounded value [r]. *)
Lemma binary64_pos x :
  (0 < x)%Q ->
  exists i r,
    ((pow2 i <= x)%Q /\ (x < pow2 (i + 1))%Q)
    /\ (r == inject_Z (rint (x / pow2 (Z.max (i - 52) (-1074))))
            * pow2 (Z.max (i - 52) (-1074)))%Q
    /\ (((r < pow2 1024)%Q /\ binary64 x = Finite r)
        \/ ((pow2 1024 <= r)%Q /\ binary64 x = Inf true)).
Proof.
  intros Hx. unfold binary64. cbv zeta.
  pose proof (Qred_correct x) as Eq. set (q := Qred x) in *.
  assert (Hq : (0 < q)%Q) by (rewrite Eq; exact Hx).
  assert (Hz : Qeq_bool q 0 = false).
  { destruct (Qeq_bool q 0) eqn:E; [|reflexivity].
    apply Qeq_bool_iff in E. rewrite E in Hq. discriminate Hq. }
  rewrite Hz.
  assert (Ea : (Qabs q == x)%Q).
  { rewrite Qabs_pos by now apply Qlt_le_weak. exact Eq. }
  assert (Ha : (0 < Qabs q)%Q) by (rewrite Ea; exact Hx).
  destruct (ilog2_spec _ Ha) as [H1' H2'].
  set (i := ilog2 (Qabs q)) in *.
  assert (H1 : (pow2 i <= x)%Q) by (rewrite <- Ea; exact H1').
  assert (H2 : (x < pow2 (i + 1))%Q) by (rewrite <- Ea; exact H2').
  clear H1' H2'. set (e := Z.max (i - 52) (-1074)).
  set (r := Qred (inject_Z (rint (q / pow2 e)) * pow2 e)).
  assert (Er : (r == inject_Z (rint (x / pow2 e)) * pow2 e)%Q).
  { unfold r. rewrite Qred_correct.
    assert (E : rint (q / pow2 e) = rint (x / pow2 e))
      by (apply rint_comp; rewrite Eq; reflexivity).
    rewrite E. reflexivity. }
  assert (Hr : (0 <= r)%Q).
  { rewrite Er. apply Qmult_le_0_compat; [|apply Qlt_le_weak, pow2_pos].
    change 0%Q with (inject_Z 0). apply inject_Z_le, rint_ge_Z.
    change (inject_Z 0) with 0%Q. apply Qle_shift_div_l; [apply pow2_pos|].
    rewrite Qmult_0_l. now apply Qlt_le_weak. }
  exists i, r. split; [split; assumption|]. split; [exact Er|].
  assert (Hs : Qle_bool 0 q = true) by (apply Qle_bool_iff; now apply Qlt_le_weak).
  rewrite Hs.
  destruct (Qle_bool (pow2 1024) (Qabs r)) eqn:E.
  - right. apply Qle_bool_iff in E. rewrite Qabs_pos in E by exact Hr. auto.
  - left. split; [|reflexivity]. apply Qnot_le_lt. intros H.
    assert (H' : Qle_bool (pow2 1024) (Qabs r) = true).
    { apply Qle_bool_iff. rewrite Qabs_pos by exact Hr. exact H. }
    congruence.
Qed.

(** A positive number not above a power of two rounds to a finite number
    not above that power. *)
Lemma binary64_upper x k :
  (0 < x)%Q -> (x <= pow2 k)%Q -> -1074 <= k <= 1023 ->
  exists r, binary64 x = Finite r /\ (0 <= r)%Q /\ (r <= pow2 k)%Q.
Proof.
  intros Hx Hk Hrange.
  destruct (binary64_pos x Hx) as (i & r & [H1 H2] & Er & Hcase).
  set (e := Z.max (i - 52) (-1074)) in *.
  assert (Hik : i <= k) by (apply pow2_le_inv; eapply Qle_trans; eassumption).
  assert (Hek : 0 <= k - e) by (unfold e; lia).
  assert (Hm : rint (x / pow2 e) <= 2 ^ (k - e)).
  { apply rint_le_Z. rewrite <- pow2_Z by exact Hek. rewrite <- pow2_div.
    unfold Qdiv. apply Qmult_le_compat_r; [exact Hk|].
    apply Qlt_le_weak, Qinv_lt_0_compat, pow2_pos. }
  assert (Hm0 : 0 <= rint (x / pow2 e)).
  { apply rint_ge_Z. change (inject_Z 0) with 0%Q.
    apply Qle_shift_div_l; [apply pow2_pos|]. rewrite Qmult_0_l.
    now apply Qlt_le_weak. }
  assert (Hrk : (r <= pow2 k)%Q).
  { rewrite Er. apply Qle_trans with (inject_Z (2 ^ (k - e)) * pow2 e)%Q.
    - apply Qmult_le_compat_r; [now apply inject_Z_le|].
      apply Qlt_le_weak, pow2_pos.
    - rewrite <- pow2_Z by exact Hek. rewrite <- pow2_add.
      replace (k - e + e) with k by lia. apply Qle_refl. }
  assert (Hr0 : (0 <= r)%Q).
  { rewrite Er. apply Qmult_le_0_compat; [|apply Qlt_le_weak, pow2_pos].
    change 0%Q with (inject_Z 0). now apply inject_Z_le. }
  destruct Hcase as [[_ E]|[Hbig _]].
  - exists r. auto.
  - exfalso. assert (H : (pow2 1024 <= pow2 k)%Q) by (eapply Qle_trans; eassumption).
    apply pow2_le_inv in H. lia.
Qed.

(** A number not below a power of two rounds to a number not below it. *)
Lemma binary64_lower x j r :
  (pow2 j <= x)%Q -> -1074 <= j -> binary64 x = Finite r -> (pow2 j <= r)%Q.
Proof.
  intros Hj Hrange Hb.
  assert (Hx : (0 < x)%Q) by (eapply Qlt_le_trans; [apply (pow2_pos j) | exact Hj]).
  destruct (binary64_pos x Hx) as (i & r' & [H1 H2] & Er & Hcase).
  set (e := Z.max (i - 52) (-1074)) in *.
  assert (Hji : j <= i).
  { assert (H : j < i + 1)
      by (apply pow2_lt_inv; eapply Qle_lt_trans; eassumption). lia. }
  assert (Hei : 0 <= i - e) by (unfold e; lia).
  assert (Hm : 2 ^ (i - e) <= rint (x / pow2 e)).
  { apply rint_ge_Z. rewrite <- pow2_Z by exact Hei. rewrite <- pow2_div.
    unfold Qdiv. apply Qmult_le_compat_r; [exact H1|].
    apply Qlt_le_weak, Qinv_lt_0_compat, pow2_pos. }
  destruct Hcase as [[_ E]|[_ E]]; [|congruence].
  assert (r = r') by congruence. subst r'.
  apply Qle_trans with (pow2 i); [now apply pow2_le|].
  rewrite Er. apply Qle_trans with (inject_Z (2 ^ (i - e)) * pow2 e)%Q.
  - rewrite <- pow2_Z by exact Hei. rewrite <- pow2_add.
    replace (i - e + e) with i by lia. apply Qle_refl.
  - apply Qmult_le_compat_r; [now apply inject_Z_le|].
    apply Qlt_le_weak, pow2_pos.
Qed.

(** The integers below 2^53 are binary64 numbers. *)
Lemma of_int_exact a :
  0 <= a < 2 ^ 53 -> exists r, of_int a = Finite r /\ (r == inject_Z a)%Q.
Proof.
  intros Ha. unfold of_int.
  destruct (Z.eq_dec a 0) as [->|Hne]; [exists 0%Q; split; reflexivity|].
  assert (Hx : (0 < inject_Z a)%Q).
  { change 0%Q with (inject_Z 0). apply inject_Z_lt. lia. }
  destruct (binary64_pos _ Hx) as (i & r & [H1 H2] & Er & Hcase).
  set (e := Z.max (i - 52) (-1074)) in *.
  assert (Hi0 : 0 <= i).
  { assert (H : 0 < i + 1).
    { apply pow2_lt_inv. eapply Qle_lt_trans; [|exact H2].
      change (pow2 0) with (inject_Z 1). apply inject_Z_le. lia. }
    lia. }
  assert (Hi : i <= 52).
  { assert (H : i < 53).
    { apply pow2_lt_inv. eapply Qle_lt_trans; [exact H1|].
      rewrite (pow2_Z 53) by lia. apply inject_Z_lt. lia. }
    lia. }
  assert (He : e = i - 52) by (unfold e; lia).
  assert (Hq : (inject_Z a / pow2 e == inject_Z (a * 2 ^ (- e)))%Q).
  { unfold Qdiv. rewrite pow2_inv, pow2_Z by lia. now rewrite inject_Z_mult. }
  rewrite (rint_comp _ _ Hq), rint_Z in Er.
  assert (Era : (r == inject_Z a)%Q).
  { rewrite Er, inject_Z_mult, <- pow2_Z by lia.
    rewrite <- Qmult_assoc, <- pow2_add.
    replace (- e + e) with 0 by lia. change (pow2 0) with 1%Q. ring. }
  destruct Hcase as [[_ E]|[Hbig _]].
  - exists r. auto.
  - exfalso. rewrite Era in Hbig.
    assert (H : (pow2 1024 < pow2 53)%Q).
    { eapply Qle_lt_trans; [exact Hbig|]. rewrite (pow2_Z 53) by lia.
      apply inject_Z_lt. lia. }
    apply pow2_lt_inv in H. lia.
Qed.

Lemma binary64_nonneg_upper x k :
  (0 <= x)%Q -> (x <= pow2 k)%Q -> -1074 <= k <= 1023 ->
  exists r, binary64 x = Finite r /\ (0 <= r)%Q /\ (r <= pow2 k)%Q.
Proof.
  intros Hx Hk Hrange. destruct (Qeq_dec x 0) as [E|E].
  - exists 0%Q. split; [now apply binary64_zero|]. split; [apply Qle_refl|].
    apply Qlt_le_weak, pow2_pos.
  - apply binary64_upper; try assumption.
    apply Qle_lteq in Hx as [Hx|Hx]; [exact Hx|]. symmetry in Hx. contradiction.
Qed.

(** A count of at least one, as a float: a number of at least one, or past
    the largest float. *)
Lemma of_int_pos b :
  1 <= b -> (exists d, of_int b = Finite d /\ (1 <= d)%Q) \/ of_int b = Inf true.
Proof.
  intros Hb. unfold of_int.
  assert (Hx : (pow2 0 <= inject_Z b)%Q).
  { change (pow2 0) with (inject_Z 1). now apply inject_Z_le. }
  assert (Hp : (0 < inject_Z b)%Q)
    by (eapply Qlt_le_trans; [apply (pow2_pos 0) | exact Hx]).
  destruct (binary64_pos _ Hp) as (i & r & _ & _ & [[_ E]|[_ E]]).
  - left. exists r. split; [exact E|].
    change 1%Q with (pow2 0). apply (binary64_lower _ 0 r Hx); [lia | exact E].
  - now right.
Qed.

Lemma fdiv_finite a b :
  ~ (b == 0)%Q -> fdiv (Finite a) (Finite b) = binary64 (a / b).
Proof.
  intros Hb. unfold fdiv. destruct (Qeq_bool b 0) eqn:E; [|reflexivity].
  apply Qeq_bool_iff in E. contradiction.
Qed.

(** The quotient of a lifetime by a positive count, both below 2^53: the
    exact quotient rounded once. *)
Lemma truediv_bounded a b :
  0 <= a < 2 ^ 53 -> 1 <= b < 2 ^ 53 ->
  exists x, truediv a b = Finite x
            /\ binary64 (inject_Z a / inject_Z b) = Finite x
            /\ (0 <= x)%Q /\ (x <= pow2 53)%Q.
Proof.
  intros Ha Hb. unfold truediv.
  destruct (of_int_exact a Ha) as [ra [Ea Era]].
  destruct (of_int_exact b) as [rb [Eb Erb]]; [lia|].
  assert (Hb0 : (0 < inject_Z b)%Q).
  { change 0%Q with (inject_Z 0). apply inject_Z_lt. lia. }
  assert (Hrb : ~ (rb == 0)%Q).
  { rewrite Erb. intros E. rewrite E in Hb0. discriminate Hb0. }
  rewrite Ea, Eb, (fdiv_finite _ _ Hrb).
  assert (Eq : (ra / rb == inject_Z a / inject_Z b)%Q) by (rewrite Era, Erb; reflexivity).
  rewrite (binary64_comp _ _ Eq).
  destruct (binary64_nonneg_upper (inject_Z a / inject_Z b) 53) as [x [Ex [H0 H1]]].
  - apply Qle_shift_div_l; [exact Hb0|]. rewrite Qmult_0_l.
    change 0%Q with (inject_Z 0). apply inject_Z_le. lia.
  - apply Qle_shift_div_r; [exact Hb0|].
    apply Qle_trans with (pow2 53 * 1)%Q.
    + rewrite Qmult_1_r, (pow2_Z 53) by lia. apply inject_Z_le. lia.
    + apply Qmult_le_l; [apply pow2_pos|].
      change 1%Q with (inject_Z 1). apply inject_Z_le. lia.
  - lia.
  - exists x. auto.
Qed.

Lemma hundred_neq_0 : ~ (100 == 0)%Q.
Proof. discriminate. Qed.

(** Rounding to two places keeps a bounded number finite. *)
Lemma round2_finite x :
  (0 <= x)%Q -> (x <= pow2 53)%Q ->
  exists q, round2 (Finite x) = Finite q /\ (0 <= q)%Q.
Proof.
  intros H0 H1. unfold round2. cbn [fmul].
  destruct (binary64_nonneg_upper (x * 100) 60) as [y [Ey [Hy0 Hy1]]].
  - apply Qmult_le_0_compat; [exact H0 | discriminate].
  - apply Qle_trans with (pow2 53 * 100)%Q.
    + apply Qmult_le_compat_r; [exact H1 | discriminate].
    + replace 60 with (53 + 7) by lia. rewrite pow2_add.
      apply Qmult_le_l; [apply pow2_pos | discriminate].
  - lia.
  - rewrite Ey. cbn [frint]. rewrite (fdiv_finite _ _ hundred_neq_0).
    assert (Hm0 : 0 <= rint y) by (apply rint_ge_Z; exact Hy0).
    assert (Hm1 : rint y <= 2 ^ 60).
    { apply rint_le_Z. rewrite <- pow2_Z by lia. exact Hy1. }
    destruct (binary64_nonneg_upper (inject_Z (rint y) / 100) 60) as [q [Eq [Hq0 _]]].
    + apply Qle_shift_div_l; [reflexivity|]. rewrite Qmult_0_l.
      change 0%Q with (inject_Z 0). now apply inject_Z_le.
    + apply Qle_shift_div_r; [reflexivity|].
      apply Qle_trans with (pow2 60 * 1)%Q.
      * rewrite Qmult_1_r, (pow2_Z 60) by lia. now apply inject_Z_le.
      * apply Qmult_le_l; [apply pow2_pos | discriminate].
    + lia.
    + exists q. auto.
Qed.

Lemma truediv_zero b : 1 <= b -> truediv 0 b = Finite 0.
Proof.
  intros Hb. unfold truediv. change (of_int 0) with (Finite 0).
  destruct (of_int_pos b Hb) as [[d [E Hd]]| E]; rewrite E; [|reflexivity].
  rewrite fdiv_finite.
  - apply binary64_zero. unfold Qdiv. apply Qmult_0_l.
  - intros E0. rewrite E0 in Hd. exact (Hd eq_refl).
Qed.

Lemma round2_zero : round2 (Finite 0) = Finite 0.
Proof. reflexivity. Qed.

Lemma In_repeat_customers r co :
  In r (repeat_customers co) <-> In r co /\ 1 < OrderCount r.
Proof.
  unfold repeat_customers. rewrite filter_In, Z.ltb_lt. reflexivity.
Qed.

Lemma lifetime_nonneg r df :
  In r (customer_orders df) -> 0 <= CustomerLifetime_Days r.
Proof.
  intros Hr. apply In_customer_orders in Hr as [Er Hne].
  unfold CustomerLifetime_Days, days. apply Z.div_pos; [|reflexivity].
  rewrite Er. cbn [FirstPurchase LastPurchase aggregate snd].
  set (T := transactions_of _ df) in *.
  assert (HD : map InvoiceDate T <> []) by (destruct T; [contradiction | discriminate]).
  destruct (min_ts_nonempty _ HD) as [lo Hlo], (max_ts_nonempty _ HD) as [hi Hhi].
  rewrite Hlo, Hhi. cbn [ts_or_zero].
  apply min_ts_spec in Hlo as [Hin _]. apply max_ts_spec in Hhi as [_ Hge].
  specialize (Hge _ Hin). lia.
Qed.

(** C10. Every customer the purchase frequency is computed for has an
    order count above 1: the divisor, order count minus one, is at least
    1, also as a float, so the cell is never the infinity or NaN of a
    division by zero.  With lifetime and order count in the range where
    integers are floats, the cell is a finite number, not negative: the
    quotient, rounded to binary64, then rounded to two places.  When all
    transactions of such a customer carry one timestamp, the cell is 0. *)
Theorem PurchaseFrequency_divisor_positive (df : list Transaction) (r : CustomerRow) :
  In r (repeat_customers (customer_orders df)) ->
  1 <= OrderCount r - 1
  /\ (forall d, of_int (OrderCount r - 1) = Finite d -> (1 <= d)%Q)
  /\ of_int (OrderCount r - 1) <> NaN
  /\ (CustomerLifetime_Days r < 2 ^ 53 -> OrderCount r <= 2 ^ 53 ->
      exists x q,
        binary64 (inject_Z (CustomerLifetime_Days r) / inject_Z (OrderCount r - 1))
        = Finite x
        /\ PurchaseFrequency_DaysPerOrder r = round2 (Finite x)
        /\ PurchaseFrequency_DaysPerOrder r = Finite q /\ (0 <= q)%Q)
  /\ ((forall t t', In t (transactions_of (Customer_ID r) df) ->
                    In t' (transactions_of (Customer_ID r) df) ->
                    InvoiceDate t = InvoiceDate t') ->
      PurchaseFrequency_DaysPerOrder r = Finite 0).
Proof.
  intros Hr. apply In_repeat_customers in Hr as [Hr Hoc].
  assert (Hb : 1 <= OrderCount r - 1) by lia.
  split; [exact Hb|]. split; [|split; [|split]].
  - intros d Hd. destruct (of_int_pos _ Hb) as [[d' [E Hd']]|E]; [|congruence].
    assert (d = d') by congruence. subst d'. exact Hd'.
  - destruct (of_int_pos _ Hb) as [[d' [E _]]|E]; rewrite E; discriminate.
  - intros Ha Hc. pose proof (lifetime_nonneg r df Hr) as Ha0.
    destruct (truediv_bounded (CustomerLifetime_Days r) (OrderCount r - 1))
      as [x [Ex [Eb [Hx0 Hx1]]]]; [lia | lia |].
    destruct (round2_finite x Hx0 Hx1) as [q [Eq Hq]].
    exists x, q. unfold PurchaseFrequency_DaysPerOrder. rewrite Ex. auto.
  - intros Hsame.
    assert (Hlife : CustomerLifetime_Days r = 0).
    { apply In_customer_orders in Hr as [Er Hne].
      unfold CustomerLifetime_Days. rewrite Er. cbn.
      set (T := transactions_of _ df) in *.
      assert (HD : map InvoiceDate T <> []) by (destruct T; [contradiction | discriminate]).
      destruct (min_ts_nonempty _ HD) as [lo Hlo], (max_ts_nonempty _ HD) as [hi Hhi].
      rewrite Hlo, Hhi. cbn.
      apply min_ts_spec in Hlo as [Hlo _]. apply max_ts_spec in Hhi as [Hhi _].
      apply in_map_iff in Hlo as [t [<- Ht]]. apply in_map_iff in Hhi as [t' [<- Ht']].
      rewrite (Hsame t' t Ht' Ht), Z.sub_diag. reflexivity. }
    unfold PurchaseFrequency_DaysPerOrder.
    rewrite Hlife, (truediv_zero _ Hb). apply round2_zero.
Qed.

Lemma PurchaseFrequency_divisor_positive_witness :
  exists r,
    In r (repeat_customers (customer_orders sample))
    /\ Customer_ID r = 3 /\ 1 <= OrderCount r - 1
    /\ PurchaseFrequency_DaysPerOrder r = Finite 0.
Proof.
  exists (aggregate (3, transactions_of 3 sample)).
  assert (Hin : In (aggregate (3, transactions_of 3 sample))
                   (repeat_customers (customer_orders sample))).
  { cbn. right. left. reflexivity. }
  destruct (PurchaseFrequency_divisor_positive sample _ Hin) as (H1 & _ & _ & _ & H3).
  split; [exact Hin|]. split; [reflexivity|]. split; [exact H1|].
  apply H3. cbn. intros t t' [<-|[<-|[]]] [<-|[<-|[]]]; reflexivity.
Defined.

(** On the sample: customer 1 has two orders eight days apart, customer 3
    two orders at one instant. *)
Example PurchaseFrequency_sample :
  map PurchaseFrequency_DaysPerOrder (repeat_customers (customer_orders sample))
  = [Finite 8; Finite 0].
Proof. vm_compute. reflexivity. Qed.

(** The rounding is numpy's, in binary64: 23 days over 40 gaps is the float
    written 0.575, its product with 100 is just below 57.5, and the cell is
    the float written 0.57; 23 customers of 160 are the share written
    14.37. *)
Example round2_binary64 :
  round2 (truediv 23 40) = binary64 (57 # 100)
  /\ round2 (times100 (truediv 23 160)) = binary64 (1437 # 100)
  /\ round2 (truediv 1 8) = binary64 (12 # 100)
  /\ truediv 1 0 = Inf true /\ truediv 0 0 = NaN.
Proof. vm_compute. repeat split; reflexivity. Qed.

(** ** rank(method='first') *)

Section CountFacts.
Context {A : Type}.
Implicit Types (p q r : A -> bool) (l : list A).

Lemma count_if_app p l l' :
  count_if p (l ++ l') = (count_if p l + count_if p l')%nat.
Proof. unfold count_if. now rewrite filter_app, length_app. Qed.

Lemma count_if_cons p x l :
  count_if p (x :: l) = ((if p x then 1 else 0) + count_if p l)%nat.
Proof. unfold count_if. cbn. now destruct (p x). Qed.

Lemma count_if_length p l : (count_if p l <= List.length l)%nat.
Proof. apply filter_length_le. Qed.

Lemma count_if_ext p q l :
  (forall z, p z = q z) -> count_if p l = count_if q l.
Proof. intros H. unfold count_if. now rewrite (filter_ext _ _ H). Qed.

Lemma count_if_disjoint_le p q r l :
  (forall z, p z = true -> r z = true) ->
  (forall z, q z = true -> r z = true) ->
  (forall z, p z = true -> q z = true -> False) ->
  (count_if p l + count_if q l <= count_if r l)%nat.
Proof.
  intros Hp Hq Hd. induction l as [|z l IH]; [cbn; lia|].
  rewrite !count_if_cons.
  specialize (Hp z). specialize (Hq z). specialize (Hd z).
  destruct (p z), (q z), (r z); cbn; try lia;
    try (exfalso; now apply Hd);
    try (discriminate Hp; reflexivity); try (discriminate Hq; reflexivity).
Qed.

Lemma count_if_disjoint_length p q l :
  (forall z, p z = true -> q z = true -> False) ->
  (count_if p l + count_if q l <= List.length l)%nat.
Proof.
  intros Hd.
  assert (H : (count_if p l + count_if q l <= count_if (fun _ => true) l)%nat)
    by (apply count_if_disjoint_le; auto).
  pose proof (count_if_length (fun _ => true) l). lia.
Qed.
End CountFacts.

Section RankFacts.
Context {A : Type}.
Variable leb : A -> A -> bool.
Hypothesis leb_total : forall x y, leb x y = true \/ leb y x = true.
Hypothesis leb_trans :
  forall x y z, leb x y = true -> leb y z = true -> leb x z = true.

Local Abbreviation lower := (below leb).
Local Abbreviation equal := (tied leb).
Local Abbreviation rank := (rank_of leb).

Lemma leb_refl x : leb x x = true.
Proof. destruct (leb_total x x); assumption. Qed.

Lemma below_irrefl x : lower x x = false.
Proof. unfold below. now rewrite leb_refl. Qed.

Lemma tied_refl x : equal x x = true.
Proof. unfold tied. now rewrite leb_refl. Qed.

Lemma below_tied_disjoint z x : lower z x = true -> equal z x = true -> False.
Proof.
  unfold below, tied. destruct (leb x z), (leb z x); discriminate.
Qed.

Lemma below_trans_l a b c :
  lower a b = true \/ equal a b = true -> lower b c = true -> lower a c = true.
Proof.
  unfold below, tied. intros Hab Hbc.
  destruct (leb c a) eqn:Hca; [|reflexivity]. exfalso.
  assert (Hab' : leb a b = true).
  { destruct Hab as [H|H].
    - destruct (leb_total a b) as [H'|H']; [assumption|]. rewrite H' in H. discriminate.
    - destruct (leb a b); [reflexivity | discriminate]. }
  rewrite (leb_trans c a b Hca Hab') in Hbc. discriminate.
Qed.

Lemma tied_below x y z : equal x y = true -> lower z x = lower z y.
Proof.
  unfold below, tied. intros H.
  apply andb_prop in H as [Hxy Hyx]. f_equal.
  destruct (leb x z) eqn:Hxz, (leb y z) eqn:Hyz; try reflexivity.
  - rewrite (leb_trans y x z Hyx Hxz) in Hyz. discriminate.
  - rewrite (leb_trans x y z Hxy Hyz) in Hxz. discriminate.
Qed.

Lemma tied_tied x y z : equal x y = true -> equal z x = equal z y.
Proof.
  unfold tied. intros H. apply andb_prop in H as [Hxy Hyx].
  destruct (leb z x) eqn:Hzx, (leb x z) eqn:Hxz,
           (leb z y) eqn:Hzy, (leb y z) eqn:Hyz; try reflexivity; exfalso.
  all: try (rewrite (leb_trans z x y Hzx Hxy) in Hzy; discriminate).
  all: try (rewrite (leb_trans y x z Hyx Hxz) in Hyz; discriminate).
  all: try (rewrite (leb_trans z y x Hzy Hyx) in Hzx; discriminate).
  all: try (rewrite (leb_trans x y z Hxy Hyz) in Hxz; discriminate).
Qed.

Lemma not_below_tied x y :
  lower x y = false -> lower y x = false -> equal x y = true.
Proof.
  unfold below, tied. destruct (leb x y), (leb y x); auto.
Qed.

(** Ranks follow the values, and among tied values the row order. *)
Lemma rank_of_lt l1 x l2 y l3 :
  let all := l1 ++ x :: l2 ++ y :: l3 in
  (lower y x = false -> rank all l1 x < rank all (l1 ++ x :: l2) y)
  /\ (lower y x = true -> rank all (l1 ++ x :: l2) y < rank all l1 x).
Proof.
  intros all. unfold rank_of.
  assert (Hx : (count_if (fun z => equal z x) all
                = count_if (fun z => equal z x) l1 + 1
                  + count_if (fun z => equal z x) (l2 ++ y :: l3))%nat).
  { unfold all. rewrite count_if_app, count_if_cons, tied_refl. lia. }
  assert (Hy : (count_if (fun z => equal z y) all
                = count_if (fun z => equal z y) (l1 ++ x :: l2) + 1
                  + count_if (fun z => equal z y) l3)%nat).
  { unfold all. replace (l1 ++ x :: l2 ++ y :: l3) with ((l1 ++ x :: l2) ++ y :: l3)
      by (rewrite <- app_assoc; reflexivity).
    rewrite count_if_app, count_if_cons, tied_refl. lia. }
  split; intros Hyx.
  - destruct (lower x y) eqn:Hxy.
    + assert (H : (count_if (fun z => lower z x) all + count_if (fun z => equal z x) all
                   <= count_if (fun z => lower z y) all)%nat).
      { apply count_if_disjoint_le.
        - intros z Hz. apply (below_trans_l z x y); auto.
        - intros z Hz. apply (below_trans_l z x y); auto.
        - intros z. apply below_tied_disjoint. }
      lia.
    + pose proof (not_below_tied x y Hxy Hyx) as Ht.
      rewrite (count_if_ext (fun z => lower z x) (fun z => lower z y))
        by (intros z; now apply tied_below).
      rewrite (count_if_ext (fun z => equal z x) (fun z => equal z y))
        by (intros z; now apply tied_tied).
      rewrite (count_if_app _ l1 (x :: l2)), count_if_cons.
      assert (Hxx : equal x y = true) by exact Ht. rewrite Hxx. lia.
  - assert (H : (count_if (fun z => lower z y) all + count_if (fun z => equal z y) all
                 <= count_if (fun z => lower z x) all)%nat).
    { apply count_if_disjoint_le.
      - intros z Hz. apply (below_trans_l z y x); auto.
      - intros z Hz. apply (below_trans_l z y x); auto.
      - intros z. apply below_tied_disjoint. }
    lia.
Qed.

Lemma rank_of_neq l1 x l2 y l3 :
  rank (l1 ++ x :: l2 ++ y :: l3) l1 x
  <> rank (l1 ++ x :: l2 ++ y :: l3) (l1 ++ x :: l2) y.
Proof.
  destruct (rank_of_lt l1 x l2 y l3) as [H1 H2].
  destruct (lower y x); [specialize (H2 eq_refl) | specialize (H1 eq_refl)]; lia.
Qed.

Lemma rank_of_bounds before x after :
  1 <= rank (before ++ x :: after) before x
    <= Z.of_nat (List.length (before ++ x :: after)).
Proof.
  unfold rank_of.
  rewrite count_if_app, count_if_cons, below_irrefl, length_app. cbn [List.length].
  pose proof (count_if_disjoint_length (fun z => lower z x) (fun z => equal z x) before
                (fun z => below_tied_disjoint z x)).
  pose proof (count_if_length (fun z => lower z x) after). lia.
Qed.

Lemma In_rank_from r all : forall rest before,
  In r (rank_from leb all before rest) ->
  exists m y m', rest = m ++ y :: m' /\ r = rank all (before ++ m) y.
Proof.
  induction rest as [|x rest IH]; cbn; intros before Hin; [contradiction|].
  destruct Hin as [<-|Hin].
  - exists [], x, rest. rewrite app_nil_r. split; reflexivity.
  - destruct (IH _ Hin) as [m [y [m' [-> ->]]]].
    exists (x :: m), y, m'. rewrite <- app_assoc. split; reflexivity.
Qed.

Lemma rank_from_length all : forall rest before,
  List.length (rank_from leb all before rest) = List.length rest.
Proof. induction rest as [|x rest IH]; cbn; intros; [reflexivity | now rewrite IH]. Qed.

Lemma rank_from_NoDup : forall rest before all,
  all = before ++ rest -> NoDup (rank_from leb all before rest).
Proof.
  induction rest as [|x rest IH]; cbn; intros before all Hall; constructor.
  - intros Hin. apply In_rank_from in Hin as [m [y [m' [-> Hr]]]].
    subst all. rewrite <- app_assoc in Hr. cbn in Hr.
    exact (rank_of_neq before x m y m' Hr).
  - apply IH. subst all. rewrite <- app_assoc. reflexivity.
Qed.

(** The first-come ranks of a column of [n] values are 1, ..., [n], each
    taken once. *)
Lemma rank_first_length xs : List.length (rank_first leb xs) = List.length xs.
Proof. apply rank_from_length. Qed.

Lemma rank_first_Permutation xs :
  Permutation (rank_first leb xs) (ranks_upto (List.length xs)).
Proof.
  apply NoDup_Permutation_bis.
  - now apply rank_from_NoDup.
  - unfold ranks_upto. rewrite length_map, length_seq, rank_first_length. lia.
  - intros r Hr. apply In_rank_from in Hr as [m [y [m' [E ->]]]]. cbn [app].
    pose proof (rank_of_bounds m y m') as Hb. rewrite <- E in Hb.
    unfold ranks_upto. apply in_map_iff.
    exists (Z.to_nat (rank xs m y)). split; [lia|].
    apply in_seq. lia.
Qed.

(** The rank of the value on row [i]. *)
Lemma rank_first_nth xs i x :
  nth_error xs i = Some x ->
  nth_error (rank_first leb xs) i = Some (rank xs (firstn i xs) x).
Proof.
  unfold rank_first.
  assert (H : forall rest before j y,
             nth_error rest j = Some y ->
             nth_error (rank_from leb xs before rest) j
             = Some (rank xs (before ++ firstn j rest) y)).
  { induction rest as [|z rest IH]; intros before [|j] y Hj; cbn in *; try discriminate.
    - injection Hj as ->. now rewrite app_nil_r.
    - rewrite (IH _ _ _ Hj), <- app_assoc. reflexivity. }
  intros Hi. exact (H xs [] i x Hi).
Qed.
(** Among tied values the earlier row has the smaller rank. *)
Lemma rank_first_ties (col : list A) i j x y :
  (i < j)%nat -> nth_error col i = Some x -> nth_error col j = Some y ->
  tied leb x y = true ->
  exists ri rj, nth_error (rank_first leb col) i = Some ri
                /\ nth_error (rank_first leb col) j = Some rj /\ ri < rj.
Proof.
  intros Hij Hi Hj Ht.
  rewrite (rank_first_nth col i x Hi), (rank_first_nth col j y Hj).
  eexists. eexists. split; [reflexivity|]. split; [reflexivity|].
  destruct (nth_error_split col i Hi) as [l1 [l' [Hcol Hl1]]].
  assert (Hj' : nth_error l' (j - i - 1) = Some y).
  { rewrite Hcol in Hj. rewrite nth_error_app2 in Hj by lia.
    rewrite Hl1 in Hj. replace (j - i)%nat with (S (j - i - 1)) in Hj by lia.
    exact Hj. }
  destruct (nth_error_split l' (j - i - 1) Hj') as [l2 [l3 [Hl' Hl2]]].
  assert (Hfi : firstn i col = l1).
  { rewrite Hcol, <- Hl1, firstn_app, Nat.sub_diag, firstn_all. cbn.
    apply app_nil_r. }
  assert (Hfj : firstn j col = l1 ++ x :: l2).
  { rewrite Hcol, Hl', firstn_app, Hl1.
    rewrite (firstn_all2 l1) by lia. f_equal.
    replace (j - i)%nat with (S (List.length l2)) by lia. cbn. f_equal.
    rewrite firstn_app, Nat.sub_diag, firstn_all. cbn. apply app_nil_r. }
  rewrite Hfi, Hfj. rewrite Hcol at 1 2. rewrite Hl'.
  apply (rank_of_lt l1 x l2 y l3).
  unfold tied in Ht. apply andb_prop in Ht as [Hxy _].
  unfold below. now rewrite Hxy.
Qed.
End RankFacts.

(** ** Sorting a rank column *)

Lemma insert_sorted_Permutation x l : Permutation (insert_sorted x l) (x :: l).
Proof.
  induction l as [|y l IH]; cbn; [reflexivity|].
  destruct (x <=? y); [reflexivity|].
  rewrite IH. apply perm_swap.
Qed.

Lemma sort_Permutation l : Permutation (sort l) l.
Proof.
  induction l as [|x l IH]; cbn; [reflexivity|].
  rewrite insert_sorted_Permutation. now constructor.
Qed.

Lemma insert_sorted_sorted x l :
  StronglySorted Z.le l -> StronglySorted Z.le (insert_sorted x l).
Proof.
  induction 1 as [|y l Hs IH Hy]; cbn.
  - constructor; constructor.
  - destruct (Z.leb_spec x y) as [Hle|Hgt].
    + constructor; [constructor; assumption|].
      constructor; [exact Hle|]. eapply Forall_impl; [|exact Hy]. cbn. intros; lia.
    + constructor; [exact IH|].
      apply (Permutation_Forall (x := x :: l)).
      * symmetry. apply insert_sorted_Permutation.
      * constructor; [lia | exact Hy].
Qed.

Lemma sort_sorted l : StronglySorted Z.le (sort l).
Proof.
  induction l as [|x l IH]; cbn; [constructor | now apply insert_sorted_sorted].
Qed.

Lemma sorted_Permutation_eq l : forall l',
  StronglySorted Z.le l -> StronglySorted Z.le l' -> Permutation l l' -> l = l'.
Proof.
  induction l as [|a l IH]; intros l' Hs Hs' Hp.
  - apply Permutation_nil in Hp. now subst.
  - destruct l' as [|b l']; [apply Permutation_sym, Permutation_nil in Hp; discriminate|].
    inversion Hs as [|? ? Hsl Ha]; inversion Hs' as [|? ? Hsl' Hb]; subst.
    assert (a = b).
    { rewrite Forall_forall in Ha, Hb.
      assert (Hb' : In b (a :: l)) by (apply (Permutation_in _ (Permutation_sym Hp)); now left).
      assert (Ha' : In a (b :: l')) by (apply (Permutation_in _ Hp); now left).
      destruct Hb' as [->|Hb']; [reflexivity|]. destruct Ha' as [<-|Ha']; [reflexivity|].
      specialize (Ha _ Hb'). specialize (Hb _ Ha'). lia. }
    subst b. f_equal. apply IH; try assumption.
    now apply Permutation_cons_inv in Hp.
Qed.

Lemma In_ranks_upto n v : In v (ranks_upto n) <-> 1 <= v <= Z.of_nat n.
Proof.
  unfold ranks_upto. rewrite in_map_iff. split.
  - intros [i [<- Hi]]. apply in_seq in Hi. lia.
  - intros Hv. exists (Z.to_nat v). split; [lia|]. apply in_seq. lia.
Qed.

Lemma ranks_upto_S n : ranks_upto (S n) = ranks_upto n ++ [Z.of_nat (S n)].
Proof. unfold ranks_upto. rewrite seq_S, map_app. reflexivity. Qed.

Lemma ranks_upto_length n : List.length (ranks_upto n) = n.
Proof. unfold ranks_upto. now rewrite length_map, length_seq. Qed.

Lemma ranks_upto_sorted n : StronglySorted Z.le (ranks_upto n).
Proof.
  unfold ranks_upto. generalize 1%nat.
  induction n as [|n IH]; intros s; cbn; constructor; [apply IH|].
  apply Forall_forall. intros v Hv. apply in_map_iff in Hv as [i [<- Hi]].
  apply in_seq in Hi. lia.
Qed.

Lemma sort_ranks x n : Permutation x (ranks_upto n) -> sort x = ranks_upto n.
Proof.
  intros Hp. apply sorted_Permutation_eq.
  - apply sort_sorted.
  - apply ranks_upto_sorted.
  - now rewrite sort_Permutation.
Qed.

Lemma nth_ranks_upto n i :
  (i < n)%nat -> nth i (ranks_upto n) 0 = Z.of_nat i + 1.
Proof.
  intros Hi. unfold ranks_upto.
  rewrite (nth_indep _ 0 (Z.of_nat 0)) by (rewrite length_map, length_seq; exact Hi).
  rewrite map_nth, seq_nth by exact Hi. lia.
Qed.

(** ** The quantile edges of a rank column *)

Lemma quantile_ranks x n k :
  Permutation x (ranks_upto n) -> (1 <= n)%nat -> 0 <= k <= 5 ->
  exists b, quantile x (k # 5) = Some b /\ (b == edge (Z.of_nat n) k)%Q.
Proof.
  intros Hp Hn Hk.
  assert (Hlen : List.length x = n)
    by (rewrite (Permutation_length Hp); apply ranks_upto_length).
  unfold quantile. destruct x as [|x0 x']; [cbn in Hlen; lia|].
  set (x := x0 :: x') in *. eexists. split; [reflexivity|].
  rewrite (sort_ranks _ _ Hp). unfold count. rewrite Hlen.
  set (m := Z.of_nat n - 1). assert (Hm : 0 <= m) by lia.
  assert (Hfl : Qfloor ((k # 5) * inject_Z m) = k * m / 5).
  { reflexivity. }
  rewrite Hfl. set (lo := k * m / 5).
  assert (Hlo : 0 <= lo <= m).
  { unfold lo. split; [apply Z.div_pos; nia|].
    apply Z.div_le_upper_bound; nia. }
  assert (Hdm : 5 * lo <= k * m < 5 * lo + 5).
  { unfold lo. pose proof (Z.mul_div_le (k * m) 5 ltac:(lia)).
    pose proof (Z.mul_succ_div_gt (k * m) 5 ltac:(lia)). lia. }
  rewrite !nth_ranks_upto by lia. rewrite !Z2Nat.id by lia.
  unfold edge. fold m.
  destruct (Z.eq_dec lo m) as [Hlm|Hlm].
  - replace (Z.min (lo + 1) m) with m by lia.
    assert (Hkm : k * m = 5 * m) by nia.
    clearbody lo m. subst lo.
    unfold Qeq, Qminus, Qplus, Qmult, Qopp, inject_Z. cbn [Qnum Qden].
    rewrite ?Pos2Z.inj_mul, Hkm. ring.
  - replace (Z.min (lo + 1) m) with (lo + 1) by lia.
    unfold Qeq, Qminus, Qplus, Qmult, Qopp, inject_Z. cbn [Qnum Qden].
    rewrite ?Pos2Z.inj_mul. ring.
Qed.

Lemma linspace01_5 :
  linspace01 5 = [0 # 5; 1 # 5; 2 # 5; 3 # 5; 4 # 5; 5 # 5]%Q.
Proof. reflexivity. Qed.

Lemma bin_edges_ranks x n :
  Permutation x (ranks_upto n) -> (1 <= n)%nat ->
  exists b0 b1 b2 b3 b4 b5,
    bin_edges x 5 = [Some b0; Some b1; Some b2; Some b3; Some b4; Some b5]
    /\ (b0 == edge (Z.of_nat n) 0 /\ b1 == edge (Z.of_nat n) 1
        /\ b2 == edge (Z.of_nat n) 2 /\ b3 == edge (Z.of_nat n) 3
        /\ b4 == edge (Z.of_nat n) 4 /\ b5 == edge (Z.of_nat n) 5)%Q.
Proof.
  intros Hp Hn. unfold bin_edges. rewrite linspace01_5. cbn [map].
  destruct (quantile_ranks x n 0 Hp Hn ltac:(lia)) as [b0 [-> H0]].
  destruct (quantile_ranks x n 1 Hp Hn ltac:(lia)) as [b1 [-> H1]].
  destruct (quantile_ranks x n 2 Hp Hn ltac:(lia)) as [b2 [-> H2]].
  destruct (quantile_ranks x n 3 Hp Hn ltac:(lia)) as [b3 [-> H3]].
  destruct (quantile_ranks x n 4 Hp Hn ltac:(lia)) as [b4 [-> H4]].
  destruct (quantile_ranks x n 5 Hp Hn ltac:(lia)) as [b5 [-> H5]].
  exists b0, b1, b2, b3, b4, b5. tauto.
Qed.

Lemma Qle_bool_edge v b n k :
  (b == edge n k)%Q -> Qle_bool (inject_Z v) b = (5 * v <=? 5 + k * (n - 1)).
Proof.
  intros Hb. apply Bool.eq_iff_eq_true.
  rewrite Qle_bool_iff, Z.leb_le, Hb. unfold Qle, edge, inject_Z. cbn [Qnum Qden]. lia.
Qed.

Lemma edge_below_edge v b n k :
  (b == edge n k)%Q -> edge_below (Some b) v = (5 + k * (n - 1) <? 5 * v).
Proof.
  intros Hb. unfold edge_below. rewrite (Qle_bool_edge _ _ _ _ Hb).
  destruct (Z.leb_spec (5 * v) (5 + k * (n - 1))), (Z.ltb_spec (5 + k * (n - 1)) (5 * v));
    try reflexivity; lia.
Qed.

Lemma same_edge_edge b b' n k k' :
  (b == edge n k)%Q -> (b' == edge n k')%Q ->
  same_edge (Some b) (Some b') = (k * (n - 1) =? k' * (n - 1)).
Proof.
  intros Hb Hb'. cbn. apply Bool.eq_iff_eq_true.
  rewrite Qeq_bool_iff, Z.eqb_eq, Hb, Hb'. unfold Qeq, edge. cbn [Qnum Qden]. lia.
Qed.

Lemma same_edge_first v b n :
  (b == edge n 0)%Q -> same_edge (Some (inject_Z v)) (Some b) = (v =? 1).
Proof.
  intros Hb. cbn. apply Bool.eq_iff_eq_true.
  rewrite Qeq_bool_iff, Z.eqb_eq, Hb. unfold Qeq, edge, inject_Z. cbn [Qnum Qden]. lia.
Qed.

Lemma unique_distinct l :
  ForallOrdPairs (fun a b => same_edge a b = false) l -> unique l = l.
Proof.
  induction 1 as [|a l Ha Hl IH]; cbn; [reflexivity|]. rewrite IH. f_equal.
  clear IH Hl. induction Ha as [|b l Hb Ha IH]; cbn; [reflexivity|].
  rewrite Hb. cbn. now rewrite IH.
Qed.

(** ** The bin of a rank *)

Ltac split_edges :=
  repeat match goal with
         | |- context [?a <? ?b] => destruct (Z.ltb_spec a b)
         end.

Lemma bucket_le n v j :
  2 <= n -> 1 <= v <= n -> 1 <= j <= 5 ->
  (bucket n v <= Z.to_nat j)%nat <-> 5 * (v - 1) <= j * (n - 1).
Proof.
  intros Hn Hv Hj. unfold bucket.
  destruct (Z.eqb_spec v 1) as [->|Hv1]; [split; intros; nia|].
  cbn [filter].
  assert (Hcases : j = 1 \/ j = 2 \/ j = 3 \/ j = 4 \/ j = 5) by lia.
  split_edges; cbn [List.length];
    destruct Hcases as [->|[->|[->|[->| ->]]]]; split; intros; lia.
Qed.

Lemma bucket_range n v :
  2 <= n -> 1 <= v <= n -> (1 <= bucket n v <= 5)%nat.
Proof.
  intros Hn Hv. unfold bucket.
  destruct (Z.eqb_spec v 1) as [->|Hv1]; [lia|].
  cbn [filter]. split_edges; cbn [List.length]; lia.
Qed.

(** ** qcut on a rank column *)

Lemma bin_id_ranks x n v :
  Permutation x (ranks_upto n) -> (2 <= n)%nat -> 1 <= v <= Z.of_nat n ->
  bin_id (bin_edges x 5) v = bucket (Z.of_nat n) v.
Proof.
  intros Hp Hn Hv.
  destruct (bin_edges_ranks x n Hp ltac:(lia))
    as [b0 [b1 [b2 [b3 [b4 [b5 [-> [H0 [H1 [H2 [H3 [H4 H5]]]]]]]]]]]].
  unfold bin_id, bucket, searchsorted_left. cbn [hd].
  rewrite (same_edge_first _ _ _ H0).
  destruct (v =? 1); [reflexivity|]. cbn [filter].
  rewrite (edge_below_edge _ _ _ _ H0), (edge_below_edge _ _ _ _ H1),
    (edge_below_edge _ _ _ _ H2), (edge_below_edge _ _ _ _ H3),
    (edge_below_edge _ _ _ _ H4), (edge_below_edge _ _ _ _ H5).
  split_edges; reflexivity.
Qed.

(** With two values or more the six edges are distinct and [qcut] returns:
    every cell is the label of the bin of its rank. *)
Lemma qcut_ranks x n labels :
  Permutation x (ranks_upto n) -> (2 <= n)%nat -> List.length labels = 5%nat ->
  qcut x 5 labels = Ok (map (score_of (Z.of_nat n) labels) x).
Proof.
  intros Hp Hn Hl. unfold qcut.
  destruct (bin_edges_ranks x n Hp ltac:(lia))
    as [b0 [b1 [b2 [b3 [b4 [b5 [Hb [H0 [H1 [H2 [H3 [H4 H5]]]]]]]]]]]].
  assert (Hu : unique (bin_edges x 5) = bin_edges x 5).
  { rewrite Hb. apply unique_distinct.
    repeat (constructor; [repeat constructor|]); try constructor;
      match goal with
      | |- same_edge (Some ?a) (Some ?b) = false =>
          match goal with
          | Ha : (a == edge _ ?k)%Q, Hb' : (b == edge _ ?k')%Q |- _ =>
              rewrite (same_edge_edge _ _ _ _ _ Ha Hb'); apply Z.eqb_neq; lia
          end
      end. }
  rewrite Hu, Nat.ltb_irrefl. cbn [andb].
  replace (List.length (bin_edges x 5)) with 6%nat by (rewrite Hb; reflexivity).
  rewrite Hl. cbn [Nat.sub Nat.eqb negb]. f_equal.
  apply map_ext_in. intros v Hv.
  assert (Hv' : 1 <= v <= Z.of_nat n)
    by (apply In_ranks_upto, (Permutation_in _ Hp), Hv).
  rewrite (bin_id_ranks x n v Hp Hn Hv').
  pose proof (bucket_range (Z.of_nat n) v ltac:(lia) Hv') as Hr.
  destruct (Nat.eqb_spec (bucket (Z.of_nat n) v) 6); [lia|].
  destruct (Nat.eqb_spec (bucket (Z.of_nat n) v) 0); [lia|]. reflexivity.
Qed.

(** With one value all edges coincide, with none they are all NaN: in both
    cases [qcut] raises. *)
Lemma qcut_degenerate x n labels :
  Permutation x (ranks_upto n) -> (n < 2)%nat ->
  qcut x 5 labels = Err (ValueError "Bin edges must be unique").
Proof.
  intros Hp Hn. destruct n as [|[|n]]; [| |lia].
  - apply Permutation_sym, Permutation_nil in Hp. subst x. reflexivity.
  - apply Permutation_sym, Permutation_length_1_inv in Hp. subst x. reflexivity.
Qed.

(** ** The sizes of the bins *)

Lemma count_if_Permutation {A : Type} (p : A -> bool) l l' :
  Permutation l l' -> count_if p l = count_if p l'.
Proof.
  induction 1; rewrite ?count_if_cons; lia.
Qed.

Lemma count_if_ext_in {A : Type} (p q : A -> bool) l :
  (forall z, In z l -> p z = q z) -> count_if p l = count_if q l.
Proof. intros H. unfold count_if. now rewrite (filter_ext_in _ _ _ H). Qed.

Lemma count_if_map {A B : Type} (f : A -> B) (p : B -> bool) l :
  count_if p (map f l) = count_if (fun z => p (f z)) l.
Proof.
  induction l as [|z l IH]; [reflexivity|].
  cbn [map]. rewrite !count_if_cons, IH. reflexivity.
Qed.

Lemma count_if_split {A : Type} (p q r : A -> bool) l :
  (forall z, In z l -> r z = p z || q z) ->
  (forall z, In z l -> p z = true -> q z = true -> False) ->
  count_if r l = (count_if p l + count_if q l)%nat.
Proof.
  induction l as [|z l IH]; intros Hr Hd; [reflexivity|].
  pose proof (IH (fun z Hz => Hr z (or_intror Hz)) (fun z Hz => Hd z (or_intror Hz))) as IH'.
  rewrite !count_if_cons, IH'.
  specialize (Hr z (or_introl eq_refl)). specialize (Hd z (or_introl eq_refl)).
  destruct (p z), (q z), (r z); cbn in *; try lia; try discriminate;
    exfalso; now apply Hd.
Qed.

Lemma count_le_ranks n : forall t,
  (t <= n)%nat -> count_if (fun v => v <=? Z.of_nat t) (ranks_upto n) = t.
Proof.
  induction n as [|n IH]; intros t Ht.
  - assert (t = 0%nat) by lia. subst. reflexivity.
  - rewrite ranks_upto_S, count_if_app, count_if_cons.
    destruct (Nat.eq_dec t (S n)) as [->|Hne].
    + rewrite (count_if_ext_in _ (fun v => v <=? Z.of_nat n)).
      * rewrite IH by lia. rewrite Z.leb_refl. cbn. lia.
      * intros v Hv. apply In_ranks_upto in Hv.
        destruct (Z.leb_spec v (Z.of_nat (S n))), (Z.leb_spec v (Z.of_nat n));
          try reflexivity; lia.
    + rewrite IH by lia.
      destruct (Z.leb_spec (Z.of_nat (S n)) (Z.of_nat t)); [lia|]. cbn. lia.
Qed.

Lemma count_bucket_le n j :
  (2 <= n)%nat -> 1 <= j <= 5 ->
  count_if (fun v => (bucket (Z.of_nat n) v <=? Z.to_nat j)%nat) (ranks_upto n)
  = Z.to_nat (j * (Z.of_nat n - 1) / 5 + 1).
Proof.
  intros Hn Hj.
  assert (Hq : 0 <= j * (Z.of_nat n - 1) / 5 <= Z.of_nat n - 1).
  { split; [apply Z.div_pos; nia | apply Z.div_le_upper_bound; nia]. }
  rewrite (count_if_ext_in _
             (fun v => v <=? Z.of_nat (Z.to_nat (j * (Z.of_nat n - 1) / 5 + 1)))).
  - apply count_le_ranks. lia.
  - intros v Hv. apply In_ranks_upto in Hv.
    pose proof (bucket_le (Z.of_nat n) v j ltac:(lia) Hv Hj) as Hb.
    pose proof (Z.mul_div_le (j * (Z.of_nat n - 1)) 5 ltac:(lia)).
    pose proof (Z.mul_succ_div_gt (j * (Z.of_nat n - 1)) 5 ltac:(lia)).
    destruct (Nat.leb_spec (bucket (Z.of_nat n) v) (Z.to_nat j)),
      (Z.leb_spec v (Z.of_nat (Z.to_nat (j * (Z.of_nat n - 1) / 5 + 1))));
      try reflexivity; exfalso; lia.
Qed.

Lemma count_bucket_eq n j :
  (2 <= n)%nat -> 1 <= j <= 5 ->
  count_if (fun v => (bucket (Z.of_nat n) v =? Z.to_nat j)%nat) (ranks_upto n)
  = Z.to_nat (bucket_count (Z.of_nat n) j).
Proof.
  intros Hn Hj. unfold bucket_count.
  assert (Hr : forall v, In v (ranks_upto n) -> (1 <= bucket (Z.of_nat n) v <= 5)%nat).
  { intros v Hv. apply bucket_range; [lia | now apply In_ranks_upto]. }
  destruct (Z.eqb_spec j 1) as [->|Hj1].
  - rewrite <- (Z.mul_1_l (Z.of_nat n - 1)) at 1. rewrite <- count_bucket_le by lia.
    apply count_if_ext_in. intros v Hv. specialize (Hr v Hv).
    destruct (Nat.eqb_spec (bucket (Z.of_nat n) v) (Z.to_nat 1)),
      (Nat.leb_spec (bucket (Z.of_nat n) v) (Z.to_nat 1)); try reflexivity; lia.
  - pose proof (count_bucket_le n j Hn Hj) as Hle.
    pose proof (count_bucket_le n (j - 1) Hn ltac:(lia)) as Hlt.
    rewrite (count_if_split
               (fun v => (bucket (Z.of_nat n) v <=? Z.to_nat (j - 1))%nat)
               (fun v => (bucket (Z.of_nat n) v =? Z.to_nat j)%nat)) in Hle.
    + assert (Hmono : (j - 1) * (Z.of_nat n - 1) / 5 <= j * (Z.of_nat n - 1) / 5)
        by (apply Z.div_le_mono; nia).
      assert (0 <= (j - 1) * (Z.of_nat n - 1) / 5) by (apply Z.div_pos; nia).
      lia.
    + intros v Hv.
      destruct (Nat.leb_spec (bucket (Z.of_nat n) v) (Z.to_nat j)),
        (Nat.leb_spec (bucket (Z.of_nat n) v) (Z.to_nat (j - 1))),
        (Nat.eqb_spec (bucket (Z.of_nat n) v) (Z.to_nat j)); try reflexivity; lia.
    + intros v Hv H1 H2. apply Nat.leb_le in H1. apply Nat.eqb_eq in H2. lia.
Qed.

Lemma bucket_count_balanced n i j :
  2 <= n -> 1 <= i <= 5 -> 1 <= j <= 5 ->
  0 <= bucket_count n i <= bucket_count n j + 1.
Proof.
  intros Hn Hi Hj. unfold bucket_count.
  assert (Hi' : i = 1 \/ i = 2 \/ i = 3 \/ i = 4 \/ i = 5) by lia.
  assert (Hj' : j = 1 \/ j = 2 \/ j = 3 \/ j = 4 \/ j = 5) by lia.
  destruct Hi' as [->|[->|[->|[->| ->]]]], Hj' as [->|[->|[->|[->| ->]]]];
    cbn [Z.eqb Pos.eqb Z.sub Z.add Z.opp Z.pos_sub Pos.pred_double];
    Z.div_mod_to_equations; lia.
Qed.

(** The cells of a score column that carry the label of bin [j] are the
    ranks of bin [j]. *)
Lemma bucket_size_scores x n labels j a :
  Permutation x (ranks_upto n) -> (2 <= n)%nat ->
  NoDup labels -> List.length labels = 5%nat ->
  1 <= j <= 5 -> nth_error labels (Z.to_nat j - 1) = Some a ->
  Z.of_nat (bucket_size (map (score_of (Z.of_nat n) labels) x) a)
  = bucket_count (Z.of_nat n) j.
Proof.
  intros Hp Hn Hnd Hl Hj Ha. unfold bucket_size. rewrite count_if_map.
  rewrite (count_if_Permutation _ _ _ Hp).
  rewrite (count_if_ext_in _ (fun v => (bucket (Z.of_nat n) v =? Z.to_nat j)%nat)).
  - rewrite count_bucket_eq by assumption.
    pose proof (bucket_count_balanced (Z.of_nat n) j j ltac:(lia) Hj Hj). lia.
  - intros v Hv. unfold score_of.
    pose proof (bucket_range (Z.of_nat n) v ltac:(lia)
                  (proj1 (In_ranks_upto n v) Hv)) as Hr.
    destruct (nth_error labels (bucket (Z.of_nat n) v - 1)) as [u|] eqn:Eu.
    + destruct (Z.eqb_spec u a) as [->|Hne], (Nat.eqb_spec (bucket (Z.of_nat n) v) (Z.to_nat j))
        as [E|E]; try reflexivity; exfalso.
      * rewrite <- Ha in Eu. apply NoDup_nth_error in Eu; [lia | assumption | lia].
      * rewrite E in Eu. congruence.
    + apply nth_error_None in Eu. lia.
Qed.

(** ** The three score columns *)

Lemma Zleb_total x y : (x <=? y) = true \/ (y <=? x) = true.
Proof. rewrite !Z.leb_le. lia. Qed.

Lemma Zleb_trans x y z : (x <=? y) = true -> (y <=? z) = true -> (x <=? z) = true.
Proof. rewrite !Z.leb_le. lia. Qed.

Lemma Qle_bool_total x y : Qle_bool x y = true \/ Qle_bool y x = true.
Proof.
  rewrite !Qle_bool_iff. destruct (Qlt_le_dec x y) as [H|H]; [left | right]; auto.
  now apply Qlt_le_weak.
Qed.

Lemma Qle_bool_trans x y z :
  Qle_bool x y = true -> Qle_bool y z = true -> Qle_bool x z = true.
Proof. rewrite !Qle_bool_iff. apply Qle_trans. Qed.

Section ScoreColumn.
Context {A : Type}.
Variable leb : A -> A -> bool.
Hypothesis leb_total : forall x y, leb x y = true \/ leb y x = true.
Hypothesis leb_trans :
  forall x y z, leb x y = true -> leb y z = true -> leb x z = true.
Variable labels : list Z.
Hypothesis labels_NoDup : NoDup labels.
Hypothesis labels_length : List.length labels = 5%nat.
Hypothesis labels_range : forall a, In a labels <-> 1 <= a <= 5.

Lemma label_bin a :
  1 <= a <= 5 -> exists j, 1 <= j <= 5 /\ nth_error labels (Z.to_nat j - 1) = Some a.
Proof.
  intros Ha. apply labels_range, In_nth_error in Ha as [i Hi].
  assert (i < 5)%nat
    by (rewrite <- labels_length; apply nth_error_Some; congruence).
  exists (Z.of_nat i + 1). split; [lia|].
  replace (Z.to_nat (Z.of_nat i + 1) - 1)%nat with i by lia. exact Hi.
Qed.

Lemma qcut_rank_column (col : list A) :
  (2 <= List.length col)%nat ->
  let n := Z.of_nat (List.length col) in
  let scores := map (score_of n labels) (rank_first leb col) in
  qcut (rank_first leb col) 5 labels = Ok scores
  /\ List.length scores = List.length col
  /\ in_range scores
  /\ balanced scores
  /\ (forall a j, 1 <= j <= 5 -> nth_error labels (Z.to_nat j - 1) = Some a ->
                  Z.of_nat (bucket_size scores a) = bucket_count n j).
Proof.
  intros Hn n scores.
  pose proof (rank_first_Permutation leb leb_total leb_trans col) as Hp.
  assert (Hsize : forall a j, 1 <= j <= 5 ->
            nth_error labels (Z.to_nat j - 1) = Some a ->
            Z.of_nat (bucket_size scores a) = bucket_count n j).
  { intros a j Hj Ha.
    exact (bucket_size_scores _ _ labels j a Hp Hn labels_NoDup labels_length Hj Ha). }
  split; [apply qcut_ranks; assumption|].
  split; [unfold scores; now rewrite length_map, rank_first_length|].
  split; [|split; [|exact Hsize]].
  - apply Forall_forall. intros cell Hc. unfold scores in Hc.
    apply in_map_iff in Hc as [v [<- Hv]].
    apply (Permutation_in _ Hp), In_ranks_upto in Hv.
    pose proof (bucket_range n v ltac:(lia) Hv) as Hr. unfold score_of.
    destruct (nth_error labels (bucket n v - 1)) as [u|] eqn:Eu.
    + exists u. split; [reflexivity|]. apply labels_range, (nth_error_In _ _ Eu).
    + apply nth_error_None in Eu. lia.
  - intros a b Ha Hb.
    destruct (label_bin a Ha) as [i [Hi Hia]], (label_bin b Hb) as [j [Hj Hjb]].
    pose proof (Hsize a i Hi Hia). pose proof (Hsize b j Hj Hjb).
    pose proof (bucket_count_balanced n i j ltac:(lia) Hi Hj). lia.
Qed.

Lemma qcut_rank_column_small (col : list A) :
  (List.length col < 2)%nat ->
  qcut (rank_first leb col) 5 labels
  = Err (ValueError "Bin edges must be unique").
Proof.
  intros Hn. apply (qcut_degenerate _ (List.length col)); [|exact Hn].
  apply rank_first_Permutation; assumption.
Qed.

End ScoreColumn.

(** ** Recency *)

Lemma analysis_date_spec df d :
  analysis_date df = Some d <->
  In d (map InvoiceDate df) /\ forall t, In t df -> InvoiceDate t <= d.
Proof.
  unfold analysis_date. rewrite max_ts_spec. split; intros [H1 H2]; (split; [exact H1|]).
  - intros t Ht. apply H2, in_map, Ht.
  - intros y Hy. apply in_map_iff in Hy as [t [<- Ht]]. auto.
Qed.

Lemma analysis_date_nonempty df : df <> [] -> exists d, analysis_date df = Some d.
Proof.
  intros H. apply max_ts_nonempty. destruct df; [contradiction | discriminate].
Qed.

Lemma Recency_Days_length df :
  List.length (Recency_Days df) = List.length (customer_orders df).
Proof.
  unfold Recency_Days. destruct (analysis_date df) eqn:E; [apply length_map|].
  destruct df; [reflexivity | discriminate E].
Qed.

Lemma In_transactions_of t c df :
  In t (transactions_of c df) <-> In t df /\ CustomerID t = c.
Proof. unfold transactions_of. rewrite filter_In, Z.eqb_eq. reflexivity. Qed.

(** The last purchase of an aggregate row is the greatest timestamp of the
    customer's transactions. *)
Lemma LastPurchase_spec r df :
  In r (customer_orders df) ->
  In (LastPurchase r) (map InvoiceDate (transactions_of (Customer_ID r) df))
  /\ forall t, In t (transactions_of (Customer_ID r) df) ->
               InvoiceDate t <= LastPurchase r.
Proof.
  intros Hr. apply In_customer_orders in Hr as [Er Hne].
  set (T := transactions_of _ df) in *. rewrite Er. cbn.
  assert (HD : map InvoiceDate T <> []) by (destruct T; [contradiction | discriminate]).
  destruct (max_ts_nonempty _ HD) as [hi Hhi]. rewrite Hhi. cbn.
  apply max_ts_spec in Hhi as [H1 H2]. split; [exact H1|].
  intros t Ht. apply H2, in_map, Ht.
Qed.

Lemma ns_per_day_pos : 0 < ns_per_day.
Proof. reflexivity. Qed.

Lemma Recency_Days_nonneg df v : In v (Recency_Days df) -> 0 <= v.
Proof.
  unfold Recency_Days. destruct (analysis_date df) as [d|] eqn:E; [|contradiction].
  intros Hv. apply in_map_iff in Hv as [r [<- Hr]].
  apply analysis_date_spec in E as [_ Hmax].
  destruct (LastPurchase_spec r df Hr) as [Hin _].
  apply in_map_iff in Hin as [t [<- Ht]]. apply In_transactions_of in Ht as [Ht _].
  specialize (Hmax t Ht). unfold days.
  apply Z.div_pos; [lia | apply ns_per_day_pos].
Qed.

Lemma count_if_none {A : Type} (p : A -> bool) l :
  (forall z, In z l -> p z = false) -> count_if p l = 0%nat.
Proof.
  induction l as [|z l IH]; intros H; [reflexivity|].
  rewrite count_if_cons, (H z) by now left. apply IH. intros; apply H; now right.
Qed.

(** The rank of a zero of a column without negative values: one more than
    the number of zeros on the rows before it. *)
Lemma rank_of_zero col before :
  (forall v, In v col -> 0 <= v) ->
  rank_of Z.leb col before 0
  = 1 + Z.of_nat (count_if (fun v => v =? 0) before).
Proof.
  intros Hpos. unfold rank_of.
  replace (count_if (fun y => below Z.leb y 0) col) with 0%nat.
  - rewrite (count_if_ext (fun y => tied Z.leb y 0) (fun v => v =? 0)); [lia|].
    intros z. unfold tied.
    destruct (Z.leb_spec z 0), (Z.leb_spec 0 z), (Z.eqb_spec z 0); try reflexivity; lia.
  - symmetry. apply count_if_none.
    intros y Hy. unfold below. specialize (Hpos y Hy).
    destruct (Z.leb_spec 0 y); [reflexivity | lia].
Qed.

Lemma score_R_is_5 n v :
  2 <= n -> 1 <= v <= n ->
  score_of n [5; 4; 3; 2; 1] v = Some 5 <-> 5 * (v - 1) <= n - 1.
Proof.
  intros Hn Hv. pose proof (bucket_range n v Hn Hv) as Hr.
  pose proof (bucket_le n v 1 Hn Hv ltac:(lia)) as Hle.
  rewrite Z.mul_1_l in Hle. rewrite <- Hle. unfold score_of.
  destruct (bucket n v) as [|[|[|[|[|[|b]]]]]]; cbn; try lia;
    split; intros H; try discriminate H; try reflexivity; lia.
Qed.

Lemma first_ranking_holds {A : Type} (leb : A -> A -> bool) (col : list A) :
  (forall x y, leb x y = true \/ leb y x = true) ->
  (forall x y z, leb x y = true -> leb y z = true -> leb x z = true) ->
  first_ranking leb col.
Proof.
  intros Htotal Htrans. split.
  - now apply rank_first_Permutation.
  - intros i j x y. now apply rank_first_ties.
Qed.

Lemma score_columns (df : list Transaction) :
  let n := List.length (customer_orders df) in
  let score col labels := map (score_of (Z.of_nat n) labels) col in
  (2 <= n)%nat ->
  R_Score_col df = Ok (score (rank_first Z.leb (Recency_Days df)) [5; 4; 3; 2; 1])
  /\ F_Score_col df
     = Ok (score (rank_first Z.leb (map OrderCount (customer_orders df))) [1; 2; 3; 4; 5])
  /\ M_Score_col df
     = Ok (score (rank_first Qle_bool (map TotalRevenue (customer_orders df)))
                 [1; 2; 3; 4; 5]).
Proof.
  intros n score Hn. unfold R_Score_col, F_Score_col, M_Score_col, score, n.
  split; [|split].
  - rewrite <- (Recency_Days_length df) at 1.
    apply qcut_ranks; [| rewrite Recency_Days_length; exact Hn | reflexivity].
    apply rank_first_Permutation; [apply Zleb_total | apply Zleb_trans].
  - rewrite <- (length_map OrderCount (customer_orders df)).
    apply qcut_ranks; [| rewrite length_map; exact Hn | reflexivity].
    apply rank_first_Permutation; [apply Zleb_total | apply Zleb_trans].
  - rewrite <- (length_map TotalRevenue (customer_orders df)).
    apply qcut_ranks; [| rewrite length_map; exact Hn | reflexivity].
    apply rank_first_Permutation; [apply Qle_bool_total | apply Qle_bool_trans].
Qed.

Lemma labels_up_range a : In a [1; 2; 3; 4; 5] <-> 1 <= a <= 5.
Proof. cbn. lia. Qed.

Lemma labels_down_range a : In a [5; 4; 3; 2; 1] <-> 1 <= a <= 5.
Proof. cbn. lia. Qed.

Lemma labels_up_NoDup : NoDup [1; 2; 3; 4; 5].
Proof. repeat constructor; cbn; lia. Qed.

Lemma labels_down_NoDup : NoDup [5; 4; 3; 2; 1].
Proof. repeat constructor; cbn; lia. Qed.

(** C3. For any population, the ranks behind each of the three scores are
    the numbers 1 to n, each taken once, ties ranked in row order; every
    score column that is assigned has one cell per customer, every cell an
    integer from 1 to 5, and no two of the five bins differ in size by
    more than one; and with two customers or more all three columns are
    assigned. *)
Theorem rfm_buckets_balanced (df : list Transaction) :
  let n := List.length (customer_orders df) in
  (first_ranking Z.leb (Recency_Days df)
   /\ first_ranking Z.leb (map OrderCount (customer_orders df))
   /\ first_ranking Qle_bool (map TotalRevenue (customer_orders df)))
  /\ (forall scores,
        In (Ok scores) [R_Score_col df; F_Score_col df; M_Score_col df] ->
        List.length scores = n /\ in_range scores /\ balanced scores)
  /\ ((2 <= n)%nat ->
      exists rs fs ms,
        R_Score_col df = Ok rs /\ F_Score_col df = Ok fs /\ M_Score_col df = Ok ms).
Proof.
  intros n. split; [|split].
  - split; [|split].
    + apply first_ranking_holds; [exact Zleb_total | exact Zleb_trans].
    + apply first_ranking_holds; [exact Zleb_total | exact Zleb_trans].
    + apply first_ranking_holds; [exact Qle_bool_total | exact Qle_bool_trans].
  - intros scores Hin.
    destruct (le_lt_dec 2 n) as [Hn|Hn].
    + destruct Hin as [H|[H|[H|[]]]].
      * pose proof (qcut_rank_column Z.leb Zleb_total Zleb_trans [5; 4; 3; 2; 1]
                      labels_down_NoDup eq_refl labels_down_range (Recency_Days df)
                      ltac:(rewrite Recency_Days_length; exact Hn)) as HR.
        cbv zeta in HR. destruct HR as [E [Hl [Hr [Hb _]]]].
        unfold R_Score_col in H. rewrite E in H. injection H as <-.
        split; [rewrite Hl; apply Recency_Days_length | split; assumption].
      * pose proof (qcut_rank_column Z.leb Zleb_total Zleb_trans [1; 2; 3; 4; 5]
                      labels_up_NoDup eq_refl labels_up_range
                      (map OrderCount (customer_orders df))
                      ltac:(rewrite length_map; exact Hn)) as HF.
        cbv zeta in HF. destruct HF as [E [Hl [Hr [Hb _]]]].
        unfold F_Score_col in H. rewrite E in H. injection H as <-.
        split; [rewrite Hl; apply length_map | split; assumption].
      * pose proof (qcut_rank_column Qle_bool Qle_bool_total Qle_bool_trans
                      [1; 2; 3; 4; 5] labels_up_NoDup eq_refl labels_up_range
                      (map TotalRevenue (customer_orders df))
                      ltac:(rewrite length_map; exact Hn)) as HM.
        cbv zeta in HM. destruct HM as [E [Hl [Hr [Hb _]]]].
        unfold M_Score_col in H. rewrite E in H. injection H as <-.
        split; [rewrite Hl; apply length_map | split; assumption].
    + exfalso. unfold R_Score_col, F_Score_col, M_Score_col in Hin.
      rewrite (qcut_rank_column_small Z.leb Zleb_total Zleb_trans _ (Recency_Days df))
        in Hin by (rewrite Recency_Days_length; exact Hn).
      rewrite (qcut_rank_column_small Z.leb Zleb_total Zleb_trans _
                 (map OrderCount (customer_orders df)))
        in Hin by (rewrite length_map; exact Hn).
      rewrite (qcut_rank_column_small Qle_bool Qle_bool_total Qle_bool_trans _
                 (map TotalRevenue (customer_orders df)))
        in Hin by (rewrite length_map; exact Hn).
      destruct Hin as [H|[H|[H|[]]]]; discriminate H.
  - intros Hn. destruct (score_columns df Hn) as [HR [HF HM]].
    eexists. eexists. eexists. split; [exact HR|]. split; [exact HF | exact HM].
Qed.

(** The five customers of the sample: one per bin in each dimension.
    Customers 2, 4 and 5 share the recency of 0 days and the order count
    of 1; their ranks, and so their scores, follow the row order. *)
Example rfm_scores_sample :
  Recency_Days sample = [1; 0; 7; 0; 0]
  /\ R_Score_col sample = Ok [Some 2; Some 5; Some 1; Some 4; Some 3]
  /\ F_Score_col sample = Ok [Some 4; Some 1; Some 5; Some 2; Some 3]
  /\ M_Score_col sample = Ok [Some 5; Some 3; Some 1; Some 2; Some 4].
Proof. repeat split; vm_compute; reflexivity. Qed.

(** C4, as the code has it. The analysis date is the greatest transaction
    timestamp of the data, and recency is the whole days from a customer's
    last purchase to it.  A customer whose transactions all carry that
    greatest timestamp has recency 0; with two customers or more that
    customer's Recency score is 5 exactly when five times the number of
    customers of recency 0 on the rows before it is at most the population
    minus one: ties at recency 0 are ranked in row order and only the first
    ones reach the top bin. *)
Theorem recency_score_of_latest_customer (df : list Transaction) (d : Z) :
  analysis_date df = Some d ->
  (In d (map InvoiceDate df) /\ forall t, In t df -> InvoiceDate t <= d)
  /\ Recency_Days df
     = map (fun r => (d - LastPurchase r) / ns_per_day) (customer_orders df)
  /\ forall i r,
       nth_error (customer_orders df) i = Some r ->
       (forall t, In t (transactions_of (Customer_ID r) df) -> InvoiceDate t = d) ->
       nth_error (Recency_Days df) i = Some 0
       /\ ((2 <= List.length (customer_orders df))%nat ->
           exists rs,
             R_Score_col df = Ok rs
             /\ (nth_error rs i = Some (Some 5)
                 <-> 5 * Z.of_nat (count_if (fun v => v =? 0)
                                            (firstn i (Recency_Days df)))
                     <= Z.of_nat (List.length (customer_orders df)) - 1)).
Proof.
  intros Hd. split; [apply analysis_date_spec, Hd|].
  assert (HR : Recency_Days df
               = map (fun r => (d - LastPurchase r) / ns_per_day) (customer_orders df)).
  { unfold Recency_Days. rewrite Hd. reflexivity. }
  split; [exact HR|]. intros i r Hi Hall.
  assert (Hzero : nth_error (Recency_Days df) i = Some 0).
  { rewrite HR, nth_error_map, Hi. cbn. do 2 f_equal.
    destruct (LastPurchase_spec r df (nth_error_In _ _ Hi)) as [Hin _].
    apply in_map_iff in Hin as [t [<- Ht]]. rewrite (Hall t Ht), Z.sub_diag.
    reflexivity. }
  split; [exact Hzero|]. intros Hn.
  destruct (score_columns df Hn) as [E _]. cbv zeta in E.
  eexists. split; [exact E|].
  pose proof (rank_first_nth Z.leb _ _ _ Hzero) as Hrank.
  rewrite nth_error_map, Hrank. cbn [option_map].
  rewrite rank_of_zero by apply Recency_Days_nonneg.
  set (z := count_if (fun v => v =? 0) (firstn i (Recency_Days df))).
  assert (Hz : (z <= i)%nat).
  { unfold z. etransitivity; [apply count_if_length|]. apply firstn_le_length. }
  assert (Hi' : (i < List.length (customer_orders df))%nat)
    by (apply nth_error_Some; congruence).
  pose proof (score_R_is_5 (Z.of_nat (List.length (customer_orders df)))
                (1 + Z.of_nat z) ltac:(lia) ltac:(lia)) as Hs.
  replace (1 + Z.of_nat z - 1) with (Z.of_nat z) in Hs by lia.
  rewrite <- Hs. split; intros H; [now injection H | now f_equal].
Qed.

Lemma recency_score_of_latest_customer_witness :
  analysis_date sample = Some (day 10)
  /\ nth_error (Recency_Days sample) 1 = Some 0
  /\ exists rs,
      R_Score_col sample = Ok rs
      /\ (nth_error rs 1 = Some (Some 5)
          <-> 5 * Z.of_nat (count_if (fun v => v =? 0)
                                     (firstn 1 (Recency_Days sample)))
              <= Z.of_nat (List.length (customer_orders sample)) - 1).
Proof.
  assert (Hd : analysis_date sample = Some (day 10)) by reflexivity.
  split; [exact Hd|].
  destruct (recency_score_of_latest_customer sample (day 10) Hd) as [_ [_ H]].
  destruct (H 1%nat (aggregate (2, transactions_of 2 sample)) eq_refl) as [Hz Hs].
  { cbn. intros t [<-|[]]. reflexivity. }
  split; [exact Hz|]. apply Hs. cbn. lia.
Defined.

(** The specification's scenario fails on the sample: customer 5 bought
    once, at the greatest timestamp of the data, and is scored 3, behind
    customers 2 and 4 who did the same on earlier rows. *)
Lemma latest_customer_not_always_5 : ~ spec_latest_customer_scores_5 sample.
Proof.
  intros H.
  destruct (H (day 10) 4%nat (aggregate (5, transactions_of 5 sample))
              eq_refl eq_refl) as [rs [E Hrs]].
  { cbn. intros t [<-|[]]. reflexivity. }
  destruct rfm_scores_sample as [_ [ER _]]. rewrite ER in E. injection E as <-.
  discriminate Hrs.
Qed.

(** ** Populations below five *)

Lemma empty_bin (scores : list (option Z)) (labels : list Z) (n : Z) :
  2 <= n < 5 -> List.length labels = 5%nat ->
  (forall a, In a labels <-> 1 <= a <= 5) ->
  (forall a j, 1 <= j <= 5 -> nth_error labels (Z.to_nat j - 1) = Some a ->
               Z.of_nat (bucket_size scores a) = bucket_count n j) ->
  exists a, 1 <= a <= 5 /\ bucket_size scores a = 0%nat.
Proof.
  intros Hn Hl Hrange Hsize.
  destruct labels as [|l1 [|l2 [|l3 [|l4 [|l5 [|]]]]]]; try discriminate Hl.
  assert (Hcases : n = 2 \/ n = 3 \/ n = 4) by lia.
  destruct Hcases as [->|[->| ->]].
  - exists l2. split; [apply Hrange; cbn; tauto|].
    pose proof (Hsize l2 2 ltac:(lia) eq_refl) as H. cbn in H. lia.
  - exists l2. split; [apply Hrange; cbn; tauto|].
    pose proof (Hsize l2 2 ltac:(lia) eq_refl) as H. cbn in H. lia.
  - exists l3. split; [apply Hrange; cbn; tauto|].
    pose proof (Hsize l3 3 ltac:(lia) eq_refl) as H. cbn in H. lia.
Qed.

Lemma bin_edges_length x q : List.length (bin_edges x q) = S q.
Proof. unfold bin_edges, linspace01. now rewrite !length_map, length_seq. Qed.

(** C8, as the code has it. The scoring has no branch on the size of the
    population.  With no customer or one, each [qcut] raises pandas'
    [ValueError] for duplicate bin edges and the script stops there; with
    two, three or four customers each [qcut] returns as on any population:
    six edges, five bins, every customer a score from 1 to 5, and at least
    one bin without a customer. *)
Theorem rfm_small_population (df : list Transaction) :
  let n := List.length (customer_orders df) in
  let raised : result (list (option Z)) :=
    Err (ValueError "Bin edges must be unique") in
  ((n < 2)%nat ->
   R_Score_col df = raised /\ F_Score_col df = raised /\ M_Score_col df = raised
   /\ snd (script df) = Some (ValueError "Bin edges must be unique"))
  /\ ((2 <= n < 5)%nat ->
      List.length (bin_edges (rank_first Z.leb (Recency_Days df)) 5) = 6%nat
      /\ exists rs fs ms,
          R_Score_col df = Ok rs /\ F_Score_col df = Ok fs /\ M_Score_col df = Ok ms
          /\ Forall (fun scores =>
                       List.length scores = n /\ in_range scores
                       /\ exists a, 1 <= a <= 5 /\ bucket_size scores a = 0%nat)
                    [rs; fs; ms]).
Proof.
  intros n raised. split.
  - intros Hn.
    assert (HR : R_Score_col df = raised).
    { apply (qcut_rank_column_small Z.leb Zleb_total Zleb_trans).
      rewrite Recency_Days_length. exact Hn. }
    split; [exact HR|]. split; [|split].
    + apply (qcut_rank_column_small Z.leb Zleb_total Zleb_trans).
      rewrite length_map. exact Hn.
    + apply (qcut_rank_column_small Qle_bool Qle_bool_total Qle_bool_trans).
      rewrite length_map. exact Hn.
    + unfold script, assignments. cbn [run]. rewrite HR. reflexivity.
  - intros Hn. split; [apply bin_edges_length|].
    pose proof (qcut_rank_column Z.leb Zleb_total Zleb_trans [5; 4; 3; 2; 1]
                  labels_down_NoDup eq_refl labels_down_range (Recency_Days df)
                  ltac:(rewrite Recency_Days_length; lia)) as HR.
    pose proof (qcut_rank_column Z.leb Zleb_total Zleb_trans [1; 2; 3; 4; 5]
                  labels_up_NoDup eq_refl labels_up_range
                  (map OrderCount (customer_orders df))
                  ltac:(rewrite length_map; lia)) as HF.
    pose proof (qcut_rank_column Qle_bool Qle_bool_total Qle_bool_trans
                  [1; 2; 3; 4; 5] labels_up_NoDup eq_refl labels_up_range
                  (map TotalRevenue (customer_orders df))
                  ltac:(rewrite length_map; lia)) as HM.
    cbv zeta in HR, HF, HM.
    rewrite Recency_Days_length in HR. rewrite length_map in HF, HM. fold n in HR, HF, HM.
    destruct HR as [ER [LR [RR [_ SR]]]], HF as [EF [LF [RF [_ SF]]]],
             HM as [EM [LM [RM [_ SM]]]].
    eexists. eexists. eexists.
    split; [exact ER|]. split; [exact EF|]. split; [exact EM|].
    repeat constructor; try assumption.
    + apply (empty_bin _ [5; 4; 3; 2; 1] (Z.of_nat n));
        [lia | reflexivity | apply labels_down_range | exact SR].
    + apply (empty_bin _ [1; 2; 3; 4; 5] (Z.of_nat n));
        [lia | reflexivity | apply labels_up_range | exact SF].
    + apply (empty_bin _ [1; 2; 3; 4; 5] (Z.of_nat n));
        [lia | reflexivity | apply labels_up_range | exact SM].
Qed.

(** Two customers: the scores 1 and 5 in each dimension, from five bins of
    which three are empty; one customer, or none: the exception. *)
Example rfm_scores_two_customers :
  map Customer_ID (customer_orders two_customers) = [1; 2]
  /\ bin_edges (rank_first Z.leb (Recency_Days two_customers)) 5
     = [Some (5 # 5); Some (6 # 5); Some (7 # 5);
        Some (8 # 5); Some (9 # 5); Some (10 # 5)]%Q
  /\ R_Score_col two_customers = Ok [Some 1; Some 5]
  /\ F_Score_col two_customers = Ok [Some 5; Some 1]
  /\ M_Score_col two_customers = Ok [Some 5; Some 1]
  /\ RFM_Segment two_customers = Ok ["Champions"; "Potential Loyalists"].
Proof. repeat split; vm_compute; reflexivity. Qed.

Example rfm_scores_one_customer :
  R_Score_col (firstn 3 sample) = Err (ValueError "Bin edges must be unique")
  /\ R_Score_col [] = Err (ValueError "Bin edges must be unique").
Proof. split; vm_compute; reflexivity. Qed.

(** The specification's demand fails on two customers: no error, six
    edges, and two different scores. *)
Lemma two_customers_not_handled : ~ spec_small_population_handled two_customers.
Proof.
  intros H. destruct rfm_scores_two_customers as [_ [HB [HR _]]].
  destruct H as [[e He]|[Hlen|[rs [s [Hrs Hall]]]]].
  - cbn. lia.
  - rewrite HR in He. discriminate He.
  - rewrite HB in Hlen. cbn in Hlen. lia.
  - rewrite HR in Hrs. injection Hrs as <-.
    inversion Hall as [|? ? H1 Hall']; subst. inversion Hall' as [|? ? H2 _]; subst.
    discriminate H2.
Qed.

(* ===================================================================== *)
(** * Part II, continued: further properties of the code                 *)
(* ===================================================================== *)

(** ** What the aggregation keeps *)

Lemma group_insert_Permutation {A : Type} (key : A -> Z) x gs :
  Permutation (List.concat (map snd (group_insert key x gs)))
              (x :: List.concat (map snd gs)).
Proof.
  induction gs as [|[k xs] gs IH]; cbn; [reflexivity|].
  destruct (key x <? k); [reflexivity|].
  destruct (key x =? k); cbn.
  - rewrite <- app_assoc. cbn. symmetry. apply Permutation_middle.
  - rewrite IH. symmetry. apply Permutation_middle.
Qed.

Lemma groupby_Permutation {A : Type} (key : A -> Z) l :
  Permutation (List.concat (map snd (groupby key l))) l.
Proof.
  unfold groupby.
  assert (H : forall gs,
             Permutation
               (List.concat (map snd (fold_left (fun gs x => group_insert key x gs) l gs)))
               (l ++ List.concat (map snd gs))).
  { induction l as [|x l IH]; intros gs; cbn; [reflexivity|].
    rewrite IH, group_insert_Permutation. symmetry. apply Permutation_middle. }
  rewrite H. cbn. now rewrite app_nil_r.
Qed.

Lemma sum_Permutation l l' : Permutation l l' -> (sum l == sum l')%Q.
Proof.
  intros H. rewrite !sum_fold_right.
  induction H; cbn; try reflexivity.
  - now rewrite IHPermutation.
  - ring.
  - now rewrite IHPermutation1.
Qed.

Lemma sum_app l l' : (sum (l ++ l') == sum l + sum l')%Q.
Proof.
  rewrite !sum_fold_right. induction l as [|x l IH]; cbn; [ring|].
  rewrite IH. ring.
Qed.

Lemma sum_cons x l : (sum (x :: l) == x + sum l)%Q.
Proof. rewrite !sum_fold_right. reflexivity. Qed.

Lemma sum_groups (gs : list (Z * list Transaction)) :
  (sum (map TotalRevenue (map aggregate gs))
   == sum (map TotalAmount (List.concat (map snd gs))))%Q.
Proof.
  induction gs as [|g gs IH]; cbn [map List.concat]; [reflexivity|].
  rewrite sum_cons, map_app, sum_app, IH. reflexivity.
Qed.

Lemma count_groups (gs : list (Z * list Transaction)) :
  fold_right Z.add 0 (map TotalTransactions (map aggregate gs))
  = Z.of_nat (List.length (List.concat (map snd gs))).
Proof.
  induction gs as [|g gs IH]; cbn [map List.concat fold_right]; [reflexivity|].
  rewrite IH, length_app. cbn. unfold count. lia.
Qed.

(** X1. The aggregation neither loses nor repeats a line item: the total
    revenues of the customers add up to the sum of all line totals, and
    their transaction counts to the number of rows of the table. *)
Theorem customer_orders_conserves (df : list Transaction) :
  (sum (map TotalRevenue (customer_orders df)) == sum (map TotalAmount df))%Q
  /\ fold_right Z.add 0 (map TotalTransactions (customer_orders df))
     = Z.of_nat (List.length df).
Proof.
  unfold customer_orders. split.
  - rewrite sum_groups. apply sum_Permutation, Permutation_map, groupby_Permutation.
  - rewrite count_groups. f_equal. apply Permutation_length, groupby_Permutation.
Qed.

(** X2. The rows of the aggregate stand in strictly increasing order of
    customer identifier, and there is a row for an identifier only when the
    table has a transaction of that customer. *)
Theorem customer_orders_sorted (df : list Transaction) :
  StronglySorted Z.lt (map Customer_ID (customer_orders df))
  /\ forall c, In c (map Customer_ID (customer_orders df))
               <-> In c (map CustomerID df).
Proof.
  rewrite Customer_ID_column. split.
  - apply keys_groupby_sorted.
  - intros c. apply In_keys_groupby.
Qed.

(** ** One-time and repeat buyers *)

Lemma customer_type_cases n :
  (customer_type n =? "One-Time Buyer")%string = (n =? 1)
  /\ (customer_type n =? "Repeat Buyer")%string = negb (n =? 1).
Proof. unfold customer_type. destruct (n =? 1); split; reflexivity. Qed.

Lemma filter_negb_length {A : Type} (p : A -> bool) l :
  (List.length (filter p l) + List.length (filter (fun x => negb (p x)) l)
   = List.length l)%nat.
Proof.
  induction l as [|x l IH]; cbn; [reflexivity|]. destruct (p x); cbn; lia.
Qed.

Lemma sum_filter_split {A : Type} (f : A -> Q) (p : A -> bool) l :
  (sum (map f (filter p l)) + sum (map f (filter (fun x => negb (p x)) l))
   == sum (map f l))%Q.
Proof.
  induction l as [|x l IH]; cbn [filter map]; [reflexivity|].
  destruct (p x); cbn [negb map]; rewrite !sum_cons, <- IH; ring.
Qed.

(** X3. The rows of type 'One-Time Buyer' and those of type 'Repeat Buyer'
    split the aggregate: together they are as many as the customers and
    their revenues add up to the revenue of all customers; the first are
    the rows of order count 1, and the second are exactly the rows that the
    purchase-frequency step selects by order count above 1. *)
Theorem one_time_repeat_split (df : list Transaction) :
  let co := customer_orders df in
  (List.length (one_time co) + List.length (repeat co) = List.length co)%nat
  /\ (sum (map TotalRevenue (one_time co)) + sum (map TotalRevenue (repeat co))
      == sum (map TotalRevenue co))%Q
  /\ (forall r, In r (one_time co) <-> In r co /\ OrderCount r = 1)
  /\ repeat co = repeat_customers co.
Proof.
  intros co. unfold one_time, repeat, of_type. split; [|split; [|split]].
  - rewrite (filter_ext _ (fun r => OrderCount r =? 1))
      by (intros r; apply customer_type_cases).
    rewrite (filter_ext (fun r => (customer_type (OrderCount r) =? "Repeat Buyer")%string)
               (fun r => negb (OrderCount r =? 1)))
      by (intros r; apply customer_type_cases).
    apply filter_negb_length.
  - rewrite (filter_ext _ (fun r => OrderCount r =? 1))
      by (intros r; apply customer_type_cases).
    rewrite (filter_ext (fun r => (customer_type (OrderCount r) =? "Repeat Buyer")%string)
               (fun r => negb (OrderCount r =? 1)))
      by (intros r; apply customer_type_cases).
    apply sum_filter_split.
  - intros r. rewrite filter_In, (proj1 (customer_type_cases _)), Z.eqb_eq. reflexivity.
  - unfold repeat_customers. apply filter_ext_in. intros r Hr.
    rewrite (proj2 (customer_type_cases _)).
    apply In_customer_orders in Hr as [Er Hne].
    assert (H1 : 1 <= OrderCount r).
    { rewrite Er. cbn. apply nunique_pos.
      destruct (transactions_of (Customer_ID r) df); [contradiction | discriminate]. }
    destruct (Z.eqb_spec (OrderCount r) 1), (Z.ltb_spec 1 (OrderCount r));
      try reflexivity; lia.
Qed.

(** Outside the aggregate the two selections differ: a row of order count
    0 is of type 'Repeat Buyer' and is not selected by order count above
    1. *)
Example repeat_of_zero_orders :
  let r := mkCustomerRow 7 0 0 0 0 0 0 in
  repeat [r] = [r] /\ repeat_customers [r] = [].
Proof. split; reflexivity. Qed.

(** ** New customers, transaction by transaction *)

Lemma BuyerType_cell df i t :
  nth_error df i = Some t ->
  nth_error (BuyerType df) i
  = Some (buyer_type
            (InvoiceDate t =? ts_or_zero (min_ts (map InvoiceDate
                                (transactions_of (CustomerID t) df))))).
Proof. intros Hi. rewrite BuyerType_rows, nth_error_map, Hi. reflexivity. Qed.

(** X4. Every customer of the table has a transaction typed 'New
    Customer'; all transactions of the customer typed so carry one
    timestamp, and every transaction of the customer typed 'Repeat
    Customer' is strictly later.  A customer is thus new at one instant,
    hence in one month of the monthly table. *)
Theorem new_customer_once (df : list Transaction) (c : Z) :
  In c (map CustomerID df) ->
  (exists i t, nth_error df i = Some t /\ CustomerID t = c
               /\ nth_error (BuyerType df) i = Some "New Customer")
  /\ (forall i j t t',
        nth_error df i = Some t -> nth_error df j = Some t' ->
        CustomerID t = c -> CustomerID t' = c ->
        nth_error (BuyerType df) i = Some "New Customer" ->
        (nth_error (BuyerType df) j = Some "New Customer" ->
         InvoiceDate t' = InvoiceDate t)
        /\ (nth_error (BuyerType df) j = Some "Repeat Customer" ->
            InvoiceDate t < InvoiceDate t')).
Proof.
  intros Hc.
  set (m := ts_or_zero (min_ts (map InvoiceDate (transactions_of c df)))).
  destruct (least_timestamp_min_ts df c Hc) as [Hin Hleast]. fold m in Hin, Hleast.
  split.
  - apply in_map_iff in Hin as [t [Ht Hin]].
    apply In_transactions_of in Hin as [Hdf Hct].
    destruct (In_nth_error _ _ Hdf) as [i Hi].
    exists i, t. split; [exact Hi|]. split; [exact Hct|].
    rewrite (BuyerType_cell _ _ _ Hi), Hct. fold m. rewrite Ht, Z.eqb_refl. reflexivity.
  - intros i j t t' Hi Hj Hct Hct' Hnew.
    rewrite (BuyerType_cell _ _ _ Hi), Hct in Hnew. fold m in Hnew.
    rewrite (BuyerType_cell _ _ _ Hj), Hct'. fold m.
    assert (Ht : InvoiceDate t = m).
    { destruct (Z.eqb_spec (InvoiceDate t) m); [assumption | discriminate Hnew]. }
    assert (Hle : m <= InvoiceDate t').
    { apply Hleast, In_transactions_of. split; [exact (nth_error_In _ _ Hj) | exact Hct']. }
    destruct (Z.eqb_spec (InvoiceDate t') m); cbn; split; intros H;
      try discriminate H; lia.
Qed.

Lemma new_customer_once_witness :
  In 1 (map CustomerID sample)
  /\ exists i t, nth_error sample i = Some t /\ CustomerID t = 1
                 /\ nth_error (BuyerType sample) i = Some "New Customer".
Proof.
  assert (H : In 1 (map CustomerID sample)) by (cbn; tauto).
  split; [exact H|]. exact (proj1 (new_customer_once sample 1 H)).
Defined.

(** ** Recency and lifetime *)

Lemma FirstPurchase_le_LastPurchase r df :
  In r (customer_orders df) -> FirstPurchase r <= LastPurchase r.
Proof.
  intros Hr. apply In_customer_orders in Hr as [-> Hne]. cbn.
  set (T := transactions_of _ df) in *.
  assert (HD : map InvoiceDate T <> []) by (destruct T; [contradiction | discriminate]).
  destruct (min_ts_nonempty _ HD) as [lo Hlo], (max_ts_nonempty _ HD) as [hi Hhi].
  rewrite Hlo, Hhi. cbn.
  apply min_ts_spec in Hlo as [Hin _]. apply max_ts_spec in Hhi as [_ Hge].
  exact (Hge _ Hin).
Qed.

(** X5. No recency and no customer lifetime is negative, and on a table
    with a row the least recency is 0: the customer of the latest
    transaction has it. *)
Theorem recency_from_zero (df : list Transaction) :
  (forall v, In v (Recency_Days df) -> 0 <= v)
  /\ (forall r, In r (customer_orders df) -> 0 <= CustomerLifetime_Days r)
  /\ (df <> [] -> In 0 (Recency_Days df)).
Proof.
  split; [apply Recency_Days_nonneg|]. split.
  - intros r Hr. unfold CustomerLifetime_Days, days.
    apply Z.div_pos; [|apply ns_per_day_pos].
    pose proof (FirstPurchase_le_LastPurchase r df Hr). lia.
  - intros Hne. destruct (analysis_date_nonempty df Hne) as [d Hd].
    unfold Recency_Days. rewrite Hd.
    apply analysis_date_spec in Hd as [Hin Hmax].
    apply in_map_iff in Hin as [t [Ht Hdf]].
    set (c := CustomerID t).
    assert (HT : In t (transactions_of c df))
      by (apply In_transactions_of; split; [assumption | reflexivity]).
    assert (Hr : In (aggregate (c, transactions_of c df)) (customer_orders df)).
    { apply In_customer_orders. cbn. split; [reflexivity|].
      intros E. rewrite E in HT. exact HT. }
    apply in_map_iff. exists (aggregate (c, transactions_of c df)).
    split; [|exact Hr].
    destruct (LastPurchase_spec _ _ Hr) as [Hlast Hge]. cbn [Customer_ID aggregate fst] in *.
    apply in_map_iff in Hlast as [t' [Ht' Hin']].
    apply In_transactions_of in Hin' as [Hdf' _].
    specialize (Hmax _ Hdf'). specialize (Hge _ HT).
    replace (LastPurchase (aggregate (c, transactions_of c df))) with d by lia.
    rewrite Z.sub_diag. reflexivity.
Qed.

(** ** The run of the script *)

Lemma zip_rows_length rs fs ms n :
  List.length rs = n -> List.length fs = n -> List.length ms = n ->
  List.length (zip_rows rs fs ms) = n.
Proof.
  revert fs ms n. induction rs as [|r rs IH]; intros [|f fs] [|m ms] n Hr Hf Hm;
    cbn in *; try congruence.
  destruct n as [|n]; [discriminate|]. f_equal. apply IH; congruence.
Qed.

Lemma set_column_fresh label c fr :
  ~ In label (map fst fr) -> set_column label c fr = fr ++ [(label, c)].
Proof.
  induction fr as [|[l c'] fr IH]; cbn; intros Hn; [reflexivity|].
  destruct (String.eqb_spec l label) as [->|_]; [tauto|].
  rewrite IH by tauto. reflexivity.
Qed.

(** Assignments to labels the frame does not carry yet append their
    columns, up to the first one that raises. *)
Lemma run_fresh steps : forall fr,
  NoDup (map fst steps) ->
  (forall l, In l (map fst steps) -> ~ In l (map fst fr)) ->
  (forall cols, map snd steps = map Ok cols ->
                run steps fr = (fr ++ combine (map fst steps) cols, None))
  /\ (forall done e rest cols,
        steps = done ++ rest -> map snd done = map Ok cols ->
        hd_error (map snd rest) = Some (Err e) ->
        run steps fr = (fr ++ combine (map fst done) cols, Some e)).
Proof.
  induction steps as [|[l [c|e0]] steps IH]; intros fr Hnd Hfresh.
  - split.
    + intros [|? ?] H; [|discriminate H]. cbn. now rewrite app_nil_r.
    + intros done e rest cols E _ He. apply eq_sym, app_eq_nil in E as [-> ->].
      discriminate He.
  - cbn [run]. inversion Hnd as [|? ? Hl Hnd']; subst.
    assert (Hl' : ~ In l (map fst fr)) by (apply Hfresh; now left).
    rewrite set_column_fresh by exact Hl'.
    destruct (IH (fr ++ [(l, c)]) Hnd') as [IH1 IH2].
    { intros l' Hin. rewrite map_app, in_app_iff. cbn.
      intros [H|[<-|[]]]; [|exact (Hl Hin)].
      apply (Hfresh l'); [now right | exact H]. }
    split.
    + intros [|c1 cols] H; [discriminate H|]. cbn in H. injection H as <- H.
      rewrite (IH1 cols H), <- app_assoc. reflexivity.
    + intros [|d done] e rest cols E Hd He.
      * cbn in E. subst rest. discriminate He.
      * cbn in E. injection E as <- E. destruct cols as [|c1 cols]; [discriminate Hd|].
        cbn in Hd. injection Hd as <- Hd.
        rewrite (IH2 done e rest cols E Hd He), <- app_assoc. reflexivity.
  - cbn [run]. split.
    + intros [|? ?] H; discriminate H.
    + intros [|d done] e rest cols E Hd He.
      * cbn in E. subst rest. cbn in He. injection He as <-.
        destruct cols; [|discriminate Hd]. cbn. now rewrite app_nil_r.
      * cbn in E. injection E as <- _. destruct cols; discriminate Hd.
Qed.

Lemma assignments_labels df : map fst (assignments df) = assigned_labels.
Proof. reflexivity. Qed.

Lemma assigned_labels_fresh df :
  NoDup (map fst (assignments df))
  /\ forall l, In l (map fst (assignments df)) ->
               ~ In l (map fst (aggregate_columns (customer_orders df))).
Proof.
  rewrite assignments_labels. split.
  - repeat constructor; cbn; intros H;
      repeat (destruct H as [H|H]; [discriminate H|]); exact H.
  - intros l Hl H. cbn in Hl, H.
    repeat (destruct Hl as [<-|Hl];
            [repeat (destruct H as [H|H]; [discriminate H|]); exact H|]).
    exact Hl.
Qed.

(** The frame the script ends with, and how it ends. *)
Lemma script_run (df : list Transaction) :
  let co := customer_orders df in
  let n := List.length co in
  let rs := map (score_of (Z.of_nat n) [5; 4; 3; 2; 1])
                (rank_first Z.leb (Recency_Days df)) in
  let fs := map (score_of (Z.of_nat n) [1; 2; 3; 4; 5])
                (rank_first Z.leb (map OrderCount co)) in
  let ms := map (score_of (Z.of_nat n) [1; 2; 3; 4; 5])
                (rank_first Qle_bool (map TotalRevenue co)) in
  let first_four :=
    [StrCol (CustomerSegment co); StrCol (CustomerType co);
     IntCol (map CustomerLifetime_Days co); IntCol (Recency_Days df)] in
  ((2 <= n)%nat ->
   script df
   = (aggregate_columns co
      ++ combine assigned_labels
           (first_four
            ++ [CatCol rs; CatCol fs; CatCol ms;
                StrCol (map (fun row => score_str (R_Score row)
                                        ++ score_str (F_Score row)
                                        ++ score_str (M_Score row))%string
                            (zip_rows rs fs ms));
                StrCol (map categorize_rfm (zip_rows rs fs ms))]),
      None))
  /\ ((n < 2)%nat ->
      script df
      = (aggregate_columns co ++ combine (firstn 4 assigned_labels) first_four,
         Some (ValueError "Bin edges must be unique"))).
Proof.
  intros co n rs fs ms first_four.
  destruct (assigned_labels_fresh df) as [Hnd Hfresh].
  destruct (run_fresh (assignments df) (aggregate_columns co) Hnd Hfresh)
    as [Hok Hstop].
  split; intros Hn; unfold script; fold co.
  - destruct (score_columns df Hn) as [HR [HF HM]]. cbv zeta in HR, HF, HM.
    fold co n in HR, HF, HM. fold rs in HR. fold fs in HF. fold ms in HM.
    rewrite (Hok (first_four
                  ++ [CatCol rs; CatCol fs; CatCol ms;
                      StrCol (map (fun row => score_str (R_Score row)
                                              ++ score_str (F_Score row)
                                              ++ score_str (M_Score row))%string
                                  (zip_rows rs fs ms));
                      StrCol (map categorize_rfm (zip_rows rs fs ms))])).
    + reflexivity.
    + unfold assignments, RFM_Score, RFM_Segment. rewrite HR, HF, HM. reflexivity.
  - assert (HR : R_Score_col df = Err (ValueError "Bin edges must be unique")).
    { apply (qcut_rank_column_small Z.leb Zleb_total Zleb_trans).
      rewrite Recency_Days_length. exact Hn. }
    rewrite (Hstop (firstn 4 (assignments df)) (ValueError "Bin edges must be unique")
                   (skipn 4 (assignments df)) first_four eq_refl eq_refl).
    + reflexivity.
    + cbn. rewrite HR. reflexivity.
Qed.

(** X6. The script gets through its assignments exactly when the table
    has two customers or more.  The frame then carries the seven aggregate
    columns followed by the nine assigned ones; with fewer customers it
    stops at the first score with the aggregate columns and the four
    assigned before it.  In both cases every column of the frame has one
    cell per customer. *)
Theorem script_completes_iff (df : list Transaction) :
  let n := List.length (customer_orders df) in
  (snd (script df) = None <-> (2 <= n)%nat)
  /\ ((2 <= n)%nat ->
      map fst (fst (script df)) = aggregate_labels ++ assigned_labels)
  /\ ((n < 2)%nat ->
      map fst (fst (script df)) = aggregate_labels ++ firstn 4 assigned_labels)
  /\ Forall (fun column => column_length (snd column) = n) (fst (script df)).
Proof.
  intros n. destruct (script_run df) as [Hok Hstop]. cbv zeta in Hok, Hstop.
  fold n in Hok, Hstop.
  assert (Hbase : Forall (fun column => column_length (snd column) = n)
                         (aggregate_columns (customer_orders df))).
  { repeat constructor; cbn; apply length_map. }
  assert (Hfour : Forall (fun column => column_length (snd column) = n)
            (combine (firstn 4 assigned_labels)
               [StrCol (CustomerSegment (customer_orders df));
                StrCol (CustomerType (customer_orders df));
                IntCol (map CustomerLifetime_Days (customer_orders df));
                IntCol (Recency_Days df)])).
  { unfold CustomerSegment, CustomerType.
    repeat constructor; cbn [snd column_length]; rewrite ?length_map;
      try reflexivity; apply Recency_Days_length. }
  destruct (le_lt_dec 2 n) as [Hn|Hn].
  - rewrite (Hok Hn). cbn [fst snd].
    split; [split; [intros _; exact Hn | reflexivity]|].
    split; [intros _; rewrite map_app; reflexivity|].
    split; [intros; lia|].
    apply Forall_app. split; [exact Hbase|].
    set (rs := map (score_of (Z.of_nat n) [5; 4; 3; 2; 1]) _).
    set (fs := map (score_of (Z.of_nat n) [1; 2; 3; 4; 5])
                   (rank_first Z.leb _)).
    set (ms := map (score_of (Z.of_nat n) [1; 2; 3; 4; 5])
                   (rank_first Qle_bool _)).
    assert (LR : List.length rs = n).
    { unfold rs. rewrite length_map, rank_first_length. apply Recency_Days_length. }
    assert (LF : List.length fs = n).
    { unfold fs. rewrite length_map, rank_first_length. apply length_map. }
    assert (LM : List.length ms = n).
    { unfold ms. rewrite length_map, rank_first_length. apply length_map. }
    cbn [combine assigned_labels app].
    inversion Hfour as [|? ? H1 Hfour1]; subst.
    inversion Hfour1 as [|? ? H2 Hfour2]; subst.
    inversion Hfour2 as [|? ? H3 Hfour3]; subst.
    inversion Hfour3 as [|? ? H4 _]; subst.
    repeat (constructor; [first [assumption | cbn [snd column_length];
      rewrite ?length_map; first [assumption | apply zip_rows_length; assumption]]|]).
    constructor.
  - rewrite (Hstop Hn). cbn [fst snd].
    split; [split; [discriminate | intros; lia]|].
    split; [intros; lia|]. split; [intros _; rewrite map_app; reflexivity|].
    apply Forall_app. split; [exact Hbase | exact Hfour].
Qed.

(** ** Scores follow the values *)

Lemma nth_error_two {A : Type} (col : list A) i j x y :
  (i < j)%nat -> nth_error col i = Some x -> nth_error col j = Some y ->
  exists l1 l2 l3,
    col = l1 ++ x :: l2 ++ y :: l3
    /\ firstn i col = l1 /\ firstn j col = l1 ++ x :: l2.
Proof.
  intros Hij Hi Hj.
  destruct (nth_error_split col i Hi) as [l1 [l' [Hcol Hl1]]].
  assert (Hj' : nth_error l' (j - i - 1) = Some y).
  { rewrite Hcol in Hj. rewrite nth_error_app2 in Hj by lia.
    rewrite Hl1 in Hj. replace (j - i)%nat with (S (j - i - 1)) in Hj by lia.
    exact Hj. }
  destruct (nth_error_split l' (j - i - 1) Hj') as [l2 [l3 [Hl' Hl2]]].
  exists l1, l2, l3. subst l'. split; [exact Hcol|]. split.
  - rewrite Hcol, <- Hl1, firstn_app, Nat.sub_diag, firstn_all. cbn.
    apply app_nil_r.
  - rewrite Hcol, firstn_app, Hl1.
    rewrite (firstn_all2 l1) by lia. f_equal.
    replace (j - i)%nat with (S (List.length l2)) by lia. cbn. f_equal.
    rewrite firstn_app, Nat.sub_diag, firstn_all. cbn. apply app_nil_r.
Qed.

Section Monotone.
Context {A : Type}.
Variable leb : A -> A -> bool.
Hypothesis leb_total : forall x y, leb x y = true \/ leb y x = true.
Hypothesis leb_trans :
  forall x y z, leb x y = true -> leb y z = true -> leb x z = true.

(** A strictly smaller value has a strictly smaller rank, wherever the two
    rows stand. *)
Lemma rank_first_monotone (col : list A) i j x y :
  nth_error col i = Some x -> nth_error col j = Some y ->
  below leb x y = true ->
  rank_of leb col (firstn i col) x < rank_of leb col (firstn j col) y.
Proof.
  intros Hi Hj Hxy.
  assert (Hyx : below leb y x = false).
  { unfold below in *. destruct (leb_total x y) as [H|H]; [now rewrite H|].
    rewrite H in Hxy. discriminate. }
  destruct (Nat.lt_trichotomy i j) as [Hij|[->|Hji]].
  - destruct (nth_error_two col i j x y Hij Hi Hj) as [l1 [l2 [l3 [Hcol [-> ->]]]]].
    rewrite Hcol at 1 2.
    now apply (rank_of_lt leb leb_total leb_trans l1 x l2 y l3).
  - rewrite Hi in Hj. injection Hj as ->.
    rewrite (below_irrefl leb leb_total) in Hxy. discriminate.
  - destruct (nth_error_two col j i y x Hji Hj Hi) as [l1 [l2 [l3 [Hcol [-> ->]]]]].
    rewrite Hcol at 1 2.
    now apply (rank_of_lt leb leb_total leb_trans l1 y l2 x l3).
Qed.

Lemma rank_of_range (col : list A) i x :
  nth_error col i = Some x ->
  1 <= rank_of leb col (firstn i col) x <= Z.of_nat (List.length col).
Proof.
  intros Hi. destruct (nth_error_split col i Hi) as [l1 [l2 [Hcol Hl1]]].
  assert (E : firstn i col = l1).
  { rewrite Hcol, <- Hl1, firstn_app, Nat.sub_diag, firstn_all. cbn.
    apply app_nil_r. }
  rewrite E. clear E. subst col.
  apply (rank_of_bounds leb leb_total l1 x l2).
Qed.
End Monotone.

Lemma bucket_monotone n v v' :
  2 <= n -> 1 <= v -> v <= v' -> v' <= n -> (bucket n v <= bucket n v')%nat.
Proof.
  intros Hn Hv Hvv' Hv'.
  pose proof (bucket_range n v' Hn ltac:(lia)) as Hr.
  pose proof (bucket_le n v (Z.of_nat (bucket n v')) Hn ltac:(lia) ltac:(lia)) as H.
  pose proof (bucket_le n v' (Z.of_nat (bucket n v')) Hn ltac:(lia) ltac:(lia)) as H'.
  rewrite Nat2Z.id in H, H'.
  apply H. assert (5 * (v' - 1) <= Z.of_nat (bucket n v') * (n - 1)) by (apply H'; lia).
  lia.
Qed.

Lemma score_up n v :
  2 <= n -> 1 <= v <= n ->
  score_of n [1; 2; 3; 4; 5] v = Some (Z.of_nat (bucket n v)).
Proof.
  intros Hn Hv. pose proof (bucket_range n v Hn Hv) as Hr. unfold score_of.
  destruct (bucket n v) as [|[|[|[|[|[|b]]]]]]; cbn; try lia; reflexivity.
Qed.

Lemma score_down n v :
  2 <= n -> 1 <= v <= n ->
  score_of n [5; 4; 3; 2; 1] v = Some (6 - Z.of_nat (bucket n v)).
Proof.
  intros Hn Hv. pose proof (bucket_range n v Hn Hv) as Hr. unfold score_of.
  destruct (bucket n v) as [|[|[|[|[|[|b]]]]]]; cbn; try lia; reflexivity.
Qed.

(** The scores of two rows of a column, the first with the strictly
    smaller value: not decreasing under the labels 1..5, not increasing
    under the labels 5..1. *)
Lemma score_column_monotone {A : Type} (leb : A -> A -> bool) (col : list A) i j x y :
  (forall x y, leb x y = true \/ leb y x = true) ->
  (forall x y z, leb x y = true -> leb y z = true -> leb x z = true) ->
  (2 <= List.length col)%nat ->
  nth_error col i = Some x -> nth_error col j = Some y ->
  below leb x y = true ->
  let n := Z.of_nat (List.length col) in
  exists bi bj,
    (bi <= bj)%nat
    /\ nth_error (map (score_of n [1; 2; 3; 4; 5]) (rank_first leb col)) i
       = Some (Some (Z.of_nat bi))
    /\ nth_error (map (score_of n [1; 2; 3; 4; 5]) (rank_first leb col)) j
       = Some (Some (Z.of_nat bj))
    /\ nth_error (map (score_of n [5; 4; 3; 2; 1]) (rank_first leb col)) i
       = Some (Some (6 - Z.of_nat bi))
    /\ nth_error (map (score_of n [5; 4; 3; 2; 1]) (rank_first leb col)) j
       = Some (Some (6 - Z.of_nat bj)).
Proof.
  intros Htot Htr Hn Hi Hj Hxy n.
  pose proof (rank_first_monotone leb Htot Htr col i j x y Hi Hj Hxy) as Hlt.
  pose proof (rank_of_range leb Htot col i x Hi) as Hri.
  pose proof (rank_of_range leb Htot col j y Hj) as Hrj.
  fold n in Hri, Hrj.
  exists (bucket n (rank_of leb col (firstn i col) x)),
         (bucket n (rank_of leb col (firstn j col) y)).
  split; [apply bucket_monotone; lia|].
  rewrite !nth_error_map, (rank_first_nth leb col i x Hi),
    (rank_first_nth leb col j y Hj). cbn [option_map].
  rewrite !score_up, !score_down by lia. repeat split; reflexivity.
Qed.

Lemma below_Zleb x y : below Z.leb x y = (x <? y).
Proof.
  unfold below. destruct (Z.leb_spec y x), (Z.ltb_spec x y); try reflexivity; lia.
Qed.

Lemma below_Qle_bool x y : (x < y)%Q -> below Qle_bool x y = true.
Proof.
  intros H. unfold below. destruct (Qle_bool y x) eqn:E; [|reflexivity].
  apply Qle_bool_iff in E. exfalso. exact (Qlt_not_le _ _ H E).
Qed.

(** X7. With two customers or more the scores follow the values: of two
    customers, the one with strictly more orders has a Frequency score at
    least as high, the one with strictly more revenue a Monetary score at
    least as high, and the one with strictly fewer recency days a Recency
    score at least as high. *)
Theorem scores_follow_values (df : list Transaction) :
  (2 <= List.length (customer_orders df))%nat ->
  exists rs fs ms,
    R_Score_col df = Ok rs /\ F_Score_col df = Ok fs /\ M_Score_col df = Ok ms
    /\ forall i j a b da db,
        nth_error (customer_orders df) i = Some a ->
        nth_error (customer_orders df) j = Some b ->
        nth_error (Recency_Days df) i = Some da ->
        nth_error (Recency_Days df) j = Some db ->
        exists ri rj fi fj mi mj,
          (nth_error rs i = Some (Some ri) /\ nth_error rs j = Some (Some rj))
          /\ (nth_error fs i = Some (Some fi) /\ nth_error fs j = Some (Some fj))
          /\ (nth_error ms i = Some (Some mi) /\ nth_error ms j = Some (Some mj))
          /\ (da < db -> rj <= ri)
          /\ (OrderCount a < OrderCount b -> fi <= fj)
          /\ ((TotalRevenue a < TotalRevenue b)%Q -> mi <= mj).
Proof.
  intros Hn. destruct (score_columns df Hn) as [HR [HF HM]]. cbv zeta in HR, HF, HM.
  eexists. eexists. eexists.
  split; [exact HR|]. split; [exact HF|]. split; [exact HM|].
  intros i j a b da db Ha Hb Hda Hdb.
  set (n := Z.of_nat (List.length (customer_orders df))).
  assert (Hcell : forall (A : Type) (leb : A -> A -> bool) (col : list A) labels k x,
            (forall x y, leb x y = true \/ leb y x = true) ->
            (forall x y z, leb x y = true -> leb y z = true -> leb x z = true) ->
            List.length col = List.length (customer_orders df) ->
            List.length labels = 5%nat ->
            nth_error col k = Some x ->
            exists s, nth_error (map (score_of n labels) (rank_first leb col)) k
                      = Some (Some s)).
  { intros A leb col labels k x Htot Htr Hlen Hlab Hk.
    rewrite nth_error_map, (rank_first_nth leb col k x Hk). cbn [option_map].
    pose proof (rank_of_range leb Htot col k x Hk) as Hr. rewrite Hlen in Hr.
    pose proof (bucket_range n _ ltac:(lia) Hr) as Hb'. unfold score_of.
    destruct (nth_error labels _) as [s|] eqn:E; [now exists s|].
    apply nth_error_None in E. lia. }
  assert (LR := Recency_Days_length df).
  assert (LF := length_map OrderCount (customer_orders df)).
  assert (LM := length_map TotalRevenue (customer_orders df)).
  assert (Hfa : nth_error (map OrderCount (customer_orders df)) i = Some (OrderCount a))
    by (rewrite nth_error_map, Ha; reflexivity).
  assert (Hfb : nth_error (map OrderCount (customer_orders df)) j = Some (OrderCount b))
    by (rewrite nth_error_map, Hb; reflexivity).
  assert (Hma : nth_error (map TotalRevenue (customer_orders df)) i
                = Some (TotalRevenue a)) by (rewrite nth_error_map, Ha; reflexivity).
  assert (Hmb : nth_error (map TotalRevenue (customer_orders df)) j
                = Some (TotalRevenue b)) by (rewrite nth_error_map, Hb; reflexivity).
  destruct (Hcell _ Z.leb _ [5; 4; 3; 2; 1] i da Zleb_total Zleb_trans LR eq_refl Hda)
    as [ri Hri].
  destruct (Hcell _ Z.leb _ [5; 4; 3; 2; 1] j db Zleb_total Zleb_trans LR eq_refl Hdb)
    as [rj Hrj].
  destruct (Hcell _ Z.leb _ [1; 2; 3; 4; 5] i _ Zleb_total Zleb_trans LF eq_refl Hfa)
    as [fi Hfi].
  destruct (Hcell _ Z.leb _ [1; 2; 3; 4; 5] j _ Zleb_total Zleb_trans LF eq_refl Hfb)
    as [fj Hfj].
  destruct (Hcell _ Qle_bool _ [1; 2; 3; 4; 5] i _ Qle_bool_total Qle_bool_trans
              LM eq_refl Hma) as [mi Hmi].
  destruct (Hcell _ Qle_bool _ [1; 2; 3; 4; 5] j _ Qle_bool_total Qle_bool_trans
              LM eq_refl Hmb) as [mj Hmj].
  fold n. exists ri, rj, fi, fj, mi, mj.
  split; [split; assumption|]. split; [split; assumption|].
  split; [split; assumption|]. split; [|split].
  - intros Hlt.
    destruct (score_column_monotone Z.leb (Recency_Days df) i j da db
                Zleb_total Zleb_trans ltac:(rewrite LR; exact Hn) Hda Hdb
                ltac:(rewrite below_Zleb; apply Z.ltb_lt; exact Hlt))
      as [bi [bj [Hle [_ [_ [Hi' Hj']]]]]].
    rewrite LR in Hi', Hj'. fold n in Hi', Hj'.
    assert (ri = 6 - Z.of_nat bi) by congruence.
    assert (rj = 6 - Z.of_nat bj) by congruence. lia.
  - intros Hlt.
    destruct (score_column_monotone Z.leb (map OrderCount (customer_orders df)) i j _ _
                Zleb_total Zleb_trans ltac:(rewrite LF; exact Hn) Hfa Hfb
                ltac:(rewrite below_Zleb; apply Z.ltb_lt; exact Hlt))
      as [bi [bj [Hle [Hi' [Hj' _]]]]].
    rewrite LF in Hi', Hj'. fold n in Hi', Hj'.
    assert (fi = Z.of_nat bi) by congruence.
    assert (fj = Z.of_nat bj) by congruence. lia.
  - intros Hlt.
    destruct (score_column_monotone Qle_bool (map TotalRevenue (customer_orders df))
                i j _ _ Qle_bool_total Qle_bool_trans ltac:(rewrite LM; exact Hn)
                Hma Hmb (below_Qle_bool _ _ Hlt))
      as [bi [bj [Hle [Hi' [Hj' _]]]]].
    rewrite LM in Hi', Hj'. fold n in Hi', Hj'.
    assert (mi = Z.of_nat bi) by congruence.
    assert (mj = Z.of_nat bj) by congruence. lia.
Qed.

Lemma scores_follow_values_witness :
  (2 <= List.length (customer_orders sample))%nat
  /\ exists rs fs ms,
      R_Score_col sample = Ok rs /\ F_Score_col sample = Ok fs
      /\ M_Score_col sample = Ok ms.
Proof.
  assert (H : (2 <= List.length (customer_orders sample))%nat) by (cbn; lia).
  split; [exact H|].
  destruct (scores_follow_values sample H) as [rs [fs [ms [HR [HF [HM _]]]]]].
  exists rs, fs, ms. auto.
Defined.

(** ** The cleaning script *)

Lemma positive_iff q : Cleaning.positive q = true <-> (0 < q)%Q.
Proof.
  unfold Cleaning.positive. destruct (Qle_bool q 0) eqn:E; cbn.
  - apply Qle_bool_iff in E. split; [discriminate|].
    intros H. exfalso. exact (Qlt_not_le _ _ H E).
  - split; [intros _ | reflexivity].
    apply Qnot_le_lt. intros H. apply Qle_bool_iff in H. congruence.
Qed.

Lemma In_filtered (r : Cleaning.RawRow) df :
  In r (Cleaning.with_positive (Cleaning.not_cancelled (Cleaning.with_customer df)))
  <-> In r df /\ Cleaning.valid r.
Proof.
  unfold Cleaning.with_positive, Cleaning.not_cancelled, Cleaning.with_customer,
    Cleaning.valid.
  rewrite !filter_In, andb_true_iff, Z.ltb_lt, positive_iff, negb_true_iff.
  unfold Cleaning.notna. destruct (Cleaning.raw_CustomerID r); intuition congruence.
Qed.

Lemma same_row_iff a b :
  Cleaning.same_row a b = true <->
  Cleaning.Invoice a = Cleaning.Invoice b
  /\ Cleaning.StockCode a = Cleaning.StockCode b
  /\ Cleaning.Description a = Cleaning.Description b
  /\ Cleaning.Quantity a = Cleaning.Quantity b
  /\ Cleaning.InvoiceDate a = Cleaning.InvoiceDate b
  /\ (Cleaning.Price a == Cleaning.Price b)%Q
  /\ Cleaning.CustomerID a = Cleaning.CustomerID b
  /\ Cleaning.Country a = Cleaning.Country b.
Proof.
  unfold Cleaning.same_row.
  rewrite !andb_true_iff, !String.eqb_eq, !Z.eqb_eq, Qeq_bool_iff. tauto.
Qed.

Lemma row_eq_Equivalence : Equivalence row_eq.
Proof.
  split; unfold row_eq.
  - intros a. apply same_row_iff. repeat split; reflexivity.
  - intros a b H. apply same_row_iff in H. apply same_row_iff.
    destruct H as (? & ? & ? & ? & ? & ? & ? & ?).
    repeat split; first [congruence | now symmetry].
  - intros a b c H1 H2. apply same_row_iff in H1, H2. apply same_row_iff.
    destruct H1 as (? & ? & ? & ? & ? & ? & ? & ?).
    destruct H2 as (? & ? & ? & ? & ? & ? & ? & ?).
    repeat split; first [congruence | etransitivity; eassumption].
Qed.

Lemma In_drop_duplicates r df :
  In r (Cleaning.drop_duplicates df) -> In r df.
Proof.
  induction df as [|a df IH]; cbn; [tauto|].
  intros [H|H]; [now left|]. apply filter_In in H as [H _]. right. auto.
Qed.

Lemma drop_duplicates_complete r df :
  In r df -> exists r', In r' (Cleaning.drop_duplicates df) /\ row_eq r' r.
Proof.
  induction df as [|a df IH]; cbn; [tauto|]. intros [->|H].
  - exists r. split; [now left | apply row_eq_Equivalence].
  - destruct (IH H) as [r' [Hin Heq]].
    destruct (Cleaning.same_row a r') eqn:E.
    + exists a. split; [now left|].
      destruct row_eq_Equivalence as [_ _ Htr]. exact (Htr _ _ _ E Heq).
    + exists r'. split; [|exact Heq]. right. apply filter_In. split; [exact Hin|].
      now rewrite E.
Qed.

Lemma insert_row_Permutation r df :
  Permutation (Cleaning.insert_row r df) (r :: df).
Proof.
  induction df as [|a df IH]; cbn; [reflexivity|].
  destruct (Cleaning.key_le r a); [reflexivity|]. rewrite IH. apply perm_swap.
Qed.

Lemma sort_values_Permutation df : Permutation (Cleaning.sort_values df) df.
Proof.
  induction df as [|a df IH]; cbn; [reflexivity|].
  rewrite insert_row_Permutation. now constructor.
Qed.

(** Membership in the cleaned frame, both ways. *)
Lemma In_df_clean row df :
  In row (Cleaning.df_clean df) ->
  exists raw, In raw df /\ Cleaning.valid raw /\ row = Cleaning.convert raw.
Proof.
  unfold Cleaning.df_clean. intros H.
  apply (Permutation_in _ (sort_values_Permutation _)), In_drop_duplicates in H.
  apply in_map_iff in H as [raw [<- H]]. apply In_filtered in H as [H1 H2].
  exists raw. auto.
Qed.

Lemma df_clean_complete raw df :
  In raw df -> Cleaning.valid raw ->
  exists row, In row (Cleaning.df_clean df) /\ row_eq row (Cleaning.convert raw).
Proof.
  intros Hin Hv. unfold Cleaning.df_clean.
  destruct (drop_duplicates_complete (Cleaning.convert raw)
              (map Cleaning.convert
                 (Cleaning.with_positive
                    (Cleaning.not_cancelled (Cleaning.with_customer df)))))
    as [row [Hrow Heq]].
  { apply in_map, In_filtered. auto. }
  exists row. split; [|exact Heq].
  apply (Permutation_in _ (Permutation_sym (sort_values_Permutation _))), Hrow.
Qed.

Lemma Qmult_pos_Z n q : 0 < n -> (0 < q)%Q -> (0 < inject_Z n * q)%Q.
Proof.
  intros Hn Hq. apply Qmult_lt_0_compat; [|exact Hq].
  unfold Qlt, inject_Z. cbn. lia.
Qed.

Lemma df_clean_length df :
  (List.length (Cleaning.df_clean df) <= List.length df)%nat.
Proof.
  unfold Cleaning.df_clean.
  rewrite (Permutation_length (sort_values_Permutation _)).
  assert (H : forall l, (List.length (Cleaning.drop_duplicates l) <= List.length l)%nat).
  { induction l as [|a l IH]; cbn; [lia|].
    pose proof (filter_length_le (fun r' => negb (Cleaning.same_row a r'))
                  (Cleaning.drop_duplicates l)). lia. }
  rewrite H, length_map.
  unfold Cleaning.with_positive, Cleaning.not_cancelled, Cleaning.with_customer.
  rewrite !filter_length_le. reflexivity.
Qed.

(** X8. The rows of the cleaned frame are the valid rows of the raw table:
    every cleaned row is the conversion of a raw row that has a customer
    identifier, an invoice that does not start with 'C', a positive
    quantity and a positive price, so its line total, quantity times price,
    is positive; every such raw row is in the cleaned frame, itself or a
    row equal to it in every column; and the cleaned frame has no more rows
    than the raw table. *)
Theorem df_clean_rows (df : list Cleaning.RawRow) :
  (forall row, In row (Cleaning.df_clean df) ->
     (exists raw, In raw df /\ Cleaning.valid raw /\ row = Cleaning.convert raw)
     /\ String.prefix "C" (Cleaning.Invoice row) = false
     /\ 0 < Cleaning.Quantity row /\ (0 < Cleaning.Price row)%Q
     /\ Cleaning.TotalAmount row
        = (inject_Z (Cleaning.Quantity row) * Cleaning.Price row)%Q
     /\ (0 < Cleaning.TotalAmount row)%Q)
  /\ (forall raw, In raw df -> Cleaning.valid raw ->
        exists row, In row (Cleaning.df_clean df)
                    /\ Cleaning.same_row row (Cleaning.convert raw) = true)
  /\ (List.length (Cleaning.df_clean df) <= List.length df)%nat.
Proof.
  split; [|split; [|apply df_clean_length]].
  - intros row Hrow. destruct (In_df_clean row df Hrow) as [raw [Hin [Hv ->]]].
    split; [exists raw; auto|]. destruct Hv as [_ [Hc [Hq Hp]]]. cbn.
    repeat split; try assumption. now apply Qmult_pos_Z.
  - intros raw Hin Hv. exact (df_clean_complete raw df Hin Hv).
Qed.

(** The cleaning of the small raw table: three rows are left, in the order
    of customer and timestamp, the missing description filled. *)
Example df_clean_raw_sample :
  Cleaning.df_clean raw_sample
  = [ Cleaning.mkCleanRow "489452" "21523" "DOORMAT" 1 (day 4) (6 # 1) 12346 "UK"
                          (inject_Z 1 * (6 # 1))%Q;
      Cleaning.mkCleanRow "489434" "85048" "NO DESCRIPTION" 2 (day 1) (7 # 1) 13085 "UK"
                          (inject_Z 2 * (7 # 1))%Q;
      Cleaning.mkCleanRow "489435" "22350" "CAT BOWL" 12 (day 2) (5 # 2) 13085 "UK"
                          (inject_Z 12 * (5 # 2))%Q ].
Proof. vm_compute. reflexivity. Qed.

Lemma key_le_total a b : Cleaning.key_le a b = true \/ Cleaning.key_le b a = true.
Proof.
  unfold Cleaning.key_le.
  rewrite !orb_true_iff, !andb_true_iff, !Z.ltb_lt, !Z.eqb_eq, !Z.leb_le. lia.
Qed.

Lemma key_le_trans a b c :
  Cleaning.key_le a b = true -> Cleaning.key_le b c = true ->
  Cleaning.key_le a c = true.
Proof.
  unfold Cleaning.key_le.
  rewrite !orb_true_iff, !andb_true_iff, !Z.ltb_lt, !Z.eqb_eq, !Z.leb_le. lia.
Qed.

Lemma insert_row_sorted r df :
  StronglySorted (fun a b => Cleaning.key_le a b = true) df ->
  StronglySorted (fun a b => Cleaning.key_le a b = true) (Cleaning.insert_row r df).
Proof.
  induction df as [|a df IH]; cbn; intros Hs; [repeat constructor|].
  inversion Hs as [|? ? Hs' Ha]; subst.
  destruct (Cleaning.key_le r a) eqn:E.
  - constructor; [exact Hs|]. constructor; [exact E|].
    rewrite Forall_forall in *. intros x Hx.
    exact (key_le_trans _ _ _ E (Ha x Hx)).
  - constructor; [auto|].
    apply (Permutation_Forall (Permutation_sym (insert_row_Permutation r df))).
    constructor; [|exact Ha].
    destruct (key_le_total a r) as [H|H]; [exact H | congruence].
Qed.

Lemma sort_values_sorted df :
  StronglySorted (fun a b => Cleaning.key_le a b = true) (Cleaning.sort_values df).
Proof.
  induction df as [|a df IH]; cbn; [constructor|]. now apply insert_row_sorted.
Qed.

Lemma StronglySorted_weaken {A : Type} (R R' : A -> A -> Prop) l :
  (forall a b, R a b -> R' a b) -> StronglySorted R l -> StronglySorted R' l.
Proof.
  intros HR. induction 1 as [|a l Hs IH Ha]; constructor; [exact IH|].
  eapply Forall_impl; [|exact Ha]. intros b. apply HR.
Qed.

Lemma at_key_not_le c d r a :
  Cleaning.at_key c d r = true -> Cleaning.key_le r a = false ->
  Cleaning.at_key c d a = false.
Proof.
  unfold Cleaning.at_key, Cleaning.key_le.
  rewrite andb_true_iff, orb_false_iff, andb_false_iff, !Z.eqb_eq.
  intros [<- <-] [H1 H2].
  apply Z.ltb_ge in H1. apply andb_false_iff.
  destruct H2 as [H2|H2]; [left; rewrite Z.eqb_sym; exact H2|].
  apply Z.leb_gt in H2.
  destruct (Z.eqb_spec (Cleaning.CustomerID a) (Cleaning.CustomerID r));
    [right; apply Z.eqb_neq; lia | now left].
Qed.

Lemma insert_row_stable c d r df :
  filter (Cleaning.at_key c d) (Cleaning.insert_row r df)
  = filter (Cleaning.at_key c d) (r :: df).
Proof.
  induction df as [|a df IH]; [reflexivity|]. cbn [Cleaning.insert_row].
  destruct (Cleaning.key_le r a) eqn:E; [reflexivity|].
  cbn [filter] in *. rewrite IH.
  destruct (Cleaning.at_key c d r) eqn:Er; [|reflexivity].
  now rewrite (at_key_not_le c d r a Er E).
Qed.

Lemma sort_values_stable c d df :
  filter (Cleaning.at_key c d) (Cleaning.sort_values df)
  = filter (Cleaning.at_key c d) df.
Proof.
  induction df as [|a df IH]; [reflexivity|].
  cbn [Cleaning.sort_values fold_right]. fold (Cleaning.sort_values df).
  rewrite insert_row_stable. cbn [filter]. now rewrite IH.
Qed.

Lemma InA_filter (p : Cleaning.CleanRow -> bool) x l :
  InA row_eq x (filter p l) -> InA row_eq x l.
Proof.
  rewrite !InA_alt. intros [y [Hxy Hy]]. apply filter_In in Hy as [Hy _]. eauto.
Qed.

Lemma NoDupA_filter (p : Cleaning.CleanRow -> bool) l :
  NoDupA row_eq l -> NoDupA row_eq (filter p l).
Proof.
  induction 1 as [|x l Hx Hl IH]; cbn; [constructor|].
  destruct (p x); [|exact IH]. constructor; [|exact IH].
  intros H. apply Hx. exact (InA_filter p x l H).
Qed.

Lemma drop_duplicates_NoDupA df : NoDupA row_eq (Cleaning.drop_duplicates df).
Proof.
  induction df as [|a df IH]; cbn; [constructor|]. constructor.
  - rewrite InA_alt. intros [y [Hay Hy]]. apply filter_In in Hy as [_ Hy].
    unfold row_eq in Hay. rewrite Hay in Hy. discriminate.
  - now apply NoDupA_filter.
Qed.

(** X9. The cleaned frame is in the order of customer identifier, then
    invoice timestamp; no two of its rows are equal in every column; and the
    rows of one customer at one timestamp are in the order the table had
    after the duplicates were dropped. *)
Theorem df_clean_sorted (df : list Cleaning.RawRow) :
  StronglySorted
    (fun a b =>
       Cleaning.CustomerID a < Cleaning.CustomerID b
       \/ (Cleaning.CustomerID a = Cleaning.CustomerID b
           /\ Cleaning.InvoiceDate a <= Cleaning.InvoiceDate b))
    (Cleaning.df_clean df)
  /\ NoDupA (fun a b => Cleaning.same_row a b = true) (Cleaning.df_clean df)
  /\ forall c d,
       filter (Cleaning.at_key c d) (Cleaning.df_clean df)
       = filter (Cleaning.at_key c d)
           (Cleaning.drop_duplicates
              (map Cleaning.convert
                 (Cleaning.with_positive
                    (Cleaning.not_cancelled (Cleaning.with_customer df))))).
Proof.
  split; [|split].
  - unfold Cleaning.df_clean.
    eapply StronglySorted_weaken; [|apply sort_values_sorted].
    intros a b. cbv beta. unfold Cleaning.key_le.
    rewrite orb_true_iff, andb_true_iff, Z.ltb_lt, Z.eqb_eq, Z.leb_le. tauto.
  - unfold Cleaning.df_clean.
    apply (PermutationA_preserves_NoDupA row_eq_Equivalence)
      with (l₁ := Cleaning.drop_duplicates
                   (map Cleaning.convert
                      (Cleaning.with_positive
                         (Cleaning.not_cancelled (Cleaning.with_customer df))))).
    + apply (Permutation_PermutationA row_eq_Equivalence).
      symmetry. apply sort_values_Permutation.
    + apply drop_duplicates_NoDupA.
  - intros c d. apply sort_values_stable.
Qed.

Lemma sum_nonneg l : Forall (fun x => 0 < x)%Q l -> (0 <= sum l)%Q.
Proof.
  induction 1 as [|x l Hx Hl IH]; [discriminate|].
  rewrite sum_cons. apply Qlt_le_weak in Hx.
  rewrite <- (Qplus_0_l 0). now apply Qplus_le_compat.
Qed.

Lemma sum_pos l : l <> [] -> Forall (fun x => 0 < x)%Q l -> (0 < sum l)%Q.
Proof.
  destruct l as [|x l]; [congruence|]. intros _ H.
  inversion H as [|? ? Hx Hl]; subst. rewrite sum_cons.
  rewrite <- (Qplus_0_l 0). apply Qplus_lt_le_compat; [exact Hx|].
  now apply sum_nonneg.
Qed.

Lemma revenue_positive (df : list Transaction) :
  Forall (fun t => 0 < TotalAmount t)%Q df ->
  Forall (fun r => 0 < TotalRevenue r /\ 0 < AvgTransactionValue r)%Q
         (customer_orders df).
Proof.
  intros Hpos. apply Forall_forall. intros r Hr.
  apply In_customer_orders in Hr as [Er Hne].
  set (ts := transactions_of (Customer_ID r) df) in *.
  rewrite Er. cbn [TotalRevenue AvgTransactionValue aggregate snd].
  assert (Hs : (0 < sum (map TotalAmount ts))%Q).
  { apply sum_pos.
    - intros E. apply map_eq_nil in E. contradiction.
    - apply Forall_forall. intros x Hx. apply in_map_iff in Hx as [t [<- Ht]].
      apply In_transactions_of in Ht as [Ht _].
      rewrite Forall_forall in Hpos. exact (Hpos t Ht). }
  split; [exact Hs|]. unfold mean, Qdiv.
  apply Qmult_lt_0_compat; [exact Hs|]. apply Qinv_lt_0_compat.
  unfold count. rewrite length_map. unfold Qlt, inject_Z. cbn [Qnum Qden].
  destruct ts; [congruence | cbn [List.length]; lia].
Qed.

(** X10. On the frame the cleaning saves, every customer of the aggregate
    has a positive total revenue and a positive average transaction
    value. *)
Theorem cleaned_revenue_positive (df : list Cleaning.RawRow) :
  Forall (fun r => 0 < TotalRevenue r /\ 0 < AvgTransactionValue r)%Q
         (customer_orders (map Cleaning.to_transaction (Cleaning.df_clean df))).
Proof.
  apply revenue_positive, Forall_forall. intros t Ht.
  apply in_map_iff in Ht as [row [<- Hrow]].
  destruct (In_df_clean row df Hrow) as [raw [_ [[_ [_ [Hq Hp]]] ->]]]. cbn.
  now apply Qmult_pos_Z.
Qed.

Lemma script_None_iff (df : list Transaction) :
  snd (script df) = None <-> (2 <= List.length (customer_orders df))%nat.
Proof.
  destruct (script_run df) as [Hok Hstop]. cbv zeta in Hok, Hstop.
  destruct (le_lt_dec 2 (List.length (customer_orders df))) as [Hn|Hn].
  - rewrite (Hok Hn). cbn. tauto.
  - rewrite (Hstop Hn). cbn. split; [discriminate | lia].
Qed.

Lemma two_distinct (l : list Z) :
  NoDup l ->
  ((2 <= List.length l)%nat <-> exists a b, In a l /\ In b l /\ a <> b).
Proof.
  intros Hnd. split.
  - destruct l as [|a [|b l]]; cbn; try lia. intros _.
    exists a, b. repeat split; auto.
    inversion Hnd as [|? ? Ha _]; subst. intros ->. apply Ha. now left.
  - intros [a [b [Ha [Hb Hab]]]].
    destruct l as [|x [|y l]]; cbn [List.length]; [destruct Ha | | lia].
    destruct Ha as [<-|[]], Hb as [<-|[]]. congruence.
Qed.

Lemma two_customers_iff (df : list Transaction) :
  (2 <= List.length (customer_orders df))%nat
  <-> exists a b, In a df /\ In b df /\ CustomerID a <> CustomerID b.
Proof.
  rewrite <- (length_map Customer_ID), (two_distinct _ (Customer_ID_NoDup df)).
  rewrite Customer_ID_column. split.
  - intros [a [b [Ha [Hb Hab]]]].
    apply (proj1 (In_keys_groupby CustomerID a df)) in Ha.
    apply (proj1 (In_keys_groupby CustomerID b df)) in Hb.
    apply in_map_iff in Ha as [ta [<- Hta]].
    apply in_map_iff in Hb as [tb [<- Htb]].
    exists ta, tb. auto.
  - intros [a [b [Ha [Hb Hab]]]]. exists (CustomerID a), (CustomerID b).
    repeat split; [| |exact Hab];
      apply (proj2 (In_keys_groupby CustomerID _ df)), in_map; assumption.
Qed.

(** X11. The two scripts in a row.  The cleaning stops at the division of
    its summary, before anything is saved, exactly when the raw table has
    no row.  The analysis of the cleaned frame gets through all its
    assignments exactly when the raw table has two valid rows of different
    customers; otherwise it stops at the first score with the error of
    [qcut]. *)
Theorem pipeline_completes_iff (raw : list Cleaning.RawRow) :
  (Cleaning.cleaning_script raw = Cleaning.ZeroDivisionError <-> raw = [])
  /\ (raw <> [] ->
      Cleaning.cleaning_script raw = Cleaning.Saved (Cleaning.df_clean raw))
  /\ (snd (script (map Cleaning.to_transaction (Cleaning.df_clean raw))) = None
      <-> exists a b, In a raw /\ In b raw
                      /\ Cleaning.valid a /\ Cleaning.valid b
                      /\ Cleaning.raw_CustomerID a <> Cleaning.raw_CustomerID b)
  /\ (snd (script (map Cleaning.to_transaction (Cleaning.df_clean raw))) = None
      \/ snd (script (map Cleaning.to_transaction (Cleaning.df_clean raw)))
         = Some (ValueError "Bin edges must be unique")).
Proof.
  split; [|split; [|split]].
  - destruct raw; cbn; split; congruence.
  - destruct raw; [congruence | reflexivity].
  - rewrite script_None_iff, two_customers_iff. split.
    + intros [ta [tb [Ha [Hb Hab]]]].
      apply in_map_iff in Ha as [ra [<- Hra]].
      apply in_map_iff in Hb as [rb [<- Hrb]].
      destruct (In_df_clean ra raw Hra) as [a [Hina [Hva ->]]].
      destruct (In_df_clean rb raw Hrb) as [b [Hinb [Hvb ->]]].
      exists a, b. do 4 (split; [assumption|]).
      intros E. apply Hab. cbn. now rewrite E.
    + intros [a [b [Hina [Hinb [Hva [Hvb Hab]]]]]].
      destruct (df_clean_complete a raw Hina Hva) as [ra [Hra Ea]].
      destruct (df_clean_complete b raw Hinb Hvb) as [rb [Hrb Eb]].
      exists (Cleaning.to_transaction ra), (Cleaning.to_transaction rb).
      repeat split; [now apply in_map | now apply in_map |].
      apply same_row_iff in Ea as (_ & _ & _ & _ & _ & _ & Ea & _).
      apply same_row_iff in Eb as (_ & _ & _ & _ & _ & _ & Eb & _).
      cbn in *. rewrite Ea, Eb.
      destruct Hva as [Hca _], Hvb as [Hcb _].
      destruct (Cleaning.raw_CustomerID a), (Cleaning.raw_CustomerID b);
        cbn; congruence.
  - destruct (script_run (map Cleaning.to_transaction (Cleaning.df_clean raw)))
      as [Hok Hstop]. cbv zeta in Hok, Hstop.
    destruct (le_lt_dec 2 (List.length (customer_orders
                (map Cleaning.to_transaction (Cleaning.df_clean raw))))) as [Hn|Hn].
    + left. now rewrite (Hok Hn).
    + right. now rewrite (Hstop Hn).
Qed.

(** ** The segment summary *)

Lemma string_compare_refl a : (a ?= a)%string = Eq.
Proof.
  induction a as [|x a IH]; cbn; [reflexivity|].
  unfold Ascii.compare. now rewrite N.compare_refl.
Qed.

Lemma string_compare_trans a :
  forall b c, (a ?= b)%string = Lt -> (b ?= c)%string = Lt -> (a ?= c)%string = Lt.
Proof.
  induction a as [|x a IH]; intros [|y b] [|z c]; cbn; try congruence.
  unfold Ascii.compare.
  destruct (N.compare_spec (Ascii.N_of_ascii x) (Ascii.N_of_ascii y));
    destruct (N.compare_spec (Ascii.N_of_ascii y) (Ascii.N_of_ascii z));
    destruct (N.compare_spec (Ascii.N_of_ascii x) (Ascii.N_of_ascii z));
    intros Hab Hbc; try reflexivity; try discriminate; try lia.
  exact (IH _ _ Hab Hbc).
Qed.

Lemma label_lt_compare a b : label_lt a b <-> (a ?= b)%string = Lt.
Proof.
  unfold label_lt, String.ltb. destruct (a ?= b)%string; split; congruence.
Qed.

Lemma label_lt_irrefl a : ~ label_lt a a.
Proof. rewrite label_lt_compare, string_compare_refl. discriminate. Qed.

Lemma label_lt_trans a b c : label_lt a b -> label_lt b c -> label_lt a c.
Proof. rewrite !label_lt_compare. apply string_compare_trans. Qed.

Lemma label_lt_total a b : (a <? b)%string = false -> a <> b -> label_lt b a.
Proof.
  intros H Hne. apply label_lt_compare. rewrite String.compare_antisym.
  unfold String.ltb in H. destruct (a ?= b)%string eqn:E; try discriminate.
  - apply String.compare_eq_iff in E. contradiction.
  - reflexivity.
Qed.

Lemma label_lt_NoDup ks : StronglySorted label_lt ks -> NoDup ks.
Proof.
  induction 1 as [|k ks Hs IH Hk]; constructor; [|exact IH].
  intros Hin. rewrite Forall_forall in Hk. exact (label_lt_irrefl k (Hk k Hin)).
Qed.

Section GroupByLabelFacts.
Context {A : Type}.
Variable key : A -> string.

Lemma keys_label_insert (P : string -> Prop) x gs :
  P (key x) -> Forall P (map fst gs) -> Forall P (map fst (label_insert key x gs)).
Proof.
  intros Hx. induction gs as [|[k xs] gs IH]; cbn; intros Hgs.
  - constructor; [assumption | constructor].
  - destruct (key x <? k)%string.
    + cbn. constructor; assumption.
    + inversion Hgs; subst. destruct (key x =? k)%string; cbn; constructor; auto.
Qed.

Lemma label_insert_sorted x gs :
  StronglySorted label_lt (map fst gs) ->
  StronglySorted label_lt (map fst (label_insert key x gs)).
Proof.
  induction gs as [|[k xs] gs IH]; cbn; intros Hs.
  - constructor; constructor.
  - inversion Hs as [|? ? Hs' Hk]; subst.
    destruct (key x <? k)%string eqn:Hlt.
    + cbn. constructor; [exact Hs|]. constructor; [exact Hlt|].
      eapply Forall_impl; [|exact Hk]. intros b Hb.
      exact (label_lt_trans _ _ _ Hlt Hb).
    + destruct (String.eqb_spec (key x) k) as [Heq|Hne]; cbn.
      * constructor; assumption.
      * constructor; [apply IH; assumption|].
        apply keys_label_insert; [apply label_lt_total; assumption | assumption].
Qed.

Lemma label_insert_nonempty x gs :
  Forall (fun g => snd g <> []) gs ->
  Forall (fun g => snd g <> []) (label_insert key x gs).
Proof.
  induction gs as [|[k xs] gs IH]; cbn; intros Hn.
  - constructor; [discriminate | constructor].
  - inversion Hn; subst.
    destruct (key x <? k)%string; [constructor; [discriminate | assumption]|].
    destruct (key x =? k)%string; constructor; auto.
    cbn. destruct xs; discriminate.
Qed.

Lemma group_of_label_above k (gs : list (string * list A)) :
  Forall (label_lt k) (map fst gs) -> group_of_label k gs = [].
Proof.
  induction gs as [|[k' xs] gs IH]; cbn; intros H; [reflexivity|].
  inversion H as [|? ? Hk Hgs]; subst.
  destruct (String.eqb_spec k k') as [->|_]; [|auto].
  destruct (label_lt_irrefl _ Hk).
Qed.

Lemma group_of_label_insert k x gs :
  StronglySorted label_lt (map fst gs) ->
  group_of_label k (label_insert key x gs) =
    if (key x =? k)%string then group_of_label k gs ++ [x] else group_of_label k gs.
Proof.
  induction gs as [|[k' xs] gs IH]; cbn; intros Hs.
  - rewrite (String.eqb_sym k). destruct (key x =? k)%string; reflexivity.
  - inversion Hs as [|? ? Hs' Hk]; subst.
    destruct (key x <? k')%string eqn:Hlt.
    + cbn. rewrite (String.eqb_sym k (key x)).
      destruct (String.eqb_spec (key x) k) as [<-|Hne]; [|reflexivity].
      destruct (String.eqb_spec (key x) k') as [E|_].
      * rewrite E in Hlt. destruct (label_lt_irrefl _ Hlt).
      * rewrite group_of_label_above; [reflexivity|].
        eapply Forall_impl; [|exact Hk]. intros b Hb.
        exact (label_lt_trans _ _ _ Hlt Hb).
    + destruct (String.eqb_spec (key x) k') as [Heq|Hne]; cbn.
      * destruct (String.eqb_spec k k') as [->|Hkk].
        -- rewrite Heq, String.eqb_refl. reflexivity.
        -- destruct (String.eqb_spec (key x) k); [congruence | reflexivity].
      * destruct (String.eqb_spec k k') as [->|Hkk].
        -- destruct (String.eqb_spec (key x) k'); [contradiction | reflexivity].
        -- apply IH; assumption.
Qed.

Lemma fold_label_insert l : forall gs,
  StronglySorted label_lt (map fst gs) -> Forall (fun g => snd g <> []) gs ->
  (StronglySorted label_lt
     (map fst (fold_left (fun gs x => label_insert key x gs) l gs))
   /\ Forall (fun g => snd g <> [])
             (fold_left (fun gs x => label_insert key x gs) l gs))
  /\ forall k,
      group_of_label k (fold_left (fun gs x => label_insert key x gs) l gs) =
        group_of_label k gs ++ filter (fun x => (key x =? k)%string) l.
Proof.
  induction l as [|x l IH]; cbn; intros gs Hs Hn.
  - split; [split; assumption|]. intros k. now rewrite app_nil_r.
  - destruct (IH (label_insert key x gs)) as [Hw Hg];
      [now apply label_insert_sorted | now apply label_insert_nonempty |].
    split; [assumption|]. intros k. rewrite Hg, group_of_label_insert by assumption.
    destruct (key x =? k)%string; [now rewrite <- app_assoc | reflexivity].
Qed.

Lemma groupby_label_sorted l :
  StronglySorted label_lt (map fst (groupby_label key l)).
Proof. apply fold_label_insert; constructor. Qed.

Lemma group_of_label_In k xs (gs : list (string * list A)) :
  StronglySorted label_lt (map fst gs) -> In (k, xs) gs -> group_of_label k gs = xs.
Proof.
  induction gs as [|[k' xs'] gs IH]; cbn; intros Hs Hin; [contradiction|].
  inversion Hs as [|? ? Hs' Hk]; subst.
  destruct Hin as [Heq|Hin].
  - inversion Heq; subst. now rewrite String.eqb_refl.
  - destruct (String.eqb_spec k k') as [->|Hne]; [|auto].
    rewrite Forall_forall in Hk.
    destruct (label_lt_irrefl _ (Hk k' (in_map fst _ _ Hin))).
Qed.

Lemma group_of_label_nonempty_In k (gs : list (string * list A)) :
  group_of_label k gs <> [] -> In (k, group_of_label k gs) gs.
Proof.
  induction gs as [|[k' xs] gs IH]; cbn; intros H; [contradiction|].
  destruct (String.eqb_spec k k') as [->|Hne]; [now left | right; auto].
Qed.

(** The groups: one per label that occurs, holding the rows of that label
    in frame order. *)
Lemma In_groupby_label k xs l :
  In (k, xs) (groupby_label key l) <->
  xs = filter (fun x => (key x =? k)%string) l /\ xs <> [].
Proof.
  unfold groupby_label.
  destruct (fold_label_insert l []) as [[Hs Hn] Hg]; [constructor | constructor |].
  cbn in Hg. split.
  - intros Hin. split.
    + rewrite <- Hg. symmetry. now apply group_of_label_In.
    + rewrite Forall_forall in Hn. exact (Hn _ Hin).
  - intros [-> Hne]. rewrite <- Hg in *. now apply group_of_label_nonempty_In.
Qed.

Lemma In_keys_groupby_label k l :
  In k (map fst (groupby_label key l)) <-> In k (map key l).
Proof.
  rewrite !in_map_iff. split.
  - intros [[k' xs] [<- Hin]]. apply In_groupby_label in Hin as [-> Hne]. cbn.
    destruct (filter (fun x => (key x =? k')%string) l) as [|x xs'] eqn:E;
      [contradiction|].
    assert (Hx : In x (filter (fun x => (key x =? k')%string) l))
      by (rewrite E; now left).
    apply filter_In in Hx as [Hx Hk]. apply String.eqb_eq in Hk. eauto.
  - intros [x [<- Hx]].
    exists (key x, filter (fun y => (key y =? key x)%string) l).
    split; [reflexivity|]. apply In_groupby_label. split; [reflexivity|].
    intros E. assert (Hin : In x (filter (fun y => (key y =? key x)%string) l)).
    { apply filter_In. split; [assumption | apply String.eqb_refl]. }
    rewrite E in Hin. exact Hin.
Qed.

Lemma label_insert_Permutation x gs :
  Permutation (List.concat (map snd (label_insert key x gs)))
              (x :: List.concat (map snd gs)).
Proof.
  induction gs as [|[k xs] gs IH]; cbn; [reflexivity|].
  destruct (key x <? k)%string; [reflexivity|].
  destruct (key x =? k)%string; cbn.
  - rewrite <- app_assoc. cbn. symmetry. apply Permutation_middle.
  - rewrite IH. symmetry. apply Permutation_middle.
Qed.

Lemma groupby_label_Permutation l :
  Permutation (List.concat (map snd (groupby_label key l))) l.
Proof.
  unfold groupby_label.
  assert (H : forall gs,
             Permutation
               (List.concat
                  (map snd (fold_left (fun gs x => label_insert key x gs) l gs)))
               (l ++ List.concat (map snd gs))).
  { induction l as [|x l IH]; intros gs; cbn; [reflexivity|].
    rewrite IH, label_insert_Permutation. symmetry. apply Permutation_middle. }
  rewrite H. cbn. now rewrite app_nil_r.
Qed.

(** Grouping the column of labels is grouping the rows. *)
Lemma label_insert_map x gs :
  label_insert (fun s => s) (key x)
               (map (fun g => (fst g, map key (snd g))) gs)
  = map (fun g => (fst g, map key (snd g))) (label_insert key x gs).
Proof.
  induction gs as [|[k xs] gs IH]; cbn; [reflexivity|].
  destruct (key x <? k)%string; [reflexivity|].
  destruct (key x =? k)%string; cbn.
  - now rewrite map_app.
  - now rewrite IH.
Qed.

Lemma groupby_label_map l :
  groupby_label (fun s => s) (map key l)
  = map (fun g => (fst g, map key (snd g))) (groupby_label key l).
Proof.
  unfold groupby_label.
  assert (H : forall gs,
             fold_left (fun gs s => label_insert (fun s => s) s gs) (map key l)
                       (map (fun g => (fst g, map key (snd g))) gs)
             = map (fun g => (fst g, map key (snd g)))
                   (fold_left (fun gs x => label_insert key x gs) l gs)).
  { induction l as [|x l IH]; intros gs; cbn; [reflexivity|].
    now rewrite label_insert_map, IH. }
  exact (H []).
Qed.

End GroupByLabelFacts.

Lemma filter_absent_key {X : Type} (k : X -> string) (s : string) ps :
  ~ In s (map k ps) -> filter (fun q => (k q =? s)%string) ps = [].
Proof.
  induction ps as [|q ps IH]; cbn; intros H; [reflexivity|].
  destruct (String.eqb_spec (k q) s) as [E|_]; [exfalso; apply H; now left|].
  apply IH. intros Hin. apply H. now right.
Qed.

Lemma filter_unique_key {X : Type} (k : X -> string) (p : X) ps :
  NoDup (map k ps) -> In p ps ->
  filter (fun q => (k q =? k p)%string) ps = [p].
Proof.
  induction ps as [|q ps IH]; cbn; intros Hnd Hin; [contradiction|].
  inversion Hnd as [|? ? Hq Hnd']; subst. destruct Hin as [->|Hin].
  - rewrite String.eqb_refl. f_equal. now apply filter_absent_key.
  - destruct (String.eqb_spec (k q) (k p)) as [E|_]; [|auto].
    exfalso. apply Hq. rewrite E. now apply in_map.
Qed.

Lemma flat_map_map_singletons {A B C : Type}
      (F : A -> B) (f : B -> list C) (h : A -> C) l :
  (forall x, In x l -> f (F x) = [h x]) -> flat_map f (map F l) = map h l.
Proof.
  induction l as [|x l IH]; cbn; intros H; [reflexivity|].
  rewrite (H x) by now left. cbn. f_equal. apply IH. intros; apply H; now right.
Qed.

(** The summary, row by row: one row per group of the customers by
    segment. *)
Lemma segment_summary_rows (co : list CustomerRow) :
  let gs := groupby_label segment_of co in
  let n := Z.of_nat (List.length co) in
  let revenue := sum (map (fun g => sum (map TotalRevenue (snd g))) gs) in
  Summary.segment_summary co
  = map (fun g =>
           Summary.mkSegmentRow
             (fst g) (count (snd g))
             (round2 (times100 (truediv (count (snd g)) n)))
             (sum (map TotalRevenue (snd g)))
             (round2 (times100
                        (truediv_float (sum (map TotalRevenue (snd g))) revenue))))
        gs.
Proof.
  intros gs n revenue. unfold Summary.segment_summary, Summary.segment_counts,
    Summary.value_counts_sorted, Summary.segment_revenue, CustomerSegment.
  fold segment_of. change (fun r => classify_customer (OrderCount r)) with segment_of.
  rewrite (groupby_label_map segment_of co). fold gs. rewrite !map_map. cbn [fst snd].
  assert (Htotal : fold_right Z.add 0
                     (map (fun g : string * list CustomerRow =>
                             count (map segment_of (snd g))) gs) = n).
  { transitivity (Z.of_nat (List.length (List.concat (map snd gs)))).
    - clear. induction gs as [|g gs IH]; cbn [map fold_right List.concat];
        [reflexivity|].
      rewrite IH, length_app. unfold count. rewrite length_map. lia.
    - unfold n, gs.
      now rewrite (Permutation_length (groupby_label_Permutation segment_of co)). }
  rewrite Htotal.
  rewrite (flat_map_map_singletons _ _
             (fun g : string * list CustomerRow =>
                ((fst g, count (map segment_of (snd g)),
                  round2 (times100 (truediv (count (map segment_of (snd g))) n))),
                 sum (map TotalRevenue (snd g))))).
  - rewrite !map_map. cbn [fst snd].
    apply map_ext. intros g. unfold count. now rewrite length_map.
  - intros g Hg. cbn [fst snd].
    assert (Hf : filter (fun r : string * Q => (fst r =? fst g)%string)
                        (map (fun g0 : string * list CustomerRow =>
                                (fst g0, sum (map TotalRevenue (snd g0)))) gs)
                 = [(fst g, sum (map TotalRevenue (snd g)))]).
    { rewrite (filter_ext (fun r : string * Q => (fst r =? fst g)%string)
                 (fun r : string * Q =>
                    (fst r =? fst (fst g, sum (map TotalRevenue (snd g))))%string))
        by reflexivity.
      apply (filter_unique_key (@fst string Q)).
      - rewrite map_map. cbn [fst]. apply label_lt_NoDup, groupby_label_sorted.
      - apply in_map_iff. exists g. split; [reflexivity | exact Hg]. }
    rewrite Hf. reflexivity.
Qed.

Lemma sum_label_groups (gs : list (string * list CustomerRow)) :
  (sum (map (fun g => sum (map TotalRevenue (snd g))) gs)
   == sum (map TotalRevenue (List.concat (map snd gs))))%Q.
Proof.
  induction gs as [|g gs IH]; cbn [map List.concat]; [reflexivity|].
  rewrite sum_cons, map_app, sum_app, IH. reflexivity.
Qed.

Lemma count_label_groups (gs : list (string * list CustomerRow)) :
  fold_right Z.add 0 (map (fun g => count (snd g)) gs)
  = Z.of_nat (List.length (List.concat (map snd gs))).
Proof.
  induction gs as [|g gs IH]; cbn [map List.concat fold_right]; [reflexivity|].
  rewrite IH, length_app. unfold count. lia.
Qed.

Lemma filter_nonempty_length {X : Type} (p : X -> bool) l :
  filter p l <> [] -> (1 <= List.length (filter p l) <= List.length l)%nat.
Proof.
  intros H. split.
  - destruct (filter p l); [contradiction | cbn; lia].
  - apply (count_if_length p l).
Qed.

(** The rows of the summary: their labels, and what each row holds. *)
Lemma segment_summary_facts (co : list CustomerRow) :
  let summary := Summary.segment_summary co in
  let n := Z.of_nat (List.length co) in
  StronglySorted (fun a b => (a <? b)%string = true)
                 (map Summary.Segment summary)
  /\ (forall s, In s (map Summary.Segment summary) <-> In s (CustomerSegment co))
  /\ Forall (fun row =>
               let members :=
                 filter (fun r => (classify_customer (OrderCount r)
                                   =? Summary.Segment row)%string) co in
               Summary.CustomerCount row = Z.of_nat (List.length members)
               /\ 1 <= Summary.CustomerCount row
               /\ Summary.TotalRevenue row = sum (map TotalRevenue members)
               /\ Summary.Customer_pct row
                  = round2 (times100 (truediv (Summary.CustomerCount row) n)))
            summary.
Proof.
  intros summary n. unfold summary. rewrite segment_summary_rows.
  cbv zeta. fold n. set (gs := groupby_label segment_of co).
  rewrite !map_map. cbn [Summary.Segment].
  split; [|split].
  - apply (groupby_label_sorted segment_of co).
  - intros s. apply (In_keys_groupby_label segment_of s co).
  - apply Forall_forall. intros row Hrow.
    apply in_map_iff in Hrow as [[k xs] [<- Hg]].
    apply In_groupby_label in Hg as [Hxs Hne].
    cbn [Summary.Segment Summary.CustomerCount Summary.TotalRevenue
         Summary.Customer_pct fst snd].
    change (fun r => (classify_customer (OrderCount r) =? k)%string)
      with (fun r => (segment_of r =? k)%string).
    rewrite <- Hxs. rewrite Hxs in Hne.
    pose proof (filter_nonempty_length _ co Hne) as Hlen. rewrite <- Hxs in Hlen.
    unfold count. repeat split; lia.
Qed.

(** X12. The segment summary has one row per segment that occurs among the
    customers, in the order of the labels.  The row of a segment counts the
    customers of that segment (at least one), sums their revenue and gives
    their share of all customers: the count divided by the number of
    customers, times 100, rounded to two places, all in binary64.  The
    counts add up to the number of customers and the revenues to the
    revenue of all customers. *)
Theorem segment_summary_conserves (co : list CustomerRow) :
  let summary := Summary.segment_summary co in
  let n := Z.of_nat (List.length co) in
  StronglySorted (fun a b => (a <? b)%string = true)
                 (map Summary.Segment summary)
  /\ (forall s, In s (map Summary.Segment summary) <-> In s (CustomerSegment co))
  /\ Forall (fun row =>
               let members :=
                 filter (fun r => (classify_customer (OrderCount r)
                                   =? Summary.Segment row)%string) co in
               Summary.CustomerCount row = Z.of_nat (List.length members)
               /\ 1 <= Summary.CustomerCount row
               /\ Summary.TotalRevenue row = sum (map TotalRevenue members)
               /\ Summary.Customer_pct row
                  = round2 (times100 (truediv (Summary.CustomerCount row) n)))
            summary
  /\ fold_right Z.add 0 (map Summary.CustomerCount summary) = n
  /\ (sum (map Summary.TotalRevenue summary) == sum (map TotalRevenue co))%Q.
Proof.
  intros summary n.
  destruct (segment_summary_facts co) as (Hs & Hin & Hrows).
  split; [exact Hs|]. split; [exact Hin|]. split; [exact Hrows|].
  unfold summary. rewrite segment_summary_rows. cbv zeta.
  set (gs := groupby_label segment_of co).
  rewrite !map_map. cbn [Summary.CustomerCount Summary.TotalRevenue]. split.
  - rewrite count_label_groups. unfold n, gs.
    now rewrite (Permutation_length (groupby_label_Permutation segment_of co)).
  - rewrite sum_label_groups. apply sum_Permutation, Permutation_map.
    apply groupby_label_Permutation.
Qed.

(** On the sample: three customers of five have one order, two have two. *)
Example segment_summary_sample :
  map (fun row => (Summary.Segment row, Summary.CustomerCount row,
                   Summary.Customer_pct row))
      (Summary.segment_summary (customer_orders sample))
  = [("One-Time Buyer", 3, Finite 60); ("Two-Time Buyer", 2, Finite 40)].
Proof. vm_compute. reflexivity. Qed.

Lemma classify_one_time c :
  (classify_customer c =? "One-Time Buyer")%string = (c =? 1).
Proof.
  unfold classify_customer.
  destruct (c =? 1); [reflexivity|].
  destruct (c =? 2); [reflexivity|].
  destruct (c <=? 5); [reflexivity|].
  destruct (c <=? 10); reflexivity.
Qed.

(** X13. The dashboard's lookup of the one-time buyers' share in the
    summary finds a cell exactly when some customer has one order; the cell
    is then the share of such customers: their number divided by the
    number of customers, times 100, rounded to two places, all in binary64.
    When no customer has one order, the selection is empty and its first
    cell does not exist. *)
Theorem one_time_pct_defined (co : list CustomerRow) :
  let k := Z.of_nat (count_if (fun r => OrderCount r =? 1) co) in
  let n := Z.of_nat (List.length co) in
  (Summary.one_time_pct (Summary.segment_summary co) = None
   <-> forall r, In r co -> OrderCount r <> 1)
  /\ ((exists r, In r co /\ OrderCount r = 1) ->
      Summary.one_time_pct (Summary.segment_summary co)
      = Some (round2 (times100 (truediv k n)))).
Proof.
  intros k n.
  destruct (segment_summary_facts co) as (Hs & Hin & Hrows).
  cbv zeta in Hs, Hin, Hrows. unfold Summary.one_time_pct.
  set (summary := Summary.segment_summary co) in *.
  assert (Hkey : forall r, In r co ->
            (OrderCount r = 1 <-> segment_of r = "One-Time Buyer")).
  { intros r _. unfold segment_of.
    rewrite <- String.eqb_eq, classify_one_time, Z.eqb_eq. reflexivity. }
  destruct (in_dec string_dec "One-Time Buyer" (map Summary.Segment summary))
    as [Hyes|Hno].
  - apply in_map_iff in Hyes as [row [Hseg Hrow]].
    assert (Hf : filter (fun q => (Summary.Segment q =? "One-Time Buyer")%string)
                        summary = [row]).
    { rewrite <- Hseg. apply filter_unique_key; [|exact Hrow].
      now apply label_lt_NoDup. }
    rewrite Hf. cbn [map hd_error].
    rewrite Forall_forall in Hrows. destruct (Hrows row Hrow) as (Hc & _ & _ & Hp).
    cbv zeta in Hc. rewrite Hp, Hc, Hseg.
    assert (Hk : Z.of_nat
                   (List.length
                      (filter (fun r => (classify_customer (OrderCount r)
                                         =? "One-Time Buyer")%string) co)) = k).
    { unfold k, count_if. f_equal. f_equal. apply filter_ext. intros r.
      apply classify_one_time. }
    rewrite Hk. split; [|reflexivity]. split; [discriminate|].
    intros Hnone. exfalso.
    assert (Hs' : In "One-Time Buyer" (CustomerSegment co)).
    { apply Hin. rewrite <- Hseg. now apply in_map. }
    apply in_map_iff in Hs' as [r [Hr Hrin]].
    apply (Hnone r Hrin). apply Hkey; assumption.
  - rewrite (filter_absent_key Summary.Segment _ _ Hno). cbn [map hd_error].
    assert (Hnone : forall r, In r co -> OrderCount r <> 1).
    { intros r Hr H1. apply Hno, Hin. apply in_map_iff. exists r.
      split; [|exact Hr]. apply (Hkey r Hr), H1. }
    split; [tauto|]. intros [r [Hr H1]]. destruct (Hnone r Hr H1).
Qed.

(** ** The runner *)

Lemma lower_y (s : string) :
  (Runner.lower s =? "y")%string = ((s =? "y") || (s =? "Y"))%string.
Proof.
  destruct s as [|c [|c' s]].
  - reflexivity.
  - destruct c as [[] [] [] [] [] [] [] []]; reflexivity.
  - cbn [Runner.lower String.eqb].
    repeat match goal with
           | |- context [Ascii.eqb ?a ?b] => destruct (Ascii.eqb a b)
           end; reflexivity.
Qed.

Lemma loop_all_succeed run todo : forall answers results,
  Forall (fun p => run (fst p) = true) todo ->
  Runner.loop run todo answers results
  = (results ++ map (fun p => (fst p, true)) todo, Runner.Finished).
Proof.
  induction todo as [|[s d] todo IH]; intros answers results H; cbn.
  - now rewrite app_nil_r.
  - inversion H as [|? ? Hs Ht]; subst. cbn in Hs. rewrite Hs.
    rewrite IH by assumption. now rewrite <- app_assoc.
Qed.

Lemma loop_prefix run todo : forall answers results,
  exists k,
    fst (Runner.loop run todo answers results)
    = results ++ map (fun p => (fst p, run (fst p))) (firstn k todo)
    /\ (k <= List.length todo)%nat
    /\ (snd (Runner.loop run todo answers results) = Runner.Finished ->
        k = List.length todo)
    /\ (todo <> [] -> (1 <= k)%nat).
Proof.
  induction todo as [|[s d] todo IH]; intros answers results; cbn [Runner.loop].
  - exists 0%nat. cbn. rewrite app_nil_r. repeat split; auto. congruence.
  - destruct (run s) eqn:Hs.
    + destruct (IH answers (results ++ [(s, true)])) as [k [H1 [H2 [H3 _]]]].
      exists (S k). cbn [firstn map fst List.length]. rewrite Hs, H1, <- app_assoc.
      repeat split; [lia | intros E; f_equal; auto | lia].
    + destruct answers as [|a answers].
      * exists 1%nat. cbn. rewrite Hs. repeat split; [lia | discriminate | lia].
      * destruct (negb (Runner.lower a =? "y")%string).
        -- exists 1%nat. cbn. rewrite Hs. repeat split; [lia | discriminate | lia].
        -- destruct (IH answers (results ++ [(s, false)])) as [k [H1 [H2 [H3 _]]]].
           exists (S k). cbn [firstn map fst List.length].
           rewrite Hs, H1, <- app_assoc.
           repeat split; [lia | intros E; f_equal; auto | lia].
Qed.

Lemma successful_all run (l : list (string * string)) :
  Runner.successful (map (fun p => (fst p, run (fst p))) l) = List.length l ->
  Forall (fun p => run (fst p) = true) l.
Proof.
  unfold Runner.successful. induction l as [|p l IH]; cbn; [constructor|].
  destruct (run (fst p)) eqn:E; cbn; intros H.
  - constructor; [exact E | apply IH; lia].
  - pose proof (filter_length_le snd (map (fun p => (fst p, run (fst p))) l)) as Hle.
    rewrite length_map in Hle. lia.
Qed.

(** X14. The runner reports that all analysis completed exactly when each
    of the three scripts ended with success, and it then asks nothing.  In
    every run the results are the scripts in their order, from the first up
    to the one where the run ended, each with its own outcome: none is
    skipped and none runs twice. *)
Theorem main_all_completed (run : string -> bool) (answers : list string) :
  (snd (Runner.main run answers) = Runner.AllCompleted
   <-> Forall (fun p => run (fst p) = true) Runner.scripts)
  /\ (Forall (fun p => run (fst p) = true) Runner.scripts ->
      Runner.main run answers = Runner.main run [])
  /\ exists k, (1 <= k <= 3)%nat
       /\ fst (Runner.main run answers)
          = map (fun p => (fst p, run (fst p))) (firstn k Runner.scripts).
Proof.
  assert (Hall : forall answers',
            Forall (fun p => run (fst p) = true) Runner.scripts ->
            Runner.main run answers'
            = (map (fun p => (fst p, true)) Runner.scripts, Runner.AllCompleted)).
  { intros answers' H. unfold Runner.main.
    rewrite (loop_all_succeed run Runner.scripts answers' [] H). reflexivity. }
  destruct (loop_prefix run Runner.scripts answers []) as [k [H1 [H2 [H3 H4]]]].
  cbn [app] in H1.
  assert (Hfst : fst (Runner.main run answers)
                 = fst (Runner.loop run Runner.scripts answers [])).
  { unfold Runner.main.
    destruct (Runner.loop run Runner.scripts answers []) as [results []];
      reflexivity. }
  split; [|split].
  - split; [|intros H; now rewrite (Hall answers H)].
    unfold Runner.main.
    destruct (Runner.loop run Runner.scripts answers []) as [results e] eqn:E.
    cbn [fst snd] in H1, H3. subst results.
    assert (Hs : Runner.successful
                   (map (fun p => (fst p, run (fst p))) (firstn k Runner.scripts))
                 = List.length Runner.scripts ->
                 Forall (fun p => run (fst p) = true) Runner.scripts).
    { intros Hn.
      assert (Hk : k = List.length Runner.scripts).
      { unfold Runner.successful in Hn.
        pose proof (filter_length_le snd
                      (map (fun p => (fst p, run (fst p)))
                           (firstn k Runner.scripts))) as Hle.
        rewrite length_map, length_firstn in Hle. lia. }
      rewrite Hk, firstn_all in Hn. now apply successful_all. }
    destruct e; cbn [snd];
      try (destruct (Nat.eqb_spec
                       (Runner.successful
                          (map (fun p => (fst p, run (fst p)))
                               (firstn k Runner.scripts)))
                       (List.length Runner.scripts)) as [Hn|Hn];
           [intros _; exact (Hs Hn) | discriminate]).
  - intros H. now rewrite (Hall answers H), (Hall [] H).
  - exists k. rewrite Hfst, H1. split; [|reflexivity].
    split; [|exact H2]. apply H4. discriminate.
Qed.

(** X15. At the first script that fails, after the scripts before it ended
    with success: with no line to read the run ends in the error of
    [input]; with an answer other than y or Y the loop stops, the failed
    script being the last of the results; with y or Y the loop goes on with
    the scripts after it and the answers left. *)
Theorem loop_first_failure (run : string -> bool)
        (before after : list (string * string)) (script description : string)
        (answers : list string) (results : list (string * bool)) :
  Forall (fun p => run (fst p) = true) before ->
  run script = false ->
  let results' :=
    results ++ map (fun p => (fst p, true)) before ++ [(script, false)] in
  Runner.loop run (before ++ (script, description) :: after) answers results
  = match answers with
    | [] => (results', Runner.EOFError)
    | answer :: answers' =>
        if ((answer =? "y") || (answer =? "Y"))%string
        then Runner.loop run after answers' results'
        else (results', Runner.Stopped)
    end.
Proof.
  intros Hb Hs results'. subst results'. revert results.
  induction before as [|[s d] before IH]; intros results; cbn [app Runner.loop map].
  - rewrite Hs. destruct answers as [|a answers']; [reflexivity|].
    rewrite lower_y. destruct ((a =? "y") || (a =? "Y"))%string; reflexivity.
  - inversion Hb as [|? ? Hs' Hb']; subst. cbn in Hs'. rewrite Hs'.
    rewrite (IH Hb'). cbn [fst]. rewrite <- !app_assoc. reflexivity.
Qed.

Lemma loop_first_failure_witness :
  Runner.loop (fun s => (s =? "01_data_cleaning.py")%string)
              ([("01_data_cleaning.py", "Data Cleaning & Preparation")]
               ++ ("02_cohort_analysis.py", "Customer Acquisition Cohort Analysis")
                  :: [("03_repeat_vs_onetime_buyers.py",
                       "Repeat vs One-Time Buyers Analysis")])
              ["n"] []
  = ([("01_data_cleaning.py", true); ("02_cohort_analysis.py", false)],
     Runner.Stopped).
Proof.
  apply (loop_first_failure
           (fun s => (s =? "01_data_cleaning.py")%string)
           [("01_data_cleaning.py", "Data Cleaning & Preparation")]
           [("03_repeat_vs_onetime_buyers.py", "Repeat vs One-Time Buyers Analysis")]
           "02_cohort_analysis.py" "Customer Acquisition Cohort Analysis"
           ["n"] []).
  - repeat constructor.
  - reflexivity.
Defined.

(** ** The dashboard's header *)

Lemma rstrip_ends chars s :
  Dashboard.ends_with chars (Dashboard.rstrip chars s) = false.
Proof.
  induction s as [|a s IH]; [reflexivity|]. cbn [Dashboard.rstrip].
  destruct (Dashboard.rstrip chars s) as [|b t] eqn:E.
  - destruct (Dashboard.mem a chars) eqn:Ea; [reflexivity|]. cbn. exact Ea.
  - exact IH.
Qed.

Lemma lstrip_begins chars s :
  Dashboard.begins_with chars (Dashboard.lstrip chars s) = false.
Proof.
  induction s as [|a s IH]; [reflexivity|]. cbn [Dashboard.lstrip].
  destruct (Dashboard.mem a chars) eqn:Ea; [exact IH|]. cbn. exact Ea.
Qed.

Lemma rstrip_begins chars s :
  Dashboard.begins_with chars s = false ->
  Dashboard.begins_with chars (Dashboard.rstrip chars s) = false.
Proof.
  destruct s as [|a s]; [reflexivity|]. cbn [Dashboard.rstrip Dashboard.begins_with].
  intros Ha. destruct (Dashboard.rstrip chars s); [|exact Ha].
  rewrite Ha. exact Ha.
Qed.

(** X16. The names the dashboard gives the columns of the monthly trend
    never begin or end with an underscore, whatever the header read from
    the file; so none of them is 'YearMonth_', and the renaming of that
    label changes nothing. *)
Theorem monthly_trend_rename_idle (header : list (list string)) :
  Forall (fun name => Dashboard.begins_with "_" name = false
                      /\ Dashboard.ends_with "_" name = false)
         (Dashboard.flatten header)
  /\ ~ In "YearMonth_" (Dashboard.flatten header)
  /\ Dashboard.monthly_trend_columns header = Dashboard.flatten header.
Proof.
  assert (H : Forall (fun name => Dashboard.begins_with "_" name = false
                                  /\ Dashboard.ends_with "_" name = false)
                     (Dashboard.flatten header)).
  { apply Forall_forall. intros name Hn. unfold Dashboard.flatten in Hn.
    apply in_map_iff in Hn as [col [<- _]]. unfold Dashboard.strip. split.
    - apply rstrip_begins, lstrip_begins.
    - apply rstrip_ends. }
  assert (Hno : ~ In "YearMonth_" (Dashboard.flatten header)).
  { intros Hin. rewrite Forall_forall in H. destruct (H _ Hin) as [_ He].
    discriminate He. }
  split; [exact H|]. split; [exact Hno|].
  unfold Dashboard.monthly_trend_columns, Dashboard.rename.
  rewrite <- (map_id (Dashboard.flatten header)) at 2.
  apply map_ext_in. intros c Hc. cbn [find fst snd].
  destruct (String.eqb_spec "YearMonth_" c) as [<-|_]; [contradiction | reflexivity].
Qed.

(** ** The RFM score as text *)







